(** * HyperDash Monitor backend: snapshot aggregation and retention store

    A shallow embedding of [server.py] (functions [load_snapshots],
    [save_snapshots], [fetch_leaderboard], [take_snapshot], [cron_loop]
    and [Handler.do_GET]) together with the properties stated for it.

    Conventions of the embedding:
    - Python [float] is IEEE 754 binary64, modelled by [spec_float]
      with precision 53 and [emax = 1024];
    - Python [str] is modelled by [string], that is, by the strings whose
      code points are below 256;
    - Python [int] is unbounded: [Z] for time stamps, [nat] for counters;
      the time stamps and counters of a run are far below the 4300
      digits beyond which turning an [int] into a [str] raises;
    - a [dict] is an association list in insertion order, which is the
      order [dict.items()] iterates in;
    - an exception is an explicit result, [Raised];
    - the data file is in one of five states (missing, in a directory
      that cannot be searched, a directory, a file that cannot be read,
      a file with a text), and a write completes, is refused or breaks
      off after some characters.

    The first half of the file is the program: floats, the [json]
    encoder and decoder, the accumulation loop, the coin list, the data
    file, retention, [take_snapshot] and its two callers.  The second
    half states and proves what holds of it. *)

From Stdlib Require Import ZArith NArith List String Ascii Bool Lia Arith.
From Stdlib Require Import Permutation Sorted.
From Stdlib Require Import QArith Qround Qpower Lqa.
From Stdlib Require Import Floats.SpecFloat.
From Stdlib Require Import DecimalString DecimalFacts DecimalPos DecimalN DecimalZ.
Import ListNotations.
Close Scope Q_scope.

(** ** Binary64 arithmetic as Python exposes it *)

Module PyFloat.

Definition prec : Z := 53.
Definition emax : Z := 1024.

Definition float := spec_float.

(** [0.0] *)
Definition fzero : float := S754_zero false.

Definition fadd : float -> float -> float := SFadd prec emax.

(** [a / b]; every use in [take_snapshot] sits under a guard that
    excludes a zero divisor, so [ZeroDivisionError] is out of reach and
    the quotient is the IEEE one. *)
Definition fdiv : float -> float -> float := SFdiv prec emax.

Definition feqb : float -> float -> bool := SFeqb.
Definition fltb : float -> float -> bool := SFltb.

Definition is_nan (x : float) : bool :=
  match x with S754_nan => true | _ => false end.

Definition of_Z (z : Z) : float := binary_normalize prec emax z 0 false.

(** Nearest integer to [num / den] for [0 <= num] and [0 < den], ties
    to even. *)
Definition round_half_even (num den : Z) : Z :=
  let q := (num / den)%Z in
  let r := (num mod den)%Z in
  match (2 * r ?= den)%Z with
  | Lt => q
  | Gt => (q + 1)%Z
  | Eq => if Z.even q then q else (q + 1)%Z
  end.

(** The least exponent of binary64, the one of the subnormal values. *)
Definition emin : Z := (3 - emax - prec)%Z.

(** The exponent of the binade of [q > 0]: the [k] with
    [2^k <= q < 2^(k+1)]. *)
Definition floor_log2 (q : Q) : Z :=
  let k := (Z.log2 (Qnum q) - Z.log2 (Zpos (Qden q)))%Z in
  if Qle_bool (2 ^ k) q then k else (k - 1)%Z.

(** The integer nearest to [q], ties to the even one. *)
Definition Qround_half_even (q : Q) : Z :=
  let f := Qfloor q in
  match (q - inject_Z f ?= 1 # 2)%Q with
  | Lt => f
  | Gt => (f + 1)%Z
  | Eq => if Z.even f then f else (f + 1)%Z
  end.

(** The binary64 value nearest to the rational [q > 0], ties to the
    even mantissa, with sign [s]: the exponent is the one that gives the
    binade of [q] a mantissa of 53 bits, or the least exponent if that
    is larger; the mantissa is [q] scaled by it and rounded; a mantissa
    rounded up to [2^53] moves to the next binade, and an exponent past
    the largest gives an infinity. *)
Definition nearest (s : bool) (q : Q) : float :=
  let e := Z.max (floor_log2 q - (prec - 1)) emin in
  let m := Qround_half_even (q / 2 ^ e) in
  let '(m, e) := if (m =? 2 ^ prec)%Z
                 then (2 ^ (prec - 1), e + 1)%Z else (m, e) in
  match m with
  | Zpos p => if (e <=? emax - prec)%Z then S754_finite s p e else S754_infinity s
  | _ => S754_zero s
  end.

(** The binary64 value nearest to [M * 10^E], with sign [s]: what
    [float()] makes of a decimal literal. *)
Definition of_scientific (s : bool) (M : N) (E : Z) : float :=
  match M with
  | N0 => S754_zero s
  | Npos p => nearest s (inject_Z (Zpos p) * 10 ^ E)
  end.

(** [round(x, ndigits)] for [ndigits >= 0]: the exact value of [x] is
    rounded half-even to [ndigits] decimals, and the decimal obtained is
    converted back to the nearest binary64 value.  Infinities and NaN
    round to themselves; a result of zero keeps the sign of [x]. *)
Definition py_round (x : float) (ndigits : nat) : float :=
  match x with
  | S754_finite s m e =>
      let p := (10 ^ Z.of_nat ndigits)%Z in
      let q := if (0 <=? e)%Z
               then (Zpos m * 2 ^ e * p)%Z
               else round_half_even (Zpos m * p) (2 ^ (- e)) in
      of_scientific s (Z.to_N q) (- Z.of_nat ndigits)
  | _ => x
  end.

(** Same bit pattern. *)
Definition float_same (x y : float) : bool :=
  match x, y with
  | S754_zero a, S754_zero b => Bool.eqb a b
  | S754_infinity a, S754_infinity b => Bool.eqb a b
  | S754_nan, S754_nan => true
  | S754_finite a m e, S754_finite b m' e' =>
      Bool.eqb a b && Pos.eqb m m' && Z.eqb e e'
  | _, _ => false
  end.

(** *** [float.__repr__] *)

(** The exact magnitude of a finite value. *)
Definition F2Q (m : positive) (e : Z) : Q := inject_Z (Zpos m) * 2 ^ e.

(** The least [k] at or after the start with [q < 10^k]. *)
Fixpoint find_decpt (fuel : nat) (k : Z) (q : Q) : Z :=
  match fuel with
  | O => k
  | S fuel' => if Qle_bool (10 ^ k) q then find_decpt fuel' (k + 1)%Z q else k
  end.

(** A [p]-digit decimal [c * 10^(decpt - p)] that converts back to [x]:
    of the two integers around [q * 10^(p - decpt)] the nearer one if it
    does, else the other one if it does. *)
Definition try_digits (x : float) (s : bool) (q : Q) (decpt p : Z) : option Z :=
  let r := (q * 10 ^ (p - decpt))%Q in
  let lo := Qfloor r in
  let near := Qround_half_even r in
  let far := if (near =? lo)%Z then (lo + 1)%Z else lo in
  let ok c := float_same (of_scientific s (Z.to_N c) (decpt - p)) x in
  if ok near then Some near else if ok far then Some far else None.

(** The shortest digit string that converts back to [x], tried from [p]
    digits up; 17 digits always do for binary64. *)
Fixpoint shortest (fuel : nat) (x : float) (s : bool) (q : Q) (decpt p : Z) : Z * Z :=
  match fuel with
  | O => (Qround_half_even (q * 10 ^ (p - decpt)), p)
  | S fuel' =>
      match try_digits x s q decpt p with
      | Some c => (c, p)
      | None => shortest fuel' x s q decpt (p + 1)%Z
      end
  end.

Fixpoint strip_zeros (l : list ascii) : list ascii :=
  match l with
  | a :: l' => if Ascii.eqb a "0" then strip_zeros l' else l
  | [] => []
  end.

Definition strip_trailing_zeros (s : string) : string :=
  string_of_list_ascii (List.rev (strip_zeros (List.rev (list_ascii_of_string s)))).

Definition digits_string (c : Z) : string :=
  NilZero.string_of_uint (N.to_uint (Z.to_N c)).

Fixpoint zeros (n : nat) : string :=
  match n with
  | O => EmptyString
  | S n' => String "0" (zeros n')
  end.

(** Sign and at least two digits. *)
Definition exponent_text (e10 : Z) : string :=
  let a := digits_string (Z.abs e10) in
  ((if (e10 <? 0)%Z then "-" else "+") ++
   (if (Z.abs e10 <? 10)%Z then "0" ++ a else a))%string.

(** Layout of the digits [ds] with the decimal point after the first
    [decpt] of them: positional when [-4 < decpt <= 16], else with an
    exponent. *)
Definition format_repr (ds : string) (decpt : Z) : string :=
  let n := Z.of_nat (String.length ds) in
  (if ((-4 <? decpt) && (decpt <=? 16))%Z then
     if (decpt <=? 0)%Z then "0." ++ zeros (Z.to_nat (- decpt)) ++ ds
     else if (decpt <? n)%Z
          then substring 0 (Z.to_nat decpt) ds ++ "." ++
               substring (Z.to_nat decpt) (Z.to_nat (n - decpt)) ds
          else ds ++ zeros (Z.to_nat (decpt - n)) ++ ".0"
   else
     substring 0 1 ds ++
     (if (1 <? n)%Z then "." ++ substring 1 (Z.to_nat (n - 1)) ds else "") ++
     "e" ++ exponent_text (decpt - 1))%string.

Definition float_repr (x : float) : string :=
  match x with
  | S754_nan => "nan"
  | S754_infinity s => if s then "-inf" else "inf"
  | S754_zero s => if s then "-0.0" else "0.0"
  | S754_finite s m e =>
      let q := F2Q m e in
      let start := (floor_log2 q * 30103 / 100000 - 1)%Z in
      let decpt := find_decpt 8 start q in
      let (c, p) := shortest 17 x s q decpt 1 in
      let all := digits_string c in
      let ds := strip_trailing_zeros all in
      let decpt' := (decpt + (Z.of_nat (String.length all) - p))%Z in
      ((if s then "-" else "") ++ format_repr ds decpt')%string
  end.

End PyFloat.
Import PyFloat.

(** [x if cond else 0] mixes a float with the integer literal [0]. *)
Inductive pynum :=
| PyInt (z : Z)
| PyFloat (f : float).

(** ** The [json] module, as far as [dumps] and [loads] are used *)

Module Json.

Local Open Scope string_scope.

(** The values [json.loads] can return. A [dict] lists its items in
    insertion order. *)
#[local] Unset Elimination Schemes.
Inductive json :=
| JNull
| JBool (b : bool)
| JInt (z : Z)
| JFloat (f : float)
| JStr (s : string)
| JList (l : list json)
| JDict (d : list (string * json)).
#[local] Set Elimination Schemes.

Definition dquote : ascii := "034"%char.
Definition bslash : ascii := "092"%char.

(** *** Encoding: [json.dumps(obj, separators=(",", ":"))] *)

Definition hex_digit (n : N) : ascii :=
  ascii_of_N (if (n <? 10)%N then 48 + n else 87 + n).

(** The replacement [encode_basestring_ascii] makes for one character. *)
Definition escape_char (a : ascii) : string :=
  let n := N_of_ascii a in
  if Ascii.eqb a dquote then String bslash (String dquote "")
  else if Ascii.eqb a bslash then String bslash (String bslash "")
  else if (n =? 10)%N then String bslash "n"
  else if (n =? 13)%N then String bslash "r"
  else if (n =? 9)%N then String bslash "t"
  else if (n =? 8)%N then String bslash "b"
  else if (n =? 12)%N then String bslash "f"
  else if ((32 <=? n) && (n <=? 126))%N then String a ""
  else String bslash
         ("u00" ++ String (hex_digit (n / 16)) (String (hex_digit (n mod 16)) "")).

Fixpoint escape (s : string) : string :=
  match s with
  | "" => ""
  | String a s' => escape_char a ++ escape s'
  end.

Definition encode_basestring_ascii (s : string) : string :=
  String dquote (escape s ++ String dquote "").

(** [int.__repr__] *)
Definition int_repr (z : Z) : string := NilZero.string_of_int (Z.to_int z).

(** The encoder's [floatstr]. *)
Definition floatstr (x : float) : string :=
  match x with
  | S754_nan => "NaN"
  | S754_infinity false => "Infinity"
  | S754_infinity true => "-Infinity"
  | _ => float_repr x
  end.

Definition encode_item (enc : json -> string) (kv : string * json) : string :=
  encode_basestring_ascii (fst kv) ++ ":" ++ enc (snd kv).

Fixpoint dumps (v : json) : string :=
  match v with
  | JNull => "null"
  | JBool b => if b then "true" else "false"
  | JInt z => int_repr z
  | JFloat x => floatstr x
  | JStr s => encode_basestring_ascii s
  | JList l => "[" ++ concat "," (map dumps l) ++ "]"
  | JDict d => "{" ++ concat "," (map (encode_item dumps) d) ++ "}"
  end.

(** *** Decoding: [json.loads(s)] *)

Definition is_ws (a : ascii) : bool :=
  Ascii.eqb a " " || Ascii.eqb a "009" || Ascii.eqb a "010" || Ascii.eqb a "013".

Fixpoint skip_ws (s : string) : string :=
  match s with
  | String a s' => if is_ws a then skip_ws s' else s
  | "" => ""
  end.

Definition is_digit (a : ascii) : bool :=
  let n := N_of_ascii a in ((48 <=? n) && (n <=? 57))%N.

Definition hex_value (a : ascii) : option N :=
  let n := N_of_ascii a in
  if ((48 <=? n) && (n <=? 57))%N then Some (n - 48)%N
  else if ((97 <=? n) && (n <=? 102))%N then Some (n - 87)%N
  else if ((65 <=? n) && (n <=? 70))%N then Some (n - 55)%N
  else None.

Definition decode_uXXXX (h1 h2 h3 h4 : ascii) : option N :=
  match hex_value h1, hex_value h2, hex_value h3, hex_value h4 with
  | Some a, Some b, Some c, Some d => Some (((a * 16 + b) * 16 + c) * 16 + d)%N
  | _, _, _, _ => None
  end.

(** The table [BACKSLASH] of the one-letter escapes. *)
Definition BACKSLASH (e : ascii) : option ascii :=
  if Ascii.eqb e dquote then Some dquote
  else if Ascii.eqb e bslash then Some bslash
  else if Ascii.eqb e "/" then Some "/"%char
  else if Ascii.eqb e "b" then Some "008"%char
  else if Ascii.eqb e "f" then Some "012"%char
  else if Ascii.eqb e "n" then Some "010"%char
  else if Ascii.eqb e "r" then Some "013"%char
  else if Ascii.eqb e "t" then Some "009"%char
  else None.

Definition push (a : ascii) (r : option (string * string)) : option (string * string) :=
  match r with
  | Some (s, rest) => Some (String a s, rest)
  | None => None
  end.

(** [scanstring], strict, from the character after the opening quote: the
    string read and what follows its closing quote.  An escape [\uXXXX]
    of a code point from 256 on names a character outside the modelled
    strings and is refused here. *)
Fixpoint scanstring (s : string) : option (string * string) :=
  match s with
  | "" => None
  | String ch s1 =>
      if Ascii.eqb ch dquote then Some ("", s1)
      else if Ascii.eqb ch bslash then
        match s1 with
        | "" => None
        | String e s2 =>
            if Ascii.eqb e "u" then
              match s2 with
              | String h1 (String h2 (String h3 (String h4 s3))) =>
                  match decode_uXXXX h1 h2 h3 h4 with
                  | Some n =>
                      if (n <? 256)%N then push (ascii_of_N n) (scanstring s3)
                      else None
                  | None => None
                  end
              | _ => None
              end
            else match BACKSLASH e with
                 | Some a => push a (scanstring s2)
                 | None => None
                 end
        end
      else if (N_of_ascii ch <? 32)%N then None
      else push ch (scanstring s1)
  end.

(** The longest run of digits at the front. *)
Fixpoint span_digits (s : string) : string * string :=
  match s with
  | String a s' =>
      if is_digit a
      then let (ds, rest) := span_digits s' in (String a ds, rest)
      else ("", s)
  | "" => ("", "")
  end.

(** The three groups of [NUMBER_RE]: an integer part, which is an
    optional minus sign and then either a single 0 or a digit from 1 to 9
    with any digits after it; an optional fraction, a dot and one digit
    or more; an optional exponent, e or E, an optional sign and one
    digit or more. *)
Definition match_unsigned (s : string) : option (string * string) :=
  match s with
  | String a s1 =>
      if Ascii.eqb a "0" then Some ("0", s1)
      else if is_digit a
           then let (ds, rest) := span_digits s1 in Some (String a ds, rest)
           else None
  | "" => None
  end.

Definition match_integer (s : string) : option (string * string) :=
  match s with
  | String a s1 =>
      if Ascii.eqb a "-"
      then match match_unsigned s1 with
           | Some (ds, rest) => Some (String a ds, rest)
           | None => None
           end
      else match_unsigned s
  | "" => None
  end.

Definition match_frac (s : string) : string * string :=
  match s with
  | String a (String b s2) =>
      if Ascii.eqb a "." && is_digit b
      then let (ds, rest) := span_digits s2 in (String a (String b ds), rest)
      else ("", s)
  | _ => ("", s)
  end.

Definition match_exp_digits (e : ascii) (sign : string) (s s0 : string) : string * string :=
  match s with
  | String b s2 =>
      if is_digit b
      then let (ds, rest) := span_digits s2 in (String e (sign ++ String b ds), rest)
      else ("", s0)
  | "" => ("", s0)
  end.

Definition match_exp (s : string) : string * string :=
  match s with
  | String e s1 =>
      if Ascii.eqb e "e" || Ascii.eqb e "E" then
        match s1 with
        | String g s2 =>
            if Ascii.eqb g "-" || Ascii.eqb g "+"
            then match_exp_digits e (String g "") s2 s
            else match_exp_digits e "" s1 s
        | "" => ("", s)
        end
      else ("", s)
  | "" => ("", s)
  end.

Definition match_number (s : string) : option (string * string * string * string) :=
  match match_integer s with
  | Some (integer, s1) =>
      let (frac, s2) := match_frac s1 in
      let (exp, s3) := match_exp s2 in
      Some (integer, frac, exp, s3)
  | None => None
  end.

(** [int(integer)] *)
Definition parse_int (integer : string) : option Z :=
  option_map Z.of_int (NilZero.int_of_string integer).

Definition drop_first (s : string) : string :=
  match s with
  | String _ s' => s'
  | "" => ""
  end.

Definition starts_with (a : ascii) (s : string) : bool :=
  match s with
  | String b _ => Ascii.eqb a b
  | "" => false
  end.

(** [float(integer + frac + exp)] on the groups of a match. *)
Definition parse_float (integer frac exp : string) : option float :=
  let neg := starts_with "-" integer in
  let idigits := if neg then drop_first integer else integer in
  let fdigits := drop_first frac in
  let etext := drop_first exp in
  let etext := if starts_with "+" etext then drop_first etext else etext in
  match NilEmpty.uint_of_string (idigits ++ fdigits),
        (if String.eqb exp "" then Some 0%Z else parse_int etext) with
  | Some d, Some e10 =>
      Some (of_scientific neg (N.of_uint d) (e10 - Z.of_nat (String.length fdigits)))
  | _, _ => None
  end.

Fixpoint strip_prefix (p s : string) : option string :=
  match p with
  | "" => Some s
  | String a p' =>
      match s with
      | String b s' => if Ascii.eqb a b then strip_prefix p' s' else None
      | "" => None
      end
  end.

(** [dict(pairs)]: a key met again keeps its place and takes the new
    value. *)
Fixpoint dict_put (k : string) (v : json) (d : list (string * json)) :
  list (string * json) :=
  match d with
  | [] => [(k, v)]
  | (k', v') :: d' =>
      if String.eqb k k' then (k', v) :: d' else (k', v') :: dict_put k v d'
  end.

Definition dict_of_pairs (pairs : list (string * json)) : list (string * json) :=
  fold_left (fun d kv => dict_put (fst kv) (snd kv) d) pairs [].

(** A number or one of the constants [NaN], [Infinity], [-Infinity]. *)
Definition scan_number (s : string) : option (json * string) :=
  match match_number s with
  | Some (integer, frac, exp, rest) =>
      if String.eqb frac "" && String.eqb exp ""
      then match parse_int integer with
           | Some z => Some (JInt z, rest)
           | None => None
           end
      else match parse_float integer frac exp with
           | Some x => Some (JFloat x, rest)
           | None => None
           end
  | None =>
      match strip_prefix "NaN" s with
      | Some rest => Some (JFloat S754_nan, rest)
      | None =>
          match strip_prefix "Infinity" s with
          | Some rest => Some (JFloat (S754_infinity false), rest)
          | None =>
              match strip_prefix "-Infinity" s with
              | Some rest => Some (JFloat (S754_infinity true), rest)
              | None => None
              end
          end
      end
  end.

(** The literals [null], [true] and [false], then numbers. *)
Definition scan_atom (s : string) : option (json * string) :=
  match strip_prefix "null" s with
  | Some rest => Some (JNull, rest)
  | None =>
      match strip_prefix "true" s with
      | Some rest => Some (JBool true, rest)
      | None =>
          match strip_prefix "false" s with
          | Some rest => Some (JBool false, rest)
          | None => scan_number s
          end
      end
  end.

(** The scanner is three mutually recursive functions, [scan_once],
    [JSONArray] and [JSONObject]; each body is given here with the
    functions it calls as arguments. *)
Section Scanner.
Variable scan : string -> option (json * string).
Variable array : string -> option (list json * string).
Variable object : string -> option (list (string * json) * string).

(** [scan_once] at a character. *)
Definition scan_body (s : string) : option (json * string) :=
  match s with
  | "" => None
  | String ch s1 =>
      if Ascii.eqb ch dquote then
        match scanstring s1 with
        | Some (str, rest) => Some (JStr str, rest)
        | None => None
        end
      else if Ascii.eqb ch "{" then
        match skip_ws s1 with
        | String a s2 =>
            if Ascii.eqb a "}" then Some (JDict [], s2)
            else if Ascii.eqb a dquote then
              match object s2 with
              | Some (pairs, rest) => Some (JDict (dict_of_pairs pairs), rest)
              | None => None
              end
            else None
        | "" => None
        end
      else if Ascii.eqb ch "[" then
        match skip_ws s1 with
        | String a s2 =>
            if Ascii.eqb a "]" then Some (JList [], s2)
            else match array (String a s2) with
                 | Some (values, rest) => Some (JList values, rest)
                 | None => None
                 end
        | "" => None
        end
      else scan_atom s
  end.

(** The loop of [JSONArray], at a value. *)
Definition array_body (s : string) : option (list json * string) :=
  match scan s with
  | Some (v, s1) =>
      match skip_ws s1 with
      | String a s2 =>
          if Ascii.eqb a "]" then Some ([v], s2)
          else if Ascii.eqb a "," then
            match array (skip_ws s2) with
            | Some (vs, rest) => Some (v :: vs, rest)
            | None => None
            end
          else None
      | "" => None
      end
  | None => None
  end.

(** The loop of [JSONObject], after the opening quote of a key. *)
Definition object_body (s : string) : option (list (string * json) * string) :=
  match scanstring s with
  | Some (key, s1) =>
      match skip_ws s1 with
      | String a s2 =>
          if Ascii.eqb a ":" then
            match scan (skip_ws s2) with
            | Some (v, s3) =>
                match skip_ws s3 with
                | String b s4 =>
                    if Ascii.eqb b "}" then Some ([(key, v)], s4)
                    else if Ascii.eqb b "," then
                      match skip_ws s4 with
                      | String q s5 =>
                          if Ascii.eqb q dquote then
                            match object s5 with
                            | Some (kvs, rest) => Some ((key, v) :: kvs, rest)
                            | None => None
                            end
                          else None
                      | "" => None
                      end
                    else None
                | "" => None
                end
            | None => None
            end
          else None
      | "" => None
      end
  | None => None
  end.
End Scanner.

(** The fuel bounds the depth of the calls; [loads] gives more than any
    text can use. *)
Fixpoint scan_once (fuel : nat) (s : string) {struct fuel} : option (json * string) :=
  match fuel with
  | O => None
  | S fuel' =>
      scan_body (fun t => array_loop fuel' t) (fun t => object_loop fuel' t) s
  end

with array_loop (fuel : nat) (s : string) {struct fuel} : option (list json * string) :=
  match fuel with
  | O => None
  | S fuel' =>
      array_body (fun t => scan_once fuel' t) (fun t => array_loop fuel' t) s
  end

with object_loop (fuel : nat) (s : string) {struct fuel} :
  option (list (string * json) * string) :=
  match fuel with
  | O => None
  | S fuel' =>
      object_body (fun t => scan_once fuel' t) (fun t => object_loop fuel' t) s
  end.

(** [JSONDecoder.decode]: one value, white space around it, nothing
    else.  [None] is [JSONDecodeError]. *)
Definition loads (s : string) : option json :=
  match scan_once (S (S (String.length s))) (skip_ws s) with
  | Some (v, rest) =>
      match skip_ws rest with
      | "" => Some v
      | _ => None
      end
  | None => None
  end.

End Json.
Import Json.

(** ** Answers of the position fetcher *)

(** One entry [p = ap["position"]].  Each field holds what the loop body
    obtains when it evaluates it: [float(p["szi"])],
    [float(p["positionValue"])] and [p["coin"]]; [None] stands for the
    exception raised by a missing key or an unparsable number. *)
Record position := mkPosition {
  szi : option float;
  positionValue : option float;
  coin : option string
}.

(** [ap["position"]], [None] when the key is absent. *)
Definition asset_position := option position.

(** What [fetch_positions(trader["ethAddress"])] gives for one trader. *)
Inductive fetch_result :=
| FetchRaises
| NoAssetPositions
| AssetPositions (aps : list asset_position).

(** ** The accumulation loop of [take_snapshot] *)

(** A value of [coin_data]: [{"lN": .., "sN": .., "lT": .., "sT": ..}]. *)
Record coin_acc := mkAcc {
  a_lN : float;
  a_sN : float;
  a_lT : nat;
  a_sT : nat
}.

Definition fresh_acc : coin_acc := mkAcc fzero fzero 0 0.

Definition dict := list (string * coin_acc).

Fixpoint dict_get (k : string) (d : dict) : option coin_acc :=
  match d with
  | [] => None
  | (k', v) :: d' => if String.eqb k k' then Some v else dict_get k d'
  end.

Definition dict_mem (k : string) (d : dict) : bool :=
  match dict_get k d with Some _ => true | None => false end.

(** [if coin not in coin_data: coin_data[coin] = v] *)
Definition dict_setdefault (k : string) (v : coin_acc) (d : dict) : dict :=
  if dict_mem k d then d else d ++ [(k, v)].

(** In-place update of the entry stored under [k]. *)
Fixpoint dict_modify (k : string) (f : coin_acc -> coin_acc) (d : dict) : dict :=
  match d with
  | [] => []
  | (k', v) :: d' =>
      if String.eqb k k' then (k', f v) :: d'
      else (k', v) :: dict_modify k f d'
  end.

Definition add_long (val : float) (d : coin_acc) : coin_acc :=
  mkAcc (fadd (a_lN d) val) (a_sN d) (a_lT d + 1) (a_sT d).

Definition add_short (val : float) (d : coin_acc) : coin_acc :=
  mkAcc (a_lN d) (fadd (a_sN d) val) (a_lT d) (a_sT d + 1).

(** The local variables of the loop. *)
Record agg := mkAgg {
  coin_data : dict;
  total_long : float;
  total_short : float;
  loaded : nat;
  errors : nat
}.

Definition agg_init : agg := mkAgg [] fzero fzero 0 0.

(** Accumulating one record whose three fields were read. *)
Definition accumulate (c : string) (sz val : float) (st : agg) : agg :=
  let cd := dict_setdefault c fresh_acc (coin_data st) in
  if fltb fzero sz then
    mkAgg (dict_modify c (add_long val) cd)
          (fadd (total_long st) val) (total_short st)
          (loaded st) (errors st)
  else
    mkAgg (dict_modify c (add_short val) cd)
          (total_long st) (fadd (total_short st) val)
          (loaded st) (errors st).

(** Reading a field that may raise: the body goes on with the value
    read, and an exception ends it. *)
Notation "'reading' x ':=' a 'in' b" :=
  (match a with Some x => b | None => None end)
    (at level 10, x name, a at level 100, b at level 200).

(** Body of [for ap in pos["assetPositions"]], in the order the code
    evaluates it.  [None]: an exception left the body; all reads precede
    the first write, so the state is then the one the body started
    from. *)
Definition step_position (ap : asset_position) (st : agg) : option agg :=
  reading p := ap in
  reading sz := szi p in
  reading val := positionValue p in
  if feqb val fzero then Some st
  else reading k := coin p in
       Some (accumulate k sz val st).

(** The inner loop; the flag tells whether it was left by an exception.
    What was accumulated before the exception stays. *)
Fixpoint run_positions (aps : list asset_position) (st : agg) : agg * bool :=
  match aps with
  | [] => (st, false)
  | ap :: rest =>
      match step_position ap st with
      | None => (st, true)
      | Some st' => run_positions rest st'
      end
  end.

Definition count_loaded (st : agg) : agg :=
  mkAgg (coin_data st) (total_long st) (total_short st) (S (loaded st)) (errors st).

Definition count_error (st : agg) : agg :=
  mkAgg (coin_data st) (total_long st) (total_short st) (loaded st) (S (errors st)).

(** Body of [for i, trader in enumerate(traders)] (the progress message
    and the pause leave the state alone). *)
Definition step_trader (st : agg) (res : fetch_result) : agg :=
  match res with
  | FetchRaises => count_error st
  | NoAssetPositions => st
  | AssetPositions aps =>
      let (st', raised) := run_positions aps st in
      if raised then count_error st' else count_loaded st'
  end.

Definition run_traders (results : list fetch_result) : agg :=
  fold_left step_trader results agg_init.

(** ** Building the coin list *)

(** An element of [coins]. *)
Record coin_summary := mkCoin {
  c : string;
  r : float;
  t : float;
  lN : float;
  sN : float;
  lT : nat;
  sT : nat
}.

(** Body of [for c, d in coin_data.items()]; [None] is the [continue]. *)
Definition summarize (kv : string * coin_acc) : option coin_summary :=
  let (k, d) := kv in
  let tot := fadd (a_lN d) (a_sN d) in
  if feqb tot fzero then None
  else Some (mkCoin k
                    (py_round (fdiv (a_lN d) tot) 4)
                    (py_round tot 2)
                    (py_round (a_lN d) 2)
                    (py_round (a_sN d) 2)
                    (a_lT d) (a_sT d)).

Fixpoint build_coins (cd : dict) : list coin_summary :=
  match cd with
  | [] => []
  | kv :: cd' =>
      match summarize kv with
      | Some s => s :: build_coins cd'
      | None => build_coins cd'
      end
  end.

(** [list.sort(key=.., reverse=True)]: the list is reversed, sorted by a
    stable ascending sort that compares keys with [<] only, and reversed
    again.  The ascending sort is an insertion sort.  On keys that [<]
    orders totally, that is, when no key is NaN, every stable sort
    returns the same list, so this is the list [list.sort] returns.
    With a NaN among the keys the list [list.sort] returns depends on
    the runs and merges of its algorithm, which are not followed here:
    it is a rearrangement of the input, as [py_sort_desc] is, but the two
    may differ.  What is stated below about the order of a sorted list
    is stated for keys without NaN. *)
Section PySort.
Context {A : Type}.
Variable key : A -> float.

Fixpoint insert_asc (x : A) (l : list A) : list A :=
  match l with
  | [] => [x]
  | y :: l' =>
      if fltb (key y) (key x) then y :: insert_asc x l'
      else x :: l
  end.

Fixpoint sort_asc (l : list A) : list A :=
  match l with
  | [] => []
  | x :: l' => insert_asc x (sort_asc l')
  end.

Definition py_sort_desc (l : list A) : list A :=
  rev (sort_asc (rev l)).

(** [a] may stand before [b] in a descending list. *)
Definition not_below (a b : A) : Prop := fltb (key a) (key b) = false.

(** [a] may stand before [b] in an ascending list. *)
Definition not_above (a b : A) : Prop := fltb (key b) (key a) = false.

(** No key is NaN, so that [<] orders the keys totally. *)
Definition numeric_keys (l : list A) : Prop :=
  Forall (fun x => is_nan (key x) = false) l.

(** [x] has key [k]: it ties with every element of that key. *)
Definition tied (k : float) (x : A) : bool := feqb (key x) k.
End PySort.

(** "top 60 coins to keep file size reasonable" *)
Definition COIN_CAP : nat := 60.

(** The dictionary [snap]. *)
Record snapshot := mkSnap {
  ts : Z;
  gR : pynum;
  tL : float;
  tS : float;
  traders : nat;
  coins : list coin_summary
}.

Definition sorted_coins (st : agg) : list coin_summary :=
  py_sort_desc t (build_coins (coin_data st)).

Definition global_ratio (st : agg) : pynum :=
  let total := fadd (total_long st) (total_short st) in
  if fltb fzero total
  then PyFloat (py_round (fdiv (total_long st) total) 4)
  else PyInt 0.

Definition make_snapshot (now : Z) (st : agg) : snapshot :=
  mkSnap now
         (global_ratio st)
         (py_round (total_long st) 2)
         (py_round (total_short st) 2)
         (loaded st)
         (firstn COIN_CAP (sorted_coins st)).

(** Lines 73 to 133 of [take_snapshot]: from the fetch results of the
    leaderboard traders, in order, to [snap].  [now] is
    [int(time.time() * 1000)]. *)
Definition aggregate (now : Z) (results : list fetch_result) : snapshot :=
  make_snapshot now (run_traders results).

(** ** The data layer *)

(** What a call gives: a value, or an exception that leaves it. *)
Inductive outcome (A : Type) : Type :=
| Returned (a : A)
| Raised.
Arguments Returned {A} a.
Arguments Raised {A}.

(** The file [DATA_FILE]: absent; at a path that cannot be examined
    ([stat] fails with an error other than the ones that mean no such
    file, as it does below a directory that may not be searched); a
    directory; a file whose bytes [read_text] cannot decode; or a file
    with a text. *)
Inductive file_state :=
| Missing
| Forbidden
| Directory
| Unreadable
| Content (text : string).

(** [Path(DATA_FILE).exists()]: [False] when there is no such file, and
    an error of [stat] other than that is raised. *)
Definition file_exists (f : file_state) : outcome bool :=
  match f with
  | Missing => Returned false
  | Forbidden => Raised
  | _ => Returned true
  end.

(** [p.read_text()] *)
Definition read_text (f : file_state) : outcome string :=
  match f with
  | Content text => Returned text
  | _ => Raised
  end.

(** [json.loads(p.read_text())] *)
Definition read_json (f : file_state) : outcome json :=
  match read_text f with
  | Returned text =>
      match loads text with
      | Some v => Returned v
      | None => Raised
      end
  | Raised => Raised
  end.

(** The test [p.exists()] stands before the [try]: what it raises
    leaves the function. *)
Definition load_snapshots (f : file_state) : outcome json :=
  match file_exists f with
  | Raised => Raised
  | Returned true =>
      match read_json f with
      | Returned v => Returned v
      | Raised => Returned (JList [])
      end
  | Returned false => Returned (JList [])
  end.

(** [Path(DATA_FILE).write_text(json.dumps(snaps, separators=(",", ":")))]
    once the write is complete. *)
Definition save_snapshots (snaps : json) (f : file_state) : file_state :=
  Content (dumps snaps).

(** [write_text] opens the file for writing, which empties it, and then
    writes the text front to back: while the call is under way the file
    holds the first [n] characters of the text, for some [n]. *)
Definition during_write (data : string) (n : nat) (f : file_state) : file_state :=
  Content (substring 0 n data).

(** What an atomic replacement would let a reader see instead: the
    prior file or the whole new text. *)
Definition atomic_replace_states (data : string) (f : file_state) (g : file_state) : Prop :=
  g = f \/ g = Content data.

(** What becomes of a write: it completes; the file cannot be opened
    for writing (no right to write, a medium that is read-only); or it
    breaks off after [n] characters (a full disk, a process that is
    killed). *)
Inductive write_fate :=
| Completes
| Refused
| Cut (n : nat).

(** A path at which a file can be opened. *)
Definition writable (f : file_state) : bool :=
  match f with
  | Forbidden | Directory => false
  | _ => true
  end.

(** [Path(DATA_FILE).write_text(data)] with its outcome: opening raises
    and leaves everything as it was, or the file is emptied and written
    as far as the write gets. *)
Definition write_text (data : string) (w : write_fate) (f : file_state) :
  outcome unit * file_state :=
  if writable f then
    match w with
    | Completes => (Returned tt, Content data)
    | Refused => (Raised, f)
    | Cut n => (Raised, during_write data n f)
    end
  else (Raised, f).

(** ** Retention *)

Definition MAX_SNAPS : nat := 48.

(** [l[-n:]]; [-0] is [0], so [l[-0:]] is all of [l]. *)
Definition last_n {A : Type} (n : nat) (l : list A) : list A :=
  match n with
  | O => l
  | _ => skipn (List.length l - n) l
  end.

(** [if len(snaps) > max: snaps = snaps[-max:]] *)
Definition retain {A : Type} (max : nat) (snaps : list A) : list A :=
  if max <? List.length snaps then last_n max snaps else snaps.

(** [snaps.append(snap)] and the trimming that follows. *)
Definition append_snapshot {A : Type} (max : nat) (snaps : list A) (snap : A) : list A :=
  retain max (snaps ++ [snap]).

(** ** The snapshot as the dictionary the code builds *)

Local Open Scope string_scope.

Definition pynum_json (x : pynum) : json :=
  match x with
  | PyInt z => JInt z
  | PyFloat f => JFloat f
  end.

Definition coin_json (s : coin_summary) : json :=
  JDict [("c", JStr (c s));
         ("r", JFloat (r s));
         ("t", JFloat (t s));
         ("lN", JFloat (lN s));
         ("sN", JFloat (sN s));
         ("lT", JInt (Z.of_nat (lT s)));
         ("sT", JInt (Z.of_nat (sT s)))].

Definition snapshot_json (s : snapshot) : json :=
  JDict [("ts", JInt (ts s));
         ("gR", pynum_json (gR s));
         ("tL", JFloat (tL s));
         ("tS", JFloat (tS s));
         ("traders", JInt (Z.of_nat (traders s)));
         ("coins", JList (map coin_json (coins s)))].

Definition history_json (h : list snapshot) : json :=
  JList (map snapshot_json h).

Local Close Scope string_scope.

(** ** [take_snapshot] *)

(** Lines 140 to 144: load, append, trim, save.  A stored document
    that is not a list has no [append]; [save_snapshots] meets the write
    fate [w], and what it raises leaves [take_snapshot]. *)
Definition store_snapshot (snap : json) (w : write_fate) (f : file_state) :
  outcome json * file_state :=
  match load_snapshots f with
  | Returned (JList snaps) =>
      let snaps' := append_snapshot MAX_SNAPS snaps snap in
      match write_text (dumps (JList snaps')) w f with
      | (Returned _, f') => (Returned (JList snaps'), f')
      | (Raised, f') => (Raised, f')
      end
  | _ => (Raised, f)
  end.

(** The whole function.  [leaderboard] is the outcome of
    [fetch_leaderboard()] with, for each trader, what fetching the
    positions gives; [now] is the clock in milliseconds; [w] is the fate
    of the write at the end. *)
Definition take_snapshot (leaderboard : outcome (list fetch_result)) (now : Z)
           (w : write_fate) (f : file_state) : outcome snapshot * file_state :=
  match leaderboard with
  | Raised => (Raised, f)
  | Returned results =>
      let snap := aggregate now results in
      match store_snapshot (snapshot_json snap) w f with
      | (Returned _, f') => (Returned snap, f')
      | (Raised, f') => (Raised, f')
      end
  end.

(** ** The two callers of [take_snapshot] *)

(** [cron_loop] runs in its own thread and the handler of
    [/api/snapshot/now] in the server's; both call [take_snapshot]
    directly.  A run [Pending] has been triggered; it aggregates
    ([Aggregated]), loads and appends ([Appended]) and saves
    ([Finished]); [Failed] is a run left by an exception. *)
Inductive run_state :=
| Pending (snap : json)
| Aggregated (snap : json)
| Appended (snaps : list json)
| Finished
| Failed.

Inductive thread := Cron | Handler.

Record system := mkSystem {
  data_file : file_state;
  cron : run_state;
  handler : run_state
}.

(** One step of a run against the shared file, for runs whose write
    completes. *)
Definition advance (st : run_state) (f : file_state) : run_state * file_state :=
  match st with
  | Pending snap => (Aggregated snap, f)
  | Aggregated snap =>
      match load_snapshots f with
      | Returned (JList snaps) => (Appended (append_snapshot MAX_SNAPS snaps snap), f)
      | _ => (Failed, f)
      end
  | Appended snaps => (Finished, save_snapshots (JList snaps) f)
  | Finished => (Finished, f)
  | Failed => (Failed, f)
  end.

(** The scheduler lets either thread take its next step. *)
Definition step (s : system) (who : thread) : system :=
  match who with
  | Cron =>
      let (st, f) := advance (cron s) (data_file s) in
      mkSystem f st (handler s)
  | Handler =>
      let (st, f) := advance (handler s) (data_file s) in
      mkSystem f (cron s) st
  end.

Definition run (schedule : list thread) (s : system) : system :=
  fold_left step schedule s.

(** A run is under way between its start and its end. *)
Definition in_progress (st : run_state) : bool :=
  match st with
  | Aggregated _ | Appended _ => true
  | _ => false
  end.

(** ** The records a batch contributes *)

(** A record that reached the accumulators: trader index, asset, signed
    size and notional value. *)
Record contribution := mkContribution {
  by_trader : nat;
  on_coin : string;
  size_of : float;
  notional : float
}.

(** The records of one answer that are read before the first exception,
    those with a zero notional value left out. *)
Fixpoint read_positions (i : nat) (aps : list asset_position) : list contribution :=
  match aps with
  | Some (mkPosition (Some sz) (Some val) oc) :: rest =>
      if feqb val fzero then read_positions i rest
      else match oc with
           | Some k => mkContribution i k sz val :: read_positions i rest
           | None => []
           end
  | _ => []
  end.

Definition contributions_of (i : nat) (res : fetch_result) : list contribution :=
  match res with
  | AssetPositions aps => read_positions i aps
  | _ => []
  end.

Fixpoint contributions_from (i : nat) (results : list fetch_result) : list contribution :=
  match results with
  | [] => []
  | res :: rest => contributions_of i res ++ contributions_from (S i) rest
  end.

Definition contributions (results : list fetch_result) : list contribution :=
  contributions_from 0 results.

Definition is_long (x : contribution) : bool := fltb fzero (size_of x).
Definition is_short (x : contribution) : bool := negb (is_long x).
Definition on_asset (k : string) (x : contribution) : bool := String.eqb k (on_coin x).

(** Sum in list order, starting from [0.0]: float addition is not
    associative, so the order is part of the meaning. *)
Definition fsum (l : list float) : float := fold_left fadd l fzero.

Definition side_total (side : contribution -> bool) (l : list contribution) : float :=
  fsum (map notional (filter side l)).

Definition asset_total (side : contribution -> bool) (k : string)
           (l : list contribution) : float :=
  side_total side (filter (on_asset k) l).

Definition record_count (side : contribution -> bool) (k : string)
           (l : list contribution) : nat :=
  List.length (filter side (filter (on_asset k) l)).

Definition distinct_traders (side : contribution -> bool) (k : string)
           (l : list contribution) : nat :=
  List.length (nodup Nat.eq_dec (map by_trader (filter side (filter (on_asset k) l)))).

(** Whether a fetch result makes the loop count the trader as loaded. *)
Definition answers (res : fetch_result) : bool :=
  match res with
  | AssetPositions aps => negb (snd (run_positions aps agg_init))
  | _ => false
  end.

(** ** Auxiliary notions for the accumulation loop *)

Definition keys (d : dict) : list string := map fst d.

Definition entry (k : string) (d : dict) : coin_acc :=
  match dict_get k d with Some a => a | None => fresh_acc end.

Definition apply_contribution (st : agg) (x : contribution) : agg :=
  accumulate (on_coin x) (size_of x) (notional x) st.

Definition apply_all (l : list contribution) (st : agg) : agg :=
  fold_left apply_contribution l st.

(** The part of the state that reaches the snapshot apart from the
    counters. *)
Definition sums (st : agg) : dict * float * float :=
  (coin_data st, total_long st, total_short st).

(** What one contribution does to the entry of its asset. *)
Definition bump (x : contribution) (a : coin_acc) : coin_acc :=
  if is_long x then add_long (notional x) a else add_short (notional x) a.

Definition bump_all (l : list contribution) (a : coin_acc) : coin_acc :=
  fold_left (fun a x => bump x a) l a.

(** The assets in the order in which the loop first meets them. *)
Definition note_coin (seen : list string) (k : string) : list string :=
  if existsb (String.eqb k) seen then seen else seen ++ [k].

Definition discovery_order (l : list contribution) : list string :=
  fold_left note_coin (map on_coin l) [].

(** An asset is kept by the finalisation when its two sums do not add up
    to zero. *)
Definition kept (l : list contribution) (k : string) : bool :=
  negb (feqb (fadd (asset_total is_long k l) (asset_total is_short k l)) fzero).

Definition single_sided (side : contribution -> bool) (k : string)
           (l : list contribution) : Prop :=
  NoDup (map by_trader (filter side (filter (on_asset k) l))).

(** The figures of asset [k] so far, long notional, short notional,
    long count and short count: those stored, or zeros when the asset has
    not been met. *)
Definition so_far (k : string) (st : agg) : float * float * nat * nat :=
  match dict_get k (coin_data st) with
  | Some a => (a_lN a, a_sN a, a_lT a, a_sT a)
  | None => (fzero, fzero, 0, 0)
  end.

(** From [st] to [st'] a record of asset [k] and value [val] was
    counted on the short side: the short total and the short notional of
    the asset grew by [val], its short count by one, and the long side,
    the other assets and the trader counters are as they were. *)
Definition counted_short (k : string) (val : float) (st st' : agg) : Prop :=
  let '(L, S0, nL, nS) := so_far k st in
  total_short st' = fadd (total_short st) val /\
  total_long st' = total_long st /\
  dict_mem k (coin_data st') = true /\
  so_far k st' = (L, fadd S0 val, nL, nS + 1) /\
  (forall k', k' <> k -> so_far k' st' = so_far k' st) /\
  loaded st' = loaded st /\ errors st' = errors st.

(** The same on the long side. *)
Definition counted_long (k : string) (val : float) (st st' : agg) : Prop :=
  let '(L, S0, nL, nS) := so_far k st in
  total_long st' = fadd (total_long st) val /\
  total_short st' = total_short st /\
  dict_mem k (coin_data st') = true /\
  so_far k st' = (fadd L val, S0, nL + 1, nS) /\
  (forall k', k' <> k -> so_far k' st' = so_far k' st) /\
  loaded st' = loaded st /\ errors st' = errors st.



(** ** Sample batches *)

(** A well-formed position entry with integral size and value. *)
Definition position_of (k : string) (sz val : Z) : asset_position :=
  Some (mkPosition (Some (of_Z sz)) (Some (of_Z val)) (Some k)).

(** The batch of the concrete scenario: A long 1000 BTC, B short 500 BTC. *)
Definition batch_AB : list fetch_result :=
  [AssetPositions [position_of "BTC" 1 1000];
   AssetPositions [position_of "BTC" (-1) 500]].

(** One trader holding two long BTC records. *)
Definition batch_twice : list fetch_result :=
  [AssetPositions [position_of "BTC" 1 1000; position_of "BTC" 2 500]].

Definition A_ok : fetch_result := AssetPositions [position_of "BTC" 1 1000].
Definition C_ok : fetch_result := AssetPositions [position_of "ETH" (-3) 500].

(** Two assets with the same total, ETH met before X, and a larger one:
    the larger comes first and the tie keeps ETH before X. *)
Definition batch_tie : list fetch_result :=
  [AssetPositions [position_of "ETH" 1 7; position_of "SOL" 0 2000;
                   position_of "X" 5 7]].


(** ** Documents that survive a round trip *)

Local Open Scope string_scope.

(** The digits of a decimal numeral. *)
Fixpoint all_digits (s : string) : bool :=
  match s with
  | EmptyString => true
  | String a s' => is_digit a && all_digits s'
  end.

(** The number a string of digits writes, after the [acc] already read. *)
Fixpoint dval_acc (s : string) (acc : N) : N :=
  match s with
  | EmptyString => acc
  | String a s' => dval_acc s' (10 * acc + (N_of_ascii a - 48))%N
  end.

Definition dval (s : string) : N := dval_acc s 0.

(** No digit comes first in [rest]. *)
Definition no_digit_next (rest : string) : Prop :=
  match rest with
  | EmptyString => True
  | String b _ => is_digit b = false
  end.

(** The estimate [float_repr] makes of the decimal exponent from the
    binary one [t] is not above it. *)
Definition estimate_ok (t : Z) : bool :=
  Qle_bool (10 ^ (t * 30103 / 100000 - 2)) (2 ^ t).

(** What may follow a number without changing how it is read. *)
Definition delimited (rest : string) : Prop :=
  match rest with
  | "" => True
  | String a _ =>
      is_digit a = false /\
      Ascii.eqb a "." = false /\
      Ascii.eqb a "e" = false /\ Ascii.eqb a "E" = false /\
      Ascii.eqb a "-" = false /\ Ascii.eqb a "+" = false
  end.

(** A value of Python's [float] other than NaN: the encoding is the
    one binary64 has for the value, a mantissa of 53 bits or else the
    least exponent; NaN is left out because it differs from itself. *)
Definition float_ok (x : float) : bool :=
  negb (is_nan x) && valid_binary prec emax x.

Fixpoint unique_keys (ks : list string) : bool :=
  match ks with
  | [] => true
  | k :: ks' => negb (existsb (String.eqb k) ks') && unique_keys ks'
  end.

(** A document whose floats are fine and whose dictionaries hold each
    key once, as Python dictionaries do. *)
Fixpoint valid_json (v : json) : bool :=
  match v with
  | JFloat x => float_ok x
  | JList l => forallb valid_json l
  | JDict d =>
      unique_keys (map fst d) && forallb (fun kv => valid_json (snd kv)) d
  | _ => true
  end.

(** [v] is read back from its encoding, whatever delimiter follows. *)
Definition reads_back (v : json) : Prop :=
  forall fuel rest,
    String.length (dumps v) < fuel ->
    delimited rest ->
    scan_once fuel (dumps v ++ rest) = Some (v, rest).

Definition pynum_ok (x : pynum) : bool :=
  match x with
  | PyInt _ => true
  | PyFloat f => float_ok f
  end.

Definition coin_ok (s : coin_summary) : bool :=
  float_ok (r s) && float_ok (t s) && float_ok (lN s) && float_ok (sN s).

Definition snapshot_ok (s : snapshot) : bool :=
  pynum_ok (gR s) && float_ok (tL s) && float_ok (tS s) &&
  forallb coin_ok (coins s).

(** [int()] refuses a numeral of more than 4300 digits, and [str()],
    which [json.dumps] calls, an integer that needs more. *)
Definition MAX_INT_DIGITS : nat := 4300.

(** A depth of nesting far below the recursion limit of the
    interpreter. *)
Definition SAFE_DEPTH : nat := 100.

Fixpoint depth (v : json) : nat :=
  match v with
  | JList l => S (list_max (map depth l))
  | JDict d => S (list_max (map (fun kv => depth (snd kv)) d))
  | _ => 0
  end.

Fixpoint ints_small (v : json) : bool :=
  match v with
  | JInt z => (String.length (int_repr (Z.abs z)) <=? MAX_INT_DIGITS)%nat
  | JList l => forallb ints_small l
  | JDict d => forallb (fun kv => ints_small (snd kv)) d
  | _ => true
  end.

(** A document [json.loads] reads wherever the decoder of this model
    does: no integer beyond the limit of [int()], no nesting near the
    recursion limit. *)
Definition small_document (v : json) : bool :=
  (depth v <=? SAFE_DEPTH)%nat && ints_small v.

(** A valid history: a list of snapshots whose floats are binary64
    values other than NaN and whose integers [json.dumps] can write. *)
Definition valid_history (h : list snapshot) : bool :=
  forallb snapshot_ok h && ints_small (history_json h).

(** No number of the snapshot is NaN. *)
Definition pynum_numeric (x : pynum) : bool :=
  match x with
  | PyInt _ => true
  | PyFloat f => negb (is_nan f)
  end.

Definition coin_numeric (s : coin_summary) : bool :=
  negb (is_nan (r s)) && negb (is_nan (t s)) &&
  negb (is_nan (lN s)) && negb (is_nan (sN s)).

Definition snapshot_numeric (s : snapshot) : bool :=
  pynum_numeric (gR s) && negb (is_nan (tL s)) && negb (is_nan (tS s)) &&
  forallb coin_numeric (coins s).

(** ** Texts and documents within the reach of the model *)

(** Every [\u] of the text is followed by [00]: no escape names a code
    point from 256 on, which the decoder of this model refuses and
    [json.loads] reads. *)
Fixpoint narrow_escapes (s : string) : bool :=
  match s with
  | "" => true
  | String a s1 =>
      (if Ascii.eqb a bslash then
         match s1 with
         | String u (String h1 (String h2 _)) =>
             negb (Ascii.eqb u "u") || (Ascii.eqb h1 "0" && Ascii.eqb h2 "0")
         | String u _ => negb (Ascii.eqb u "u")
         | "" => true
         end
       else true) && narrow_escapes s1
  end.

(** The text of the data file is one that [json.loads] and the decoder
    of this model treat alike: where it does not parse it has no escape
    of a code point from 256 on, and where it parses the document is
    small. *)
Definition within_reach (f : file_state) : bool :=
  match f with
  | Content text =>
      match loads text with
      | Some v => small_document v
      | None => narrow_escapes text
      end
  | _ => true
  end.

(** ** Sample documents *)

Definition history_2 : list snapshot :=
  [aggregate 1700000000000 batch_AB; aggregate 1700014400000 batch_tie].

Definition snap_a : json := snapshot_json (aggregate 1 [A_ok]).
Definition snap_b : json := snapshot_json (aggregate 2 [C_ok]).

(** Both runs triggered, the file holding an empty history. *)
Definition both_triggered : system :=
  mkSystem (Content "[]") (Pending snap_a) (Pending snap_b).

Local Close Scope string_scope.

(** ** The leaderboard *)

Definition TOP_N : nat := 100.

(** A row of [data["leaderboardRows"]]: [float(x["accountValue"])],
    [None] when the key is missing or the text is no number, and what
    [fetch_positions(trader["ethAddress"])] gives for the row in the
    loop of [take_snapshot] ([FetchRaises] also when the row has no
    [ethAddress]). *)
Record row := mkRow {
  accountValue : option float;
  fetched : fetch_result
}.

(** The keys [list.sort] computes before it sorts; a key that raises
    ends the call with the list as it was. *)
Fixpoint sort_keys (rows : list row) : option (list (float * row)) :=
  match rows with
  | [] => Some []
  | x :: rows' =>
      match accountValue x, sort_keys rows' with
      | Some v, Some keyed => Some ((v, x) :: keyed)
      | _, _ => None
      end
  end.

(** The sort key of a row whose account value reads as a number. *)
Definition account_key (x : row) : float :=
  match accountValue x with
  | Some v => v
  | None => fzero
  end.

(** Every account value reads as a number that is not NaN. *)
Definition ranked_rows (rows : list row) : bool :=
  forallb (fun x => match accountValue x with
                    | Some v => negb (is_nan v)
                    | None => false
                    end) rows.

(** [fetch_leaderboard].  [answer] is what [hl_get(HL_LB)] gives:
    an exception, or the document with its [leaderboardRows] when it has
    that key. *)
Definition fetch_leaderboard (answer : outcome (option (list row))) : outcome (list row) :=
  match answer with
  | Returned (Some rows) =>
      match sort_keys rows with
      | Some keyed => Returned (firstn TOP_N (map snd (py_sort_desc fst keyed)))
      | None => Raised
      end
  | _ => Raised
  end.

(** The first lines of [take_snapshot]: the fetch results of the traders
    the loop goes through, in order. *)
Definition leaderboard_results (answer : outcome (option (list row))) :
  outcome (list fetch_result) :=
  match fetch_leaderboard answer with
  | Returned rows => Returned (map fetched rows)
  | Raised => Raised
  end.

(** ** The timer loop *)

(** What one turn of [cron_loop] meets: the outcome of the leaderboard
    fetch, the clock, and the fate of the write. *)
Record turn := mkTurn {
  board : outcome (list fetch_result);
  clock : Z;
  fate : write_fate
}.

(** One turn of [cron_loop]: [take_snapshot] inside [try], an exception
    printed and dropped. *)
Definition cron_turn (f : file_state) (t : turn) : file_state :=
  snd (take_snapshot (board t) (clock t) (fate t) f).

(** The file after the turns of [cron_loop] so far. *)
Definition cron_loop (turns : list turn) (f : file_state) : file_state :=
  fold_left cron_turn turns f.

(** A stored document that is a list, the only kind [append] works on. *)
Definition is_list (v : json) : bool :=
  match v with
  | JList _ => true
  | _ => false
  end.

(** A turn whose write breaks off. *)
Definition is_cut (t : turn) : bool :=
  match fate t with
  | Cut _ => true
  | _ => false
  end.

(** The snapshots of the turns that went through: the leaderboard was
    fetched and the write completed. *)
Fixpoint snapshots_of (turns : list turn) : list json :=
  match turns with
  | [] => []
  | t :: rest =>
      match board t, fate t with
      | Returned results, Completes =>
          snapshot_json (aggregate (clock t) results) :: snapshots_of rest
      | _, _ => snapshots_of rest
      end
  end.

(** No number of the snapshot a turn builds is NaN. *)
Definition turn_numeric (t : turn) : bool :=
  match board t with
  | Returned results => snapshot_numeric (aggregate (clock t) results)
  | Raised => true
  end.

(** ** The HTTP handler *)

Local Open Scope string_scope.

(** [json.dumps(obj)] with the default separators, a comma and a space
    between items, a colon and a space after a key. *)
Fixpoint dumps_sep (item_sep key_sep : string) (v : json) : string :=
  match v with
  | JNull => "null"
  | JBool b => if b then "true" else "false"
  | JInt z => int_repr z
  | JFloat x => floatstr x
  | JStr s => encode_basestring_ascii s
  | JList l => "[" ++ concat item_sep (map (dumps_sep item_sep key_sep) l) ++ "]"
  | JDict d =>
      "{" ++ concat item_sep
                    (map (fun kv => encode_basestring_ascii (fst kv) ++ key_sep ++
                                    dumps_sep item_sep key_sep (snd kv)) d) ++ "}"
  end.

Definition dumps_default (v : json) : string := dumps_sep ", " ": " v.

(** An item of a dictionary as [dumps_default] writes it. *)
Definition default_item (kv : string * json) : string :=
  encode_basestring_ascii (fst kv) ++ ": " ++ dumps_default (snd kv).

(** [v] is read back from its encoding with the default separators,
    whatever delimiter follows. *)
Definition default_reads_back (v : json) : Prop :=
  forall fuel rest,
    String.length (dumps_default v) < fuel ->
    delimited rest ->
    scan_once fuel (dumps_default v ++ rest) = Some (v, rest).

(** What the handler sends: status line, headers, body.  The bodies
    built by [json.dumps] are ASCII, so [.encode()] keeps their length. *)
Record response := mkResponse {
  status : nat;
  headers : list (string * string);
  body : string
}.

(** [str(len(data))] *)
Definition content_length (data : string) : string :=
  int_repr (Z.of_nat (String.length data)).

(** The headers [send_response] puts before every other: the version
    of the server and the date.  (A request in the form of HTTP/0.9,
    which has no headers of its own, is answered with the body alone;
    the requests meant here are those of HTTP/1.0 and later.) *)
Definition send_response (server date : string) : list (string * string) :=
  [("Server", server); ("Date", date)].

(** [Handler.do_GET].  [path] is [self.path]; [leaderboard], [now] and
    [w] are what a call of [take_snapshot] would meet, [message] the text
    of the exception if it raises, [html] the page [get_html()] returns,
    [server] and [date] what [version_string()] and [date_time_string()]
    give.  Only the on-demand branch has a [try]: [Raised] is an
    exception that leaves the handler before anything is sent. *)
Definition do_GET (path : string) (leaderboard : outcome (list fetch_result))
           (now : Z) (w : write_fate) (message html server date : string)
           (f : file_state) : outcome response * file_state :=
  if String.eqb path "/api/snapshots" then
    match load_snapshots f with
    | Returned snaps =>
        let data := dumps_default snaps in
        (Returned (mkResponse 200
                              (send_response server date ++
                               [("Content-Type", "application/json");
                                ("Access-Control-Allow-Origin", "*");
                                ("Content-Length", content_length data)])
                              data), f)
    | Raised => (Raised, f)
    end
  else if String.eqb path "/api/snapshot/now" then
    match take_snapshot leaderboard now w f with
    | (Returned snap, f') =>
        (Returned (mkResponse 200
                              (send_response server date ++
                               [("Content-Type", "application/json");
                                ("Access-Control-Allow-Origin", "*")])
                              (dumps_default (snapshot_json snap))), f')
    | (Raised, f') =>
        (Returned (mkResponse 500
                              (send_response server date ++
                               [("Content-Type", "application/json")])
                              (dumps_default (JDict [("error", JStr message)]))), f')
    end
  else if String.eqb path "/" || String.eqb path "/index.html" then
    (Returned (mkResponse 200
                          (send_response server date ++ [("Content-Type", "text/html")])
                          html), f)
  else
    (Returned (mkResponse 404 (send_response server date) ""), f).

Local Close Scope string_scope.

(** ** Further notions for the accumulation loop *)

(** The fetch results the loop counts as errors. *)
Definition fails (res : fetch_result) : bool :=
  match res with
  | FetchRaises => true
  | NoAssetPositions => false
  | AssetPositions aps => snd (run_positions aps agg_init)
  end.

(** The fetch results the loop passes over with [continue]. *)
Definition is_skipped (res : fetch_result) : bool :=
  match res with
  | NoAssetPositions => true
  | _ => false
  end.

(** * Facts about the program *)

(** ** Facts about the dictionary operations *)

Lemma dict_get_app_last k k' v d :
  dict_get k (d ++ [(k', v)]) =
  match dict_get k d with
  | Some a => Some a
  | None => if String.eqb k k' then Some v else None
  end.
Proof.
  induction d as [|[k0 v0] d IH]; simpl.
  - reflexivity.
  - destruct (String.eqb k k0); [reflexivity | exact IH].
Qed.

Lemma dict_get_modify_same k f d :
  dict_get k (dict_modify k f d) = option_map f (dict_get k d).
Proof.
  induction d as [|[k0 v0] d IH]; simpl; [reflexivity|].
  destruct (String.eqb k k0) eqn:E; simpl; rewrite E; [reflexivity | exact IH].
Qed.

Lemma dict_get_modify_other k k' f d :
  String.eqb k k' = false -> dict_get k (dict_modify k' f d) = dict_get k d.
Proof.
  intros Hne.
  induction d as [|[k0 v0] d IH]; simpl; [reflexivity|].
  destruct (String.eqb k' k0) eqn:E; simpl.
  - apply String.eqb_eq in E; subst k0. now rewrite Hne.
  - destruct (String.eqb k k0); [reflexivity | exact IH].
Qed.

Lemma keys_modify k f d : keys (dict_modify k f d) = keys d.
Proof.
  induction d as [|[k0 v0] d IH]; simpl; [reflexivity|].
  destruct (String.eqb k k0); simpl; [reflexivity | now rewrite IH].
Qed.

Lemma dict_get_none_keys k d : dict_get k d = None <-> ~ In k (keys d).
Proof.
  induction d as [|[k0 v0] d IH]; simpl.
  - tauto.
  - destruct (String.eqb k k0) eqn:E.
    + apply String.eqb_eq in E. subst. split; [discriminate | tauto].
    + apply String.eqb_neq in E. rewrite IH. split.
      * intros H [H1|H1]; [congruence | tauto].
      * tauto.
Qed.

Lemma keys_setdefault k v d :
  keys (dict_setdefault k v d) = if dict_mem k d then keys d else keys d ++ [k].
Proof.
  unfold dict_setdefault. destruct (dict_mem k d); [reflexivity|].
  unfold keys. now rewrite map_app.
Qed.

Lemma nodup_keys_setdefault k v d :
  NoDup (keys d) -> NoDup (keys (dict_setdefault k v d)).
Proof.
  intros Hnd. rewrite keys_setdefault.
  unfold dict_mem. destruct (dict_get k d) eqn:E; [exact Hnd|].
  apply dict_get_none_keys in E.
  apply NoDup_rev in Hnd. rewrite <- (rev_involutive (keys d ++ [k])).
  apply NoDup_rev. rewrite rev_app_distr. simpl.
  constructor; [|exact Hnd]. now rewrite <- in_rev.
Qed.

Lemma dict_get_in k a d : NoDup (keys d) -> In (k, a) d -> dict_get k d = Some a.
Proof.
  induction d as [|[k0 v0] d IH]; simpl; intros Hnd Hin; [contradiction|].
  inversion Hnd as [|? ? Hnotin Hnd']; subst.
  destruct Hin as [Heq|Hin].
  - inversion Heq; subst. now rewrite String.eqb_refl.
  - destruct (String.eqb k k0) eqn:E.
    + apply String.eqb_eq in E. subst k0. exfalso. apply Hnotin.
      change k with (fst (k, a)). now apply in_map.
    + now apply IH.
Qed.

(** ** The loop as a fold over the contributions *)

Lemma run_positions_fold i aps st :
  fst (run_positions aps st) = apply_all (read_positions i aps) st.
Proof.
  revert st. induction aps as [|ap rest IH]; intros st; simpl; [reflexivity|].
  destruct ap as [[[sz|] [val|] oc]|]; simpl; try reflexivity.
  destruct (feqb val fzero); [apply IH|].
  destruct oc as [k|]; simpl; [|reflexivity].
  apply IH.
Qed.

Lemma accumulate_sums k sz val st st' :
  sums st = sums st' -> sums (accumulate k sz val st) = sums (accumulate k sz val st').
Proof.
  unfold sums, accumulate. intros H. inversion H as [[H1 H2 H3]].
  rewrite H1, H2, H3. destruct (fltb fzero sz); reflexivity.
Qed.

Lemma apply_all_sums l : forall st st',
  sums st = sums st' -> sums (apply_all l st) = sums (apply_all l st').
Proof.
  induction l as [|x l IH]; intros st st' H; simpl; [exact H|].
  apply IH. now apply accumulate_sums.
Qed.

Lemma step_trader_sums i st res :
  sums (step_trader st res) = sums (apply_all (contributions_of i res) st).
Proof.
  destruct res as [| |aps]; simpl; try reflexivity.
  pose proof (run_positions_fold i aps st) as H.
  destruct (run_positions aps st) as [st' raised]. simpl in H. subst st'.
  destruct raised; reflexivity.
Qed.

Lemma fold_step_trader_sums results : forall i st,
  sums (fold_left step_trader results st) =
  sums (apply_all (contributions_from i results) st).
Proof.
  induction results as [|res rest IH]; intros i st; simpl; [reflexivity|].
  unfold apply_all. rewrite fold_left_app. fold (apply_all (contributions_of i res) st).
  rewrite (IH (S i)). apply apply_all_sums. apply step_trader_sums.
Qed.

Lemma run_traders_sums results :
  sums (run_traders results) = sums (apply_all (contributions results) agg_init).
Proof. apply fold_step_trader_sums. Qed.

(** ** The accumulators in terms of the contributions *)

Lemma total_long_apply_all l : forall st,
  total_long (apply_all l st) =
  fold_left fadd (map notional (filter is_long l)) (total_long st).
Proof.
  induction l as [|x l IH]; intros st; simpl; [reflexivity|].
  rewrite IH. unfold apply_contribution, accumulate, is_long.
  destruct (fltb fzero (size_of x)); reflexivity.
Qed.

Lemma total_short_apply_all l : forall st,
  total_short (apply_all l st) =
  fold_left fadd (map notional (filter is_short l)) (total_short st).
Proof.
  induction l as [|x l IH]; intros st; simpl; [reflexivity|].
  rewrite IH. unfold apply_contribution, accumulate, is_short, is_long.
  destruct (fltb fzero (size_of x)); reflexivity.
Qed.

Lemma dict_get_setdefault k v d :
  dict_get k (dict_setdefault k v d) = Some (match dict_get k d with Some a => a | None => v end).
Proof.
  unfold dict_setdefault, dict_mem.
  destruct (dict_get k d) eqn:E; [exact E|].
  rewrite dict_get_app_last, E. now rewrite String.eqb_refl.
Qed.

Lemma dict_get_setdefault_other k k' v d :
  String.eqb k k' = false -> dict_get k (dict_setdefault k' v d) = dict_get k d.
Proof.
  intros Hne. unfold dict_setdefault. destruct (dict_mem k' d); [reflexivity|].
  rewrite dict_get_app_last, Hne. now destruct (dict_get k d).
Qed.

Lemma dict_get_apply_contribution k x st :
  dict_get k (coin_data (apply_contribution st x)) =
  if on_asset k x then Some (bump x (entry k (coin_data st)))
  else dict_get k (coin_data st).
Proof.
  unfold apply_contribution, accumulate, on_asset, bump, is_long, entry.
  destruct (String.eqb k (on_coin x)) eqn:E.
  - apply String.eqb_eq in E. subst k.
    destruct (fltb fzero (size_of x)); simpl;
      now rewrite dict_get_modify_same, dict_get_setdefault.
  - destruct (fltb fzero (size_of x)); simpl;
      now rewrite dict_get_modify_other, dict_get_setdefault_other.
Qed.

Lemma dict_get_apply_all k l : forall st,
  dict_get k (coin_data (apply_all l st)) =
  match filter (on_asset k) l with
  | [] => dict_get k (coin_data st)
  | lk => Some (bump_all lk (entry k (coin_data st)))
  end.
Proof.
  induction l as [|x l IH]; intros st; simpl; [reflexivity|].
  rewrite IH. unfold entry at 1.
  rewrite dict_get_apply_contribution.
  destruct (on_asset k x); simpl.
  - now destruct (filter (on_asset k) l).
  - reflexivity.
Qed.

Lemma bump_all_lN l : forall a,
  a_lN (bump_all l a) = fold_left fadd (map notional (filter is_long l)) (a_lN a).
Proof.
  induction l as [|x l IH]; intros a; simpl; [reflexivity|].
  rewrite IH. unfold bump. now destruct (is_long x).
Qed.

Lemma bump_all_sN l : forall a,
  a_sN (bump_all l a) = fold_left fadd (map notional (filter is_short l)) (a_sN a).
Proof.
  induction l as [|x l IH]; intros a; simpl; [reflexivity|].
  rewrite IH. unfold bump, is_short. now destruct (is_long x).
Qed.

Lemma bump_all_lT l : forall a,
  a_lT (bump_all l a) = a_lT a + List.length (filter is_long l).
Proof.
  induction l as [|x l IH]; intros a; simpl; [lia|].
  rewrite IH. unfold bump. destruct (is_long x); simpl; lia.
Qed.

Lemma bump_all_sT l : forall a,
  a_sT (bump_all l a) = a_sT a + List.length (filter is_short l).
Proof.
  induction l as [|x l IH]; intros a; simpl; [lia|].
  rewrite IH. unfold bump, is_short. destruct (is_long x); simpl; lia.
Qed.

Lemma nodup_keys_apply_all l : forall st,
  NoDup (keys (coin_data st)) -> NoDup (keys (coin_data (apply_all l st))).
Proof.
  induction l as [|x l IH]; intros st H; simpl; [exact H|].
  apply IH. unfold apply_contribution, accumulate.
  destruct (fltb fzero (size_of x)); simpl; rewrite keys_modify;
    now apply nodup_keys_setdefault.
Qed.

(** The entry of asset [k] once the whole batch went through the loop. *)
Lemma coin_data_entry results k a :
  In (k, a) (coin_data (run_traders results)) ->
  let l := contributions results in
  a_lN a = asset_total is_long k l /\
  a_sN a = asset_total is_short k l /\
  a_lT a = record_count is_long k l /\
  a_sT a = record_count is_short k l.
Proof.
  intros Hin l.
  pose proof (run_traders_sums results) as Hs. unfold sums in Hs.
  inversion Hs as [[Hcd Htl Hts]]. clear Hs Htl Hts.
  rewrite Hcd in Hin. fold l in Hin.
  apply dict_get_in in Hin; [|apply nodup_keys_apply_all; constructor].
  rewrite dict_get_apply_all in Hin.
  unfold asset_total, side_total, record_count, fsum.
  destruct (filter (on_asset k) l) as [|x lk] eqn:E; [discriminate|].
  injection Hin as Ha.
  change (bump_all (x :: lk) fresh_acc = a) in Ha. rewrite <- Ha.
  rewrite bump_all_lN, bump_all_sN, bump_all_lT, bump_all_sT.
  repeat split.
Qed.

(** ** The order of binary64 values *)

Ltac cmp_cases :=
  repeat match goal with
  | |- context [Z.compare ?a ?b] => destruct (Z.compare_spec a b)
  | H : context [Z.compare ?a ?b] |- _ => destruct (Z.compare_spec a b)
  | |- context [Pos.compare_cont Eq ?a ?b] =>
      change (Pos.compare_cont Eq a b) with (Pos.compare a b);
      destruct (Pos.compare_spec a b)
  | H : context [Pos.compare_cont Eq ?a ?b] |- _ =>
      change (Pos.compare_cont Eq a b) with (Pos.compare a b) in H;
      destruct (Pos.compare_spec a b)
  end.

Ltac float_order :=
  unfold fltb, feqb, SFltb, SFeqb, SFcompare;
  repeat match goal with
  | x : float |- _ => destruct x as [[]|[]| |[] ? ?]
  end;
  simpl; intros; try discriminate; try reflexivity; auto;
  cmp_cases; subst; simpl in *; try discriminate; try reflexivity; auto; try lia.

Lemma fltb_asym (a b : float) : fltb a b = true -> fltb b a = false.
Proof. float_order. Qed.

Lemma fltb_neg_trans (x y z : float) :
  is_nan y = false -> fltb z y = false -> fltb y x = false -> fltb z x = false.
Proof. float_order. Qed.

Lemma feqb_not_fltb (a b k : float) :
  feqb a k = true -> feqb b k = true -> fltb a b = false.
Proof. float_order. Qed.

Lemma feqb_zero_not_pos (x : float) : feqb x fzero = true -> fltb fzero x = false.
Proof. unfold fzero. float_order. Qed.

(** ** The sort *)

Section PySortFacts.
Context {A : Type}.
Variable key : A -> float.

Lemma Forall_perm (P : A -> Prop) l l' :
  Permutation l l' -> Forall P l -> Forall P l'.
Proof.
  intros Hp H. rewrite Forall_forall in *. intros x Hx. apply H.
  apply (Permutation_in x (Permutation_sym Hp) Hx).
Qed.

Lemma insert_asc_perm x l : Permutation (insert_asc key x l) (x :: l).
Proof.
  induction l as [|y l IH]; simpl; [reflexivity|].
  destruct (fltb (key y) (key x)); [|reflexivity].
  rewrite IH. apply perm_swap.
Qed.

Lemma sort_asc_perm l : Permutation (sort_asc key l) l.
Proof.
  induction l as [|x l IH]; simpl; [reflexivity|].
  rewrite insert_asc_perm. now constructor.
Qed.

Lemma py_sort_desc_perm l : Permutation (py_sort_desc key l) l.
Proof.
  unfold py_sort_desc.
  rewrite <- Permutation_rev, sort_asc_perm. symmetry. apply Permutation_rev.
Qed.

Lemma insert_asc_sorted x l :
  numeric_keys key l ->
  StronglySorted (not_above key) l -> StronglySorted (not_above key) (insert_asc key x l).
Proof.
  intros Hnum Hs. induction Hs as [|y l Hs IH Hall]; simpl.
  - repeat constructor.
  - inversion Hnum as [|? ? Hy Hl]; subst.
    destruct (fltb (key y) (key x)) eqn:E.
    + constructor; [now apply IH|].
      apply (Forall_perm _ (x :: l)); [symmetry; apply insert_asc_perm|].
      constructor; [|exact Hall].
      unfold not_above. now apply fltb_asym.
    + constructor; [now constructor|].
      constructor; [exact E|].
      rewrite Forall_forall in *. intros z Hz.
      unfold not_above in *.
      apply fltb_neg_trans with (y := key y); auto.
Qed.

Lemma sort_asc_sorted l :
  numeric_keys key l -> StronglySorted (not_above key) (sort_asc key l).
Proof.
  intros Hnum. induction l as [|x l IH]; simpl; [constructor|].
  inversion Hnum; subst.
  apply insert_asc_sorted; [|now apply IH].
  apply (Forall_perm _ l); [symmetry; apply sort_asc_perm | assumption].
Qed.

Lemma sorted_snoc (R : A -> A -> Prop) l x :
  StronglySorted R l -> Forall (fun y => R y x) l -> StronglySorted R (l ++ [x]).
Proof.
  intros Hs. induction Hs as [|y l Hs IH Hall]; simpl; intros Hx.
  - repeat constructor.
  - inversion Hx; subst. constructor; [now apply IH|].
    apply Forall_app. split; [exact Hall | now constructor].
Qed.

Lemma sorted_rev l :
  StronglySorted (not_above key) l -> StronglySorted (not_below key) (rev l).
Proof.
  intros Hs. induction Hs as [|y l Hs IH Hall]; simpl; [constructor|].
  apply sorted_snoc; [exact IH|].
  apply Forall_rev. exact Hall.
Qed.

Lemma py_sort_desc_sorted l :
  numeric_keys key l -> StronglySorted (not_below key) (py_sort_desc key l).
Proof.
  intros Hnum. apply sorted_rev, sort_asc_sorted. now apply Forall_rev.
Qed.


(** Stability: the elements whose key equals [k] keep their order. *)
Variable k : float.

Lemma filter_insert_asc x l :
  filter (tied key k) (insert_asc key x l) = filter (tied key k) (x :: l).
Proof.
  induction l as [|y l IH]; [reflexivity|].
  simpl insert_asc. destruct (fltb (key y) (key x)) eqn:E; [|reflexivity].
  simpl filter at 1. rewrite IH. simpl.
  destruct (tied key k y) eqn:Ey, (tied key k x) eqn:Ex; try reflexivity.
  unfold tied in *. rewrite (feqb_not_fltb _ _ _ Ey Ex) in E. discriminate.
Qed.

Lemma filter_sort_asc l : filter (tied key k) (sort_asc key l) = filter (tied key k) l.
Proof.
  induction l as [|x l IH]; [reflexivity|].
  simpl sort_asc. rewrite filter_insert_asc. simpl. now rewrite IH.
Qed.

Lemma filter_py_sort_desc l : filter (tied key k) (py_sort_desc key l) = filter (tied key k) l.
Proof.
  unfold py_sort_desc.
  rewrite filter_rev, filter_sort_asc, filter_rev. apply rev_involutive.
Qed.
End PySortFacts.

Lemma sorted_app_order {A : Type} (R : A -> A -> Prop) (l1 l2 : list A) :
  StronglySorted R (l1 ++ l2) ->
  forall a b, In a l1 -> In b l2 -> R a b.
Proof.
  induction l1 as [|x l1 IH]; intros Hs a b Ha Hb; [destruct Ha|].
  simpl in Hs. apply StronglySorted_inv in Hs. destruct Hs as [Hs Hall].
  destruct Ha as [->|Ha].
  - rewrite Forall_forall in Hall. apply Hall, in_or_app. now right.
  - now apply IH.
Qed.

Lemma in_firstn {A : Type} (x : A) n l : In x (firstn n l) -> In x l.
Proof.
  intros H. rewrite <- (firstn_skipn n l). apply in_or_app. now left.
Qed.

Lemma in_build_coins s cd :
  In s (build_coins cd) -> exists k a, In (k, a) cd /\ summarize (k, a) = Some s.
Proof.
  induction cd as [|[k a] cd IH]; cbn [build_coins]; [intros []|].
  destruct (summarize (k, a)) as [s'|] eqn:E.
  - intros [Heq|Hin].
    + subst s'. exists k, a. split; [now left | exact E].
    + destruct (IH Hin) as (k' & a' & H1 & H2). exists k', a'.
      split; [now right | exact H2].
  - intros Hin. destruct (IH Hin) as (k' & a' & H1 & H2). exists k', a'.
    split; [now right | exact H2].
Qed.

Lemma in_coins_entry now results s :
  In s (coins (aggregate now results)) ->
  exists a, In (c s, a) (coin_data (run_traders results)) /\
            summarize (c s, a) = Some s.
Proof.
  change (coins (aggregate now results))
    with (firstn COIN_CAP (sorted_coins (run_traders results))).
  unfold sorted_coins. intros Hin.
  apply in_firstn in Hin.
  apply (Permutation_in _ (py_sort_desc_perm t _)) in Hin.
  apply in_build_coins in Hin. destruct Hin as (k & a & Hin & Hs).
  assert (c s = k) as ->.
  { unfold summarize in Hs. destruct (feqb _ _); [discriminate|].
    now inversion Hs. }
  now exists a.
Qed.

(** ** Discovery order *)

Lemma dict_mem_keys k d : dict_mem k d = existsb (String.eqb k) (keys d).
Proof.
  unfold dict_mem. induction d as [|[k0 v0] d IH]; simpl; [reflexivity|].
  destruct (String.eqb k k0); [reflexivity | exact IH].
Qed.

Lemma keys_apply_all l : forall st,
  keys (coin_data (apply_all l st)) =
  fold_left note_coin (map on_coin l) (keys (coin_data st)).
Proof.
  induction l as [|x l IH]; intros st; simpl; [reflexivity|].
  rewrite IH. f_equal.
  unfold apply_contribution, accumulate, note_coin.
  destruct (fltb fzero (size_of x)); simpl;
    now rewrite keys_modify, keys_setdefault, dict_mem_keys.
Qed.

Lemma keys_run_traders results :
  keys (coin_data (run_traders results)) = discovery_order (contributions results).
Proof.
  pose proof (run_traders_sums results) as Hs. unfold sums in Hs.
  injection Hs as Hcd _ _. rewrite Hcd. apply keys_apply_all.
Qed.

Lemma nodup_keys_run_traders results :
  NoDup (keys (coin_data (run_traders results))).
Proof.
  pose proof (run_traders_sums results) as Hs. unfold sums in Hs.
  injection Hs as Hcd _ _. rewrite Hcd.
  apply nodup_keys_apply_all. constructor.
Qed.

Lemma map_c_build_coins cd :
  map c (build_coins cd) =
  map fst (filter (fun kv => negb (feqb (fadd (a_lN (snd kv)) (a_sN (snd kv))) fzero)) cd).
Proof.
  induction cd as [|[k a] cd IH]; [reflexivity|].
  cbn [build_coins filter summarize snd].
  destruct (feqb (fadd (a_lN a) (a_sN a)) fzero); simpl; now rewrite IH.
Qed.

Lemma map_fst_filter {A B : Type} (p : A -> bool) (l : list (A * B)) :
  map fst (filter (fun kv => p (fst kv)) l) = filter p (map fst l).
Proof.
  induction l as [|[a b] l IH]; simpl; [reflexivity|].
  destruct (p a); simpl; now rewrite IH.
Qed.

Lemma names_in_discovery_order results :
  map c (build_coins (coin_data (run_traders results))) =
  filter (kept (contributions results)) (discovery_order (contributions results)).
Proof.
  rewrite map_c_build_coins, <- keys_run_traders.
  unfold keys. rewrite <- map_fst_filter. f_equal.
  apply filter_ext_in. intros [k a] Hin. simpl.
  destruct (coin_data_entry results k a Hin) as (H1 & H2 & _).
  unfold kept. now rewrite H1, H2.
Qed.

(** ** The error counter does not reach the snapshot *)

Lemma accumulate_count_error k sz val st :
  accumulate k sz val (count_error st) = count_error (accumulate k sz val st).
Proof. unfold accumulate. simpl. now destruct (fltb fzero sz). Qed.

Lemma step_position_count_error ap st :
  step_position ap (count_error st) = option_map count_error (step_position ap st).
Proof.
  destruct ap as [[[sz|] [val|] [k|]]|]; simpl; try reflexivity;
    destruct (feqb val fzero); try reflexivity.
  now rewrite accumulate_count_error.
Qed.

Lemma run_positions_count_error aps : forall st,
  run_positions aps (count_error st) =
  (count_error (fst (run_positions aps st)), snd (run_positions aps st)).
Proof.
  induction aps as [|ap rest IH]; intros st; simpl; [reflexivity|].
  rewrite step_position_count_error.
  destruct (step_position ap st) as [st'|]; simpl; [apply IH | reflexivity].
Qed.

Lemma step_trader_count_error st res :
  step_trader (count_error st) res = count_error (step_trader st res).
Proof.
  destruct res as [| |aps]; simpl; try reflexivity.
  rewrite run_positions_count_error.
  destruct (run_positions aps st) as [st' raised]. simpl.
  now destruct raised.
Qed.

Lemma fold_step_trader_count_error l : forall st,
  fold_left step_trader l (count_error st) = count_error (fold_left step_trader l st).
Proof.
  induction l as [|res l IH]; intros st; simpl; [reflexivity|].
  now rewrite step_trader_count_error, IH.
Qed.

Lemma run_traders_skip_raise xs ys :
  run_traders (xs ++ FetchRaises :: ys) = count_error (run_traders (xs ++ ys)).
Proof.
  unfold run_traders. rewrite !fold_left_app. simpl.
  apply fold_step_trader_count_error.
Qed.

Lemma run_traders_skip_empty xs ys :
  run_traders (xs ++ NoAssetPositions :: ys) = run_traders (xs ++ ys).
Proof. unfold run_traders. now rewrite !fold_left_app. Qed.


(** ** The number of traders loaded *)

Lemma step_position_raises ap st st' :
  step_position ap st = None -> step_position ap st' = None.
Proof.
  destruct ap as [[[sz|] [val|] [k|]]|]; simpl; try reflexivity;
    destruct (feqb val fzero); try reflexivity; discriminate.
Qed.

Lemma run_positions_raised aps : forall st st',
  snd (run_positions aps st) = snd (run_positions aps st').
Proof.
  induction aps as [|ap rest IH]; intros st st'; simpl; [reflexivity|].
  destruct (step_position ap st) as [st1|] eqn:E1,
           (step_position ap st') as [st1'|] eqn:E2.
  - apply IH.
  - now rewrite (step_position_raises ap st' st E2) in E1.
  - now rewrite (step_position_raises ap st st' E1) in E2.
  - reflexivity.
Qed.

Lemma loaded_accumulate k sz val st : loaded (accumulate k sz val st) = loaded st.
Proof. unfold accumulate. now destruct (fltb fzero sz). Qed.

Lemma loaded_run_positions aps : forall st,
  loaded (fst (run_positions aps st)) = loaded st.
Proof.
  induction aps as [|ap rest IH]; intros st; simpl; [reflexivity|].
  destruct (step_position ap st) as [st1|] eqn:E; [|reflexivity].
  rewrite IH.
  destruct ap as [[[sz|] [val|] [k|]]|]; simpl in E; try discriminate;
    destruct (feqb val fzero); try discriminate;
    injection E as <-; try reflexivity.
  apply loaded_accumulate.
Qed.

Lemma loaded_step_trader st res :
  loaded (step_trader st res) = loaded st + (if answers res then 1 else 0).
Proof.
  destruct res as [| |aps]; simpl; try lia.
  pose proof (loaded_run_positions aps st) as Hl.
  pose proof (run_positions_raised aps st agg_init) as Hr.
  destruct (run_positions aps st) as [st1 raised]. simpl in Hl, Hr.
  rewrite <- Hr. destruct raised; simpl; lia.
Qed.

Lemma loaded_fold results : forall st,
  loaded (fold_left step_trader results st) =
  loaded st + List.length (filter answers results).
Proof.
  induction results as [|res rest IH]; intros st; simpl; [lia|].
  rewrite IH, loaded_step_trader. destruct (answers res); simpl; lia.
Qed.

Lemma traders_loaded now results :
  traders (aggregate now results) = List.length (filter answers results).
Proof. apply (loaded_fold results agg_init). Qed.

(** * Facts about binary64 values and their decimal forms *)

Section FloatFacts.
Local Open Scope Q_scope.

(** ** Powers of two and of ten *)

Lemma two_neq_0 : ~ 2 == 0.
Proof. discriminate. Qed.

Lemma ten_neq_0 : ~ 10 == 0.
Proof. discriminate. Qed.

Lemma pow2_pos (z : Z) : 0 < 2 ^ z.
Proof. now apply Qpower_0_lt. Qed.

Lemma pow10_pos (z : Z) : 0 < 10 ^ z.
Proof. now apply Qpower_0_lt. Qed.

Lemma pow2_plus (a b : Z) : 2 ^ (a + b) == 2 ^ a * 2 ^ b.
Proof. apply Qpower_plus, two_neq_0. Qed.

Lemma pow10_plus (a b : Z) : 10 ^ (a + b) == 10 ^ a * 10 ^ b.
Proof. apply Qpower_plus, ten_neq_0. Qed.

Lemma pow2_succ (a : Z) : 2 ^ (a + 1) == 2 * 2 ^ a.
Proof. rewrite pow2_plus. change (2 ^ 1) with 2. ring. Qed.

Lemma pow2_pred (a : Z) : 2 * 2 ^ (a - 1) == 2 ^ a.
Proof.
  rewrite <- pow2_succ. now replace (a - 1 + 1)%Z with a by lia.
Qed.

Lemma pow2_le (a b : Z) : (a <= b)%Z -> 2 ^ a <= 2 ^ b.
Proof. intros H. apply Qpower_le_compat_l; [exact H | discriminate]. Qed.

Lemma pow2_lt (a b : Z) : (a < b)%Z -> 2 ^ a < 2 ^ b.
Proof. intros H. apply Qpower_lt_compat_l; [exact H | reflexivity]. Qed.

Lemma pow2_lt_inv (a b : Z) : 2 ^ a < 2 ^ b -> (a < b)%Z.
Proof. intros H. apply (Qpower_lt_compat_l_inv 2); [exact H | reflexivity]. Qed.

Lemma pow2_Z (n : Z) : (0 <= n)%Z -> inject_Z (2 ^ n) == 2 ^ n.
Proof. intros H. now rewrite Zpower_Qpower. Qed.

(** ** The binade of a rational *)

Lemma Q_as_fraction (q : Q) : q * inject_Z (Zpos (Qden q)) == inject_Z (Qnum q).
Proof.
  destruct q as [n d]. unfold Qeq, Qmult, inject_Z. simpl. lia.
Qed.

Lemma Qnum_pos (q : Q) : 0 < q -> (0 < Qnum q)%Z.
Proof. destruct q as [n d]. unfold Qlt. simpl. lia. Qed.

Lemma log2_Q (n : Z) : (0 < n)%Z ->
  2 ^ Z.log2 n <= inject_Z n /\ inject_Z n < 2 * 2 ^ Z.log2 n.
Proof.
  intros H. destruct (Z.log2_spec n H) as (H1 & H2).
  pose proof (Z.log2_nonneg n) as H0.
  rewrite Zle_Qle in H1. rewrite Zlt_Qlt in H2.
  rewrite <- Z.add_1_r in H2.
  rewrite pow2_Z in H1 by exact H0. rewrite pow2_Z in H2 by lia.
  rewrite pow2_succ in H2. now split.
Qed.

Lemma floor_log2_spec (q : Q) :
  0 < q -> 2 ^ floor_log2 q <= q /\ q < 2 ^ (floor_log2 q + 1).
Proof.
  intros Hq. unfold floor_log2.
  set (n := Qnum q). set (d := Zpos (Qden q)).
  set (k := (Z.log2 n - Z.log2 d)%Z).
  pose proof (Q_as_fraction q) as Hf. fold n d in Hf.
  destruct (log2_Q n (Qnum_pos q Hq)) as (Hn1 & Hn2).
  destruct (log2_Q d eq_refl) as (Hd1 & Hd2).
  assert (Hk : 2 ^ Z.log2 n == 2 ^ k * 2 ^ Z.log2 d).
  { rewrite <- pow2_plus. unfold k.
    now replace (Z.log2 n - Z.log2 d + Z.log2 d)%Z with (Z.log2 n) by lia. }
  pose proof (pow2_pos k) as Pk. pose proof (pow2_pos (Z.log2 d)) as Pd.
  pose proof (pow2_pos (Z.log2 n)) as Pn.
  assert (Hup : q < 2 * 2 ^ k) by nra.
  assert (Hlo : 2 ^ k < 2 * q) by nra.
  destruct (Qle_bool (2 ^ k) q) eqn:E.
  - apply Qle_bool_iff in E. split; [exact E|]. now rewrite pow2_succ.
  - assert (Hlt : q < 2 ^ k).
    { apply Qnot_le_lt. intros H. apply Qle_bool_iff in H. congruence. }
    replace (k - 1 + 1)%Z with k by lia. split; [|exact Hlt].
    pose proof (pow2_pred k). lra.
Qed.

Lemma binade_unique (q : Q) (a b : Z) :
  2 ^ a <= q -> q < 2 ^ (a + 1) -> 2 ^ b <= q -> q < 2 ^ (b + 1) -> a = b.
Proof.
  intros H1 H2 H3 H4.
  assert (Hab : (a < b + 1)%Z) by (apply pow2_lt_inv; lra).
  assert (Hba : (b < a + 1)%Z) by (apply pow2_lt_inv; lra).
  lia.
Qed.

Lemma floor_log2_unique (q : Q) (k : Z) :
  2 ^ k <= q -> q < 2 ^ (k + 1) -> floor_log2 q = k.
Proof.
  intros H1 H2.
  assert (Hq : 0 < q) by (pose proof (pow2_pos k); lra).
  destruct (floor_log2_spec q Hq) as (H3 & H4).
  now apply (binade_unique q).
Qed.

Lemma floor_log2_comp (q q' : Q) : q == q' -> 0 < q -> floor_log2 q = floor_log2 q'.
Proof.
  intros He Hq.
  assert (Hq' : 0 < q') by now rewrite <- He.
  destruct (floor_log2_spec q' Hq') as (H3 & H4).
  apply floor_log2_unique; now rewrite He.
Qed.

(** ** Rounding to the nearest integer *)

Lemma Qround_half_even_near (q : Q) :
  - (1 # 2) <= inject_Z (Qround_half_even q) - q /\
  inject_Z (Qround_half_even q) - q <= 1 # 2.
Proof.
  unfold Qround_half_even.
  pose proof (Qfloor_le q) as H1. pose proof (Qlt_floor q) as H2.
  rewrite inject_Z_plus in H2. change (inject_Z 1) with 1 in H2.
  destruct (Qcompare_spec (q - inject_Z (Qfloor q)) (1 # 2)) as [E|E|E];
    [destruct (Z.even (Qfloor q))|..];
    rewrite ?inject_Z_plus; change (inject_Z 1) with 1; lra.
Qed.

Lemma Qfloor_unique (q : Q) (f : Z) :
  inject_Z f <= q -> q < inject_Z f + 1 -> Qfloor q = f.
Proof.
  intros H1 H2.
  pose proof (Qfloor_le q) as H3. pose proof (Qlt_floor q) as H4.
  rewrite inject_Z_plus in H4. change (inject_Z 1) with 1 in H4.
  assert (Ha : inject_Z f < inject_Z (Qfloor q + 1)).
  { rewrite inject_Z_plus. change (inject_Z 1) with 1. lra. }
  assert (Hb : inject_Z (Qfloor q) < inject_Z (f + 1)).
  { rewrite inject_Z_plus. change (inject_Z 1) with 1. lra. }
  rewrite <- Zlt_Qlt in Ha, Hb. lia.
Qed.

Lemma Qround_half_even_unique (q : Q) (m : Z) :
  - (1 # 2) < inject_Z m - q -> inject_Z m - q < 1 # 2 ->
  Qround_half_even q = m.
Proof.
  intros H1 H2. unfold Qround_half_even.
  destruct (Qlt_le_dec q (inject_Z m)) as [Hlt|Hge].
  - assert (Hf : Qfloor q = (m - 1)%Z).
    { apply Qfloor_unique; unfold Zminus; rewrite inject_Z_plus;
        change (inject_Z (- (1))) with (- (1)); lra. }
    rewrite Hf. unfold Zminus at 1. rewrite inject_Z_plus.
    change (inject_Z (- (1))) with (- (1)).
    destruct (Qcompare_spec (q - (inject_Z m + - (1))) (1 # 2)) as [E|E|E];
      try lra. lia.
  - assert (Hf : Qfloor q = m) by (apply Qfloor_unique; lra).
    rewrite Hf.
    destruct (Qcompare_spec (q - inject_Z m) (1 # 2)) as [E|E|E]; try lra.
    reflexivity.
Qed.

Lemma Qround_half_even_comp (q q' : Q) :
  q == q' -> Qround_half_even q = Qround_half_even q'.
Proof.
  intros He. unfold Qround_half_even.
  rewrite (Qfloor_comp q q' He).
  assert (Hc : (q - inject_Z (Qfloor q') ?= 1 # 2) = (q' - inject_Z (Qfloor q') ?= 1 # 2)).
  { apply Qcompare_comp; [now rewrite He | reflexivity]. }
  now rewrite Hc.
Qed.

(** ** The nearest binary64 value *)

Lemma nearest_comp (s : bool) (q q' : Q) :
  q == q' -> 0 < q -> nearest s q = nearest s q'.
Proof.
  intros He Hq. unfold nearest.
  rewrite (floor_log2_comp q q' He Hq).
  set (e := Z.max (floor_log2 q' - (prec - 1)) emin).
  assert (Hr : Qround_half_even (q / 2 ^ e) = Qround_half_even (q' / 2 ^ e)).
  { apply Qround_half_even_comp. now rewrite He. }
  now rewrite Hr.
Qed.

Lemma digits2_size (p : positive) : digits2_pos p = Pos.size p.
Proof. induction p; simpl; now rewrite ?IHp. Qed.

Lemma digits2_log2 (p : positive) :
  Zpos (digits2_pos p) = (Z.log2 (Zpos p) + 1)%Z.
Proof. rewrite digits2_size. destruct p; simpl; lia. Qed.

(** A finite binary64 value is normal, with a mantissa of 53 bits, or
    subnormal, with the least exponent. *)
Lemma bounded_iff (m : positive) (e : Z) :
  bounded prec emax m e = true <->
  (e <= emax - prec)%Z /\
  ((Z.log2 (Zpos m) = 52 /\ emin <= e) \/ (e = emin /\ Z.log2 (Zpos m) < 52))%Z.
Proof.
  unfold bounded, canonical_mantissa, fexp, SpecFloat.emin, emin, prec, emax.
  rewrite digits2_log2, andb_true_iff, Z.leb_le, Z.eqb_eq. lia.
Qed.

Lemma mantissa_range (m : positive) :
  2 ^ Z.log2 (Zpos m) <= inject_Z (Zpos m) /\
  inject_Z (Zpos m) + 1 <= 2 * 2 ^ Z.log2 (Zpos m).
Proof.
  destruct (Z.log2_spec (Zpos m) eq_refl) as (H1 & H2).
  pose proof (Z.log2_nonneg (Zpos m)) as H0.
  assert (H3 : (Zpos m + 1 <= 2 ^ (Z.log2 (Zpos m) + 1))%Z) by lia.
  rewrite Zle_Qle in H1, H3.
  rewrite inject_Z_plus in H3. change (inject_Z 1) with 1 in H3.
  rewrite pow2_Z in H1 by exact H0. rewrite pow2_Z in H3 by lia.
  rewrite pow2_succ in H3. now split.
Qed.

Lemma c52 : 2 ^ 52 == 4503599627370496.
Proof. reflexivity. Qed.

Lemma c53 : 2 ^ 53 == 9007199254740992.
Proof. reflexivity. Qed.

Lemma pow2_shift (a : Z) (e : Z) : 2 ^ (a + e) == 2 ^ a * 2 ^ e.
Proof. apply pow2_plus. Qed.

(** A rational in the rounding interval of a binary64 value rounds to
    it.  Below a power of two the interval is half as wide. *)
Lemma nearest_within (s : bool) (m : positive) (e : Z) (q : Q) :
  bounded prec emax m e = true ->
  q < (inject_Z (Zpos m) + (1 # 2)) * 2 ^ e ->
  (inject_Z (Zpos m) - (1 # 2)) * 2 ^ e < q ->
  ((Zpos m = 2 ^ 52)%Z -> (emin < e)%Z ->
   (inject_Z (Zpos m) - (1 # 4)) * 2 ^ e < q) ->
  nearest s q = S754_finite s m e.
Proof.
  intros Hb Hup Hlo Hlo'.
  apply bounded_iff in Hb. destruct Hb as (Hmax & Hcan).
  destruct (mantissa_range m) as (Hm1 & Hm2).
  set (M := inject_Z (Zpos m)) in *.
  pose proof (pow2_pos e) as HP.
  pose proof (pow2_shift 52 e) as H52. rewrite c52 in H52.
  pose proof (pow2_shift 53 e) as H53. rewrite c53 in H53.
  pose proof (pow2_shift 51 (e - 1)) as H51.
  pose proof (pow2_pred e) as Hpred.
  assert (HM1 : 1 <= M).
  { unfold M. change 1 with (inject_Z 1). rewrite <- Zle_Qle. lia. }
  assert (Hfinish : forall E m',
             Z.max (floor_log2 q - (prec - 1)) emin = E ->
             Qround_half_even (q / 2 ^ E) = m' ->
             (if (m' =? 2 ^ prec)%Z then (2 ^ (prec - 1), E + 1)%Z else (m', E)) =
             (Zpos m, e) ->
             nearest s q = S754_finite s m e).
  { intros E m' HE Hr Hfin. unfold nearest. rewrite HE, Hr, Hfin.
    destruct (Z.leb_spec e (emax - prec)); [reflexivity | lia]. }
  assert (Hround : forall E m',
             - (1 # 2) < inject_Z m' - q / 2 ^ E ->
             inject_Z m' - q / 2 ^ E < 1 # 2 ->
             Qround_half_even (q / 2 ^ E) = m').
  { intros E m'. apply Qround_half_even_unique. }
  assert (Hdiv : q / 2 ^ e * 2 ^ e == q).
  { field. apply Qpower_not_0, two_neq_0. }
  destruct Hcan as [(Hlog & Hemin)|(He & Hlog)].
  - (* normal *)
    rewrite Hlog in Hm1, Hm2. rewrite c52 in Hm1, Hm2.
    destruct (Qlt_le_dec q (2 ^ (52 + e))) as [Hbelow|Habove].
    + (* just below a power of two *)
      assert (Hmz : (Zpos m = 2 ^ 52)%Z).
      { assert (Hlt : M < 4503599627370497) by (clear - HP Hbelow H52 Hlo; nra).
        assert (Hge : 4503599627370496 <= M) by exact Hm1.
        unfold M in Hlt, Hge.
        change 4503599627370497 with (inject_Z 4503599627370497) in Hlt.
        change 4503599627370496 with (inject_Z 4503599627370496) in Hge.
        rewrite <- Zlt_Qlt in Hlt. rewrite <- Zle_Qle in Hge.
        lia. }
      assert (HM : M == 4503599627370496).
      { unfold M. rewrite Hmz. reflexivity. }
      destruct (Z.eq_dec e emin) as [Hee|Hne].
      * (* the least exponent: nothing below *)
        apply (Hfinish e (Zpos m)).
        -- assert (Hfl : (floor_log2 q < 52 + e)%Z).
           { apply pow2_lt_inv.
             destruct (floor_log2_spec q) as (Ha & _); [nra|]. lra. }
           unfold prec. lia.
        -- apply Hround.
           ++ set (r := q / 2 ^ e) in *. fold M. nra.
           ++ set (r := q / 2 ^ e) in *. fold M. nra.
        -- rewrite Hmz. reflexivity.
      * (* the binade below *)
        assert (Hq4 : (M - (1 # 4)) * 2 ^ e < q) by (apply Hlo'; [exact Hmz | lia]).
        assert (Hfl : floor_log2 q = (51 + e)%Z).
        { apply floor_log2_unique.
          - replace (51 + e)%Z with (52 + (e - 1))%Z by lia.
            pose proof (pow2_shift 52 (e - 1)) as H52'. rewrite c52 in H52'. nra.
          - replace (51 + e + 1)%Z with (52 + e)%Z by lia. exact Hbelow. }
        apply (Hfinish (e - 1)%Z (2 ^ prec)%Z).
        -- rewrite Hfl. unfold prec. lia.
        -- apply Hround.
           ++ assert (Hd : q / 2 ^ (e - 1) * 2 ^ (e - 1) == q).
              { field. apply Qpower_not_0, two_neq_0. }
              set (r := q / 2 ^ (e - 1)) in *.
              pose proof (pow2_pos (e - 1)).
              change (inject_Z (2 ^ prec)) with 9007199254740992. nra.
           ++ assert (Hd : q / 2 ^ (e - 1) * 2 ^ (e - 1) == q).
              { field. apply Qpower_not_0, two_neq_0. }
              set (r := q / 2 ^ (e - 1)) in *.
              pose proof (pow2_pos (e - 1)).
              change (inject_Z (2 ^ prec)) with 9007199254740992. nra.
        -- rewrite Z.eqb_refl, Hmz. f_equal. lia.
    + (* in the binade of the value *)
      assert (Hfl : floor_log2 q = (52 + e)%Z).
      { apply floor_log2_unique; [exact Habove|].
        replace (52 + e + 1)%Z with (53 + e)%Z by lia. nra. }
      apply (Hfinish e (Zpos m)).
      * rewrite Hfl. unfold prec. lia.
      * apply Hround.
        -- set (r := q / 2 ^ e) in *. fold M. nra.
        -- set (r := q / 2 ^ e) in *. fold M. nra.
      * destruct (Z.eqb_spec (Zpos m) (2 ^ prec)) as [Heq|_]; [|reflexivity].
        exfalso. unfold M in Hm2. rewrite Heq in Hm2.
        change (inject_Z (2 ^ prec)) with 9007199254740992 in Hm2. lra.
  - (* subnormal *)
    assert (Hm52 : M + 1 <= 4503599627370496).
    { assert (Hz : (Zpos m + 1 <= 2 ^ 52)%Z).
      { destruct (Z.log2_spec (Zpos m) eq_refl) as (_ & Hz).
        assert (2 ^ Z.succ (Z.log2 (Zpos m)) <= 2 ^ 52)%Z
          by (apply Z.pow_le_mono_r; lia).
        lia. }
      rewrite Zle_Qle, inject_Z_plus in Hz. exact Hz. }
    apply (Hfinish e (Zpos m)).
    + assert (Hfl : (floor_log2 q < 52 + e)%Z).
      { apply pow2_lt_inv.
        destruct (floor_log2_spec q) as (Ha & _); [nra|]. nra. }
      unfold prec. lia.
    + apply Hround.
      * set (r := q / 2 ^ e) in *. fold M. nra.
      * set (r := q / 2 ^ e) in *. fold M. nra.
    + destruct (Z.eqb_spec (Zpos m) (2 ^ prec)) as [Heq|_]; [|reflexivity].
      exfalso. unfold M in Hm52. rewrite Heq in Hm52.
      change (inject_Z (2 ^ prec)) with 9007199254740992 in Hm52. lra.
Qed.

End FloatFacts.

Section ReprFacts.
Local Open Scope Q_scope.

(** ** The value of a finite binary64 *)

Lemma F2Q_pos (m : positive) (e : Z) : 0 < F2Q m e.
Proof.
  unfold F2Q. apply Qmult_lt_0_compat; [reflexivity | apply pow2_pos].
Qed.

Lemma mantissa_bounds (m : positive) (e : Z) :
  bounded prec emax m e = true ->
  1 <= inject_Z (Zpos m) /\ inject_Z (Zpos m) + 1 <= 9007199254740992.
Proof.
  intros Hb. apply bounded_iff in Hb. destruct Hb as (_ & Hcan). split.
  - change 1 with (inject_Z 1). rewrite <- Zle_Qle. lia.
  - assert (Hz : (Zpos m + 1 <= 2 ^ 53)%Z).
    { destruct (Z.log2_spec (Zpos m) eq_refl) as (_ & Hz).
      assert (2 ^ Z.succ (Z.log2 (Zpos m)) <= 2 ^ 53)%Z
        by (apply Z.pow_le_mono_r; lia).
      lia. }
    rewrite Zle_Qle, inject_Z_plus in Hz. exact Hz.
Qed.

Lemma F2Q_binade (m : positive) (e : Z) :
  bounded prec emax m e = true ->
  (emin <= floor_log2 (F2Q m e) <= 1023)%Z.
Proof.
  intros Hb. destruct (mantissa_bounds m e Hb) as (H1 & H2).
  apply bounded_iff in Hb. destruct Hb as (Hmax & Hcan).
  destruct (floor_log2_spec (F2Q m e) (F2Q_pos m e)) as (Ha & Hc).
  unfold F2Q in Ha, Hc. set (M := inject_Z (Zpos m)) in *.
  pose proof (pow2_pos e) as HP.
  pose proof (pow2_shift 53 e) as H53. rewrite c53 in H53.
  assert (Hlo : (e < floor_log2 (M * 2 ^ e) + 1)%Z).
  { apply pow2_lt_inv. nra. }
  assert (Hhi : (floor_log2 (M * 2 ^ e) < 53 + e)%Z).
  { apply pow2_lt_inv.
    assert (HMP : M * 2 ^ e + 2 ^ e <= 9007199254740992 * 2 ^ e)
      by (clear - H2 HP; nra).
    lra. }
  unfold F2Q. fold M. unfold emin, emax, prec in *. lia.
Qed.

(** ** The position of the decimal point *)

Lemma find_decpt_low (fuel : nat) : forall (k : Z) (q : Q),
  find_decpt fuel k q = k \/ 10 ^ (find_decpt fuel k q - 1) <= q.
Proof.
  induction fuel as [|fuel IH]; intros k q; simpl; [now left|].
  destruct (Qle_bool (10 ^ k) q) eqn:E; [|now left].
  apply Qle_bool_iff in E.
  destruct (IH (k + 1)%Z q) as [Heq|Hle]; [|now right].
  right. rewrite Heq. now replace (k + 1 - 1)%Z with k by lia.
Qed.

(** The estimate of the decimal exponent from the binary one holds on
    every binade of binary64. *)
Lemma estimates_ok :
  forallb estimate_ok (map (fun i => (Z.of_nat i - 1074)%Z) (seq 0 2098)) = true.
Proof. vm_compute. reflexivity. Qed.

Lemma estimate_low (t : Z) :
  (emin <= t <= 1023)%Z -> 10 ^ (t * 30103 / 100000 - 2) <= 2 ^ t.
Proof.
  intros Ht. apply Qle_bool_iff.
  pose proof estimates_ok as H. rewrite forallb_forall in H.
  apply (H t). apply in_map_iff. exists (Z.to_nat (t + 1074)).
  unfold emin, emax, prec in Ht. split; [lia|]. apply in_seq. lia.
Qed.

Lemma decpt_low (m : positive) (e : Z) :
  bounded prec emax m e = true ->
  let q := F2Q m e in
  10 ^ (find_decpt 8 (floor_log2 q * 30103 / 100000 - 1) q - 1) <= q.
Proof.
  intros Hb q.
  destruct (find_decpt_low 8 (floor_log2 q * 30103 / 100000 - 1) q) as [Heq|Hle];
    [|exact Hle].
  rewrite Heq.
  replace (floor_log2 q * 30103 / 100000 - 1 - 1)%Z
    with (floor_log2 q * 30103 / 100000 - 2)%Z by lia.
  apply Qle_trans with (2 ^ floor_log2 q).
  - apply estimate_low. now apply F2Q_binade.
  - apply floor_log2_spec, F2Q_pos.
Qed.

(** ** Seventeen digits are enough *)

Lemma float_same_refl (x : float) : float_same x x = true.
Proof.
  destruct x as [b|b| |b m e]; simpl; try reflexivity;
    try apply Bool.eqb_reflx.
  now rewrite Bool.eqb_reflx, Pos.eqb_refl, Z.eqb_refl.
Qed.

Lemma float_same_eq (x y : float) : float_same x y = true -> x = y.
Proof.
  destruct x as [a|a| |a m e], y as [b|b| |b m' e']; simpl; try discriminate;
    try (intros H; apply Bool.eqb_prop in H; now subst); [reflexivity|].
  intros H. apply andb_prop in H. destruct H as (H & He).
  apply andb_prop in H. destruct H as (Hs & Hm).
  apply Bool.eqb_prop in Hs. apply Pos.eqb_eq in Hm. apply Z.eqb_eq in He.
  now subst.
Qed.

Lemma c16 : 10 ^ 16 == 10000000000000000.
Proof. reflexivity. Qed.

(** The decimal of 17 digits nearest to a binary64 value converts back
    to it. *)
Lemma seventeen_digits (s : bool) (m : positive) (e : Z) (decpt : Z) :
  bounded prec emax m e = true ->
  10 ^ (decpt - 1) <= F2Q m e ->
  let c := Qround_half_even (F2Q m e * 10 ^ (17 - decpt)) in
  (0 < c)%Z /\ of_scientific s (Z.to_N c) (decpt - 17) = S754_finite s m e.
Proof.
  intros Hb Hdec c.
  destruct (mantissa_bounds m e Hb) as (HM1 & HM2).
  destruct (Qround_half_even_near (F2Q m e * 10 ^ (17 - decpt))) as (Hn1 & Hn2).
  fold c in Hn1, Hn2.
  assert (HUT : 10 ^ (17 - decpt) * 10 ^ (decpt - 17) == 1).
  { rewrite <- pow10_plus. now replace (17 - decpt + (decpt - 17))%Z with 0%Z by lia. }
  assert (HT16 : 10 ^ (decpt - 17) * 10000000000000000 == 10 ^ (decpt - 1)).
  { rewrite <- c16, <- pow10_plus. now replace (decpt - 17 + 16)%Z with (decpt - 1)%Z by lia. }
  pose proof (pow10_pos (17 - decpt)) as HU.
  pose proof (pow10_pos (decpt - 17)) as HT.
  pose proof (pow2_pos e) as HP.
  set (U := 10 ^ (17 - decpt)) in *. set (T := 10 ^ (decpt - 17)) in *.
  unfold F2Q in *. set (M := inject_Z (Zpos m)) in *. set (P := 2 ^ e) in *.
  set (C := inject_Z c) in *.
  assert (HqT : T * 10000000000000000 <= M * P) by lra.
  assert (Hr : 10000000000000000 <= M * P * U).
  { assert (H : T * 10000000000000000 * U <= M * P * U) by (clear - HqT HU; nra).
    assert (H' : T * 10000000000000000 * U == 10000000000000000).
    { transitivity (10000000000000000 * (U * T)); [ring | rewrite HUT; ring]. }
    lra. }
  assert (Hc : (0 < c)%Z).
  { assert (H : inject_Z 0 < C) by (change (inject_Z 0) with 0; lra).
    unfold C in H. now rewrite <- Zlt_Qlt in H. }
  split; [exact Hc|].
  destruct c as [|pc|pc]; try lia. cbn [Z.to_N of_scientific].
  fold C.
  assert (Hback : M * P * U * T == M * P).
  { transitivity (M * P * (U * T)); [ring | rewrite HUT; ring]. }
  assert (Hd1 : C * T - M * P <= (1 # 2) * T).
  { assert (H : (C - M * P * U) * T <= (1 # 2) * T) by (clear - Hn2 HT; nra).
    lra. }
  assert (Hd2 : - ((1 # 2) * T) <= C * T - M * P).
  { assert (H : - (1 # 2) * T <= (C - M * P * U) * T) by (clear - Hn1 HT; nra).
    lra. }
  assert (HMP : M * P + P <= 9007199254740992 * P) by (clear - HM2 HP; nra).
  apply nearest_within; [exact Hb | fold M P T; lra | fold M P T; lra |].
  intros Hpow _. fold M P T.
  assert (HMc : M == 4503599627370496).
  { unfold M. rewrite Hpow. reflexivity. }
  assert (HMP' : M * P == 4503599627370496 * P) by (rewrite HMc; reflexivity).
  lra.
Qed.

Lemma try_digits_sound (x : float) (s : bool) (q : Q) (decpt p c : Z) :
  try_digits x s q decpt p = Some c ->
  of_scientific s (Z.to_N c) (decpt - p) = x.
Proof.
  unfold try_digits.
  destruct (float_same (of_scientific s (Z.to_N (Qround_half_even (q * 10 ^ (p - decpt))))
                                      (decpt - p)) x) eqn:E1.
  - intros H. injection H as <-. now apply float_same_eq.
  - match goal with
    | |- (if ?b then _ else _) = _ -> _ => destruct b eqn:E2
    end; [|discriminate].
    intros H. injection H as <-. now apply float_same_eq.
Qed.

Lemma shortest_found (fuel : nat) (x : float) (s : bool) (q : Q) (decpt : Z) :
  forall p : Z,
    (exists p', (p <= p' < p + Z.of_nat fuel)%Z /\ try_digits x s q decpt p' <> None) ->
    exists c p', shortest fuel x s q decpt p = (c, p') /\
                 try_digits x s q decpt p' = Some c /\
                 (p <= p' < p + Z.of_nat fuel)%Z.
Proof.
  induction fuel as [|fuel IH]; intros p (p' & Hp & Hsome); [lia|].
  cbn [shortest].
  destruct (try_digits x s q decpt p) as [c|] eqn:E.
  - exists c, p. split; [reflexivity|]. split; [exact E | lia].
  - assert (Hne : p' <> p) by (intros ->; congruence).
    destruct (IH (p + 1)%Z) as (c & p'' & H1 & H2 & H3).
    { exists p'. split; [lia | exact Hsome]. }
    exists c, p''. split; [exact H1|]. split; [exact H2 | lia].
Qed.

(** The digits [float_repr] lays out: at most 17, and they convert back
    to the value. *)
Lemma repr_digits (s : bool) (m : positive) (e : Z) :
  bounded prec emax m e = true ->
  let q := F2Q m e in
  let decpt := find_decpt 8 (floor_log2 q * 30103 / 100000 - 1) q in
  exists c p,
    shortest 17 (S754_finite s m e) s q decpt 1 = (c, p) /\
    of_scientific s (Z.to_N c) (decpt - p) = S754_finite s m e /\
    (1 <= p <= 17)%Z.
Proof.
  intros Hb q decpt.
  destruct (seventeen_digits s m e decpt Hb (decpt_low m e Hb)) as (Hc & H17).
  destruct (shortest_found 17 (S754_finite s m e) s q decpt 1) as (c & p & H1 & H2 & H3).
  { exists 17%Z. split; [lia|]. unfold try_digits.
    fold q in H17. rewrite H17, float_same_refl. discriminate. }
  exists c, p. split; [exact H1|]. split; [now apply (try_digits_sound _ _ q) | lia].
Qed.

End ReprFacts.

Section ValidFacts.
Local Open Scope Q_scope.

(** ** What [nearest] returns is a binary64 value *)

Lemma Qround_half_even_bounds (q : Q) (a b : Z) :
  inject_Z a <= q -> q <= inject_Z b ->
  (a <= Qround_half_even q <= b)%Z.
Proof.
  intros Ha Hb. destruct (Qround_half_even_near q) as (H1 & H2).
  set (r := Qround_half_even q) in *.
  assert (Hlo : inject_Z (a - 1) < inject_Z r).
  { unfold Zminus. rewrite inject_Z_plus. change (inject_Z (- (1))) with (- (1)). lra. }
  assert (Hhi : inject_Z r < inject_Z (b + 1)).
  { rewrite inject_Z_plus. change (inject_Z 1) with 1. lra. }
  rewrite <- Zlt_Qlt in Hlo, Hhi. lia.
Qed.

Lemma log2_53_bits (p : positive) :
  (2 ^ 52 <= Zpos p < 2 ^ 53)%Z -> Z.log2 (Zpos p) = 52%Z.
Proof. intros H. apply Z.log2_unique; [lia | exact H]. Qed.

Lemma nearest_valid (s : bool) (q : Q) :
  0 < q -> valid_binary prec emax (nearest s q) = true.
Proof.
  intros Hq. unfold nearest.
  destruct (floor_log2_spec q Hq) as (Hlo & Hhi).
  set (fl := floor_log2 q) in *.
  set (E := Z.max (fl - (prec - 1)) emin).
  assert (HE : (emin <= E)%Z) by (unfold E; lia).
  pose proof (pow2_pos E) as HP.
  assert (Hdiv : q / 2 ^ E * 2 ^ E == q).
  { field. apply Qpower_not_0, two_neq_0. }
  set (r := q / 2 ^ E) in *.
  assert (Hr0 : 0 <= r) by (clear - Hdiv Hq HP; nra).
  assert (Hr53 : r <= 9007199254740992).
  { assert (H : 2 ^ (fl + 1) <= 9007199254740992 * 2 ^ E).
    { rewrite <- c53, <- pow2_plus. apply pow2_le. unfold E, prec. lia. }
    clear - H Hhi Hdiv HP. nra. }
  assert (Hm : (0 <= Qround_half_even r <= 2 ^ 53)%Z).
  { apply Qround_half_even_bounds; [exact Hr0 | exact Hr53]. }
  assert (Hnormal : (emin <= fl - (prec - 1))%Z -> (2 ^ 52 <= Qround_half_even r)%Z).
  { intros Hn. apply Qround_half_even_bounds with (b := (2 ^ 53)%Z); [|exact Hr53].
    assert (H : 4503599627370496 * 2 ^ E <= 2 ^ fl).
    { rewrite <- c52, <- pow2_plus. apply pow2_le. unfold E, prec in *. lia. }
    change (inject_Z (2 ^ 52)) with 4503599627370496.
    clear - H Hlo Hdiv HP. nra. }
  assert (Hsub : (fl - (prec - 1) < emin)%Z -> (Qround_half_even r <= 2 ^ 52)%Z).
  { intros Hn. apply Qround_half_even_bounds with (a := 0%Z); [exact Hr0|].
    assert (H : 2 ^ (fl + 1) <= 4503599627370496 * 2 ^ E).
    { rewrite <- c52, <- pow2_plus. apply pow2_le. unfold E, prec in *. lia. }
    change (inject_Z (2 ^ 52)) with 4503599627370496.
    clear - H Hhi Hdiv HP. nra. }
  set (m := Qround_half_even r) in *.
  destruct (Z.eqb_spec m (2 ^ prec)) as [Heq|Hneq].
  - change (2 ^ (prec - 1))%Z with (Zpos 4503599627370496).
    destruct (Z.leb_spec (E + 1) (emax - prec)); [|reflexivity].
    cbn [valid_binary]. apply bounded_iff. split; [assumption|]. left.
    split; [reflexivity | lia].
  - destruct m as [|p|p]; try reflexivity.
    destruct (Z.leb_spec E (emax - prec)); [|reflexivity].
    cbn [valid_binary]. apply bounded_iff. split; [assumption|].
    unfold prec in Hneq.
    destruct (Z.le_gt_cases emin (fl - (prec - 1))) as [Hn|Hn].
    + left. split; [|exact HE]. apply log2_53_bits.
      specialize (Hnormal Hn). lia.
    + specialize (Hsub Hn).
      destruct (Z.eq_dec (Zpos p) (2 ^ 52)) as [Hp|Hp].
      * left. split; [|exact HE]. now rewrite Hp.
      * right. split; [unfold E; lia|].
        apply Z.log2_lt_pow2; lia.
Qed.

Lemma of_scientific_valid (s : bool) (M : N) (E : Z) :
  valid_binary prec emax (of_scientific s M E) = true.
Proof.
  destruct M as [|p]; [reflexivity|]. cbn [of_scientific].
  apply nearest_valid, Qmult_lt_0_compat; [reflexivity | apply pow10_pos].
Qed.

(** [round] returns a binary64 value whatever it is given. *)
Lemma py_round_valid (x : float) (n : nat) :
  valid_binary prec emax (py_round x n) = true.
Proof.
  destruct x; try reflexivity. cbn [py_round]. apply of_scientific_valid.
Qed.

End ValidFacts.

(** * Numerals *)

Section NumeralFacts.
Local Open Scope string_scope.

Lemma append_assoc (a b d : string) : (a ++ b) ++ d = a ++ (b ++ d).
Proof. induction a as [|x a IH]; simpl; [reflexivity | now rewrite IH]. Qed.

Lemma append_nil_r (a : string) : a ++ "" = a.
Proof. induction a as [|x a IH]; simpl; [reflexivity | now rewrite IH]. Qed.

Lemma length_append (a b : string) :
  String.length (a ++ b) = String.length a + String.length b.
Proof. induction a as [|x a IH]; simpl; [reflexivity | now rewrite IH]. Qed.

(** ** Strings of digits *)

Lemma all_digits_app (a b : string) :
  all_digits (a ++ b) = all_digits a && all_digits b.
Proof.
  induction a as [|x a IH]; simpl; [reflexivity|].
  now rewrite IH, andb_assoc.
Qed.

Lemma all_digits_zeros (n : nat) : all_digits (zeros n) = true.
Proof. induction n as [|n IH]; simpl; [reflexivity | exact IH]. Qed.

Lemma length_zeros (n : nat) : String.length (zeros n) = n.
Proof. induction n as [|n IH]; simpl; [reflexivity | now rewrite IH]. Qed.

Lemma all_digits_uint (d : Decimal.uint) :
  all_digits (NilEmpty.string_of_uint d) = true.
Proof. induction d; simpl; try reflexivity; exact IHd. Qed.

Lemma span_digits_stop (a rest : string) :
  all_digits a = true -> no_digit_next rest ->
  span_digits (a ++ rest) = (a, rest).
Proof.
  intros Ha Hr. induction a as [|x a IH]; simpl.
  - destruct rest as [|y rest]; [reflexivity|]. simpl in *. now rewrite Hr.
  - simpl in Ha. apply andb_prop in Ha. destruct Ha as (Hx & Ha).
    now rewrite Hx, (IH Ha).
Qed.

(** ** The value of a string of digits *)

Lemma dval_acc_linear (s : string) : forall acc : N,
  dval_acc s acc = (acc * 10 ^ N.of_nat (String.length s) + dval s)%N.
Proof.
  unfold dval. induction s as [|a s IH]; intros acc.
  - simpl. lia.
  - cbn [dval_acc String.length]. rewrite (IH (10 * acc + _)%N), (IH (10 * 0 + _)%N).
    rewrite Nat2N.inj_succ, N.pow_succ_r'. lia.
Qed.

Lemma dval_acc_app (a b : string) : forall acc : N,
  dval_acc (a ++ b) acc = dval_acc b (dval_acc a acc).
Proof. induction a as [|x a IH]; intros acc; simpl; [reflexivity | apply IH]. Qed.

Lemma dval_app (a b : string) :
  dval (a ++ b) = (dval a * 10 ^ N.of_nat (String.length b) + dval b)%N.
Proof.
  unfold dval at 1. rewrite dval_acc_app. apply dval_acc_linear.
Qed.

Lemma dval_zeros (n : nat) : dval (zeros n) = 0%N.
Proof.
  unfold dval. induction n as [|n IH]; simpl; [reflexivity | exact IH].
Qed.

Lemma dval_lead_zeros (n : nat) (s : string) : dval (zeros n ++ s) = dval s.
Proof. rewrite dval_app, dval_zeros. lia. Qed.

Lemma of_uint_acc_dval (d : Decimal.uint) : forall acc : positive,
  N.pos (Pos.of_uint_acc d acc) = dval_acc (NilEmpty.string_of_uint d) (N.pos acc).
Proof.
  induction d; intros acc; cbn [Pos.of_uint_acc NilEmpty.string_of_uint dval_acc];
    try reflexivity; rewrite IHd; f_equal;
    match goal with
    | |- context [N_of_ascii ?c] =>
        let v := eval vm_compute in (N_of_ascii c) in
        change (N_of_ascii c) with v
    end; lia.
Qed.

Lemma of_uint_dval (d : Decimal.uint) :
  N.of_uint d = dval (NilEmpty.string_of_uint d).
Proof.
  unfold N.of_uint, dval.
  induction d; cbn [Pos.of_uint NilEmpty.string_of_uint dval_acc];
    try reflexivity; try exact IHd; apply of_uint_acc_dval.
Qed.

Lemma uint_of_digits (s : string) :
  all_digits s = true ->
  exists d, NilEmpty.uint_of_string s = Some d /\ N.of_uint d = dval s.
Proof.
  intros Hs.
  assert (H : exists d, NilEmpty.uint_of_string s = Some d).
  { induction s as [|a s IH]; [now eexists|].
    simpl in Hs. apply andb_prop in Hs. destruct Hs as (Ha & Hs).
    destruct (IH Hs) as (d & Hd). cbn [NilEmpty.uint_of_string]. rewrite Hd.
    destruct a as [[] [] [] [] [] [] [] []]; try discriminate Ha;
      cbn; eexists; reflexivity. }
  destruct H as (d & Hd). exists d. split; [exact Hd|].
  rewrite of_uint_dval. f_equal. now apply NilEmpty.sus.
Qed.

(** ** The digits of a number *)

Lemma nzhead_not_D0 (d e : Decimal.uint) : Decimal.nzhead d <> Decimal.D0 e.
Proof. induction d; simpl; try discriminate. exact IHd. Qed.

Lemma to_uint_normal (p : positive) :
  Decimal.unorm (Pos.to_uint p) = Pos.to_uint p.
Proof.
  rewrite <- (DecimalPos.Unsigned.to_of (Pos.to_uint p)).
  now rewrite DecimalPos.Unsigned.of_to.
Qed.

Lemma to_uint_head (p : positive) :
  match Pos.to_uint p with
  | Decimal.Nil | Decimal.D0 _ => False
  | _ => True
  end.
Proof.
  pose proof (to_uint_normal p) as Hn.
  pose proof (DecimalPos.Unsigned.to_uint_nonzero p) as Hz.
  pose proof (DecimalPos.Unsigned.to_uint_nonnil p) as Hnil.
  destruct (Pos.to_uint p) as [|u| | | | | | | | |]; trivial.
  - now apply Hnil.
  - unfold Decimal.unorm in Hn. simpl Decimal.nzhead in Hn.
    destruct (Decimal.nzhead u) eqn:E.
    + injection Hn as <-. now apply Hz.
    + exfalso. apply (nzhead_not_D0 u u0). rewrite E. congruence.
    + discriminate. + discriminate. + discriminate. + discriminate.
    + discriminate. + discriminate. + discriminate. + discriminate.
    + discriminate.
Qed.

Lemma digits_string_pos (c : Z) :
  (0 < c)%Z ->
  all_digits (digits_string c) = true /\
  dval (digits_string c) = Z.to_N c /\
  digits_string c <> "" /\
  starts_with "0" (digits_string c) = false.
Proof.
  intros Hc. destruct c as [|p|p]; try lia. unfold digits_string.
  cbn [Z.to_N N.to_uint].
  pose proof (to_uint_head p) as Hh.
  assert (He : NilZero.string_of_uint (Pos.to_uint p) =
               NilEmpty.string_of_uint (Pos.to_uint p)).
  { destruct (Pos.to_uint p); [contradiction | reflexivity..]. }
  rewrite He. split; [apply all_digits_uint|]. split.
  - rewrite <- of_uint_dval. apply (DecimalN.Unsigned.of_to (N.pos p)).
  - destruct (Pos.to_uint p); try contradiction; split; (discriminate || reflexivity).
Qed.

Lemma digits_string_nonneg (c : Z) :
  (0 <= c)%Z ->
  all_digits (digits_string c) = true /\
  dval (digits_string c) = Z.to_N c /\
  digits_string c <> "".
Proof.
  intros Hc. destruct (Z.eq_dec c 0) as [->|Hne].
  - repeat split. discriminate.
  - destruct (digits_string_pos c) as (H1 & H2 & H3 & _); [lia|]. now repeat split.
Qed.

(** ** Trailing zeros *)

Lemma strip_zeros_spec (l : list ascii) :
  exists z, l = (repeat "0"%char z ++ strip_zeros l)%list.
Proof.
  induction l as [|a l IH]; [now exists 0|]. cbn [strip_zeros].
  destruct (Ascii.eqb_spec a "0") as [->|Hne].
  - destruct IH as (z & Hz). exists (S z). simpl. now rewrite <- Hz.
  - now exists 0.
Qed.

Lemma string_of_list_app (a b : list ascii) :
  string_of_list_ascii (a ++ b) = string_of_list_ascii a ++ string_of_list_ascii b.
Proof. induction a as [|x a IH]; simpl; [reflexivity | now rewrite IH]. Qed.

Lemma string_of_repeat_zero (z : nat) :
  string_of_list_ascii (repeat "0"%char z) = zeros z.
Proof. induction z as [|z IH]; simpl; [reflexivity | now rewrite IH]. Qed.

Lemma rev_repeat {A : Type} (a : A) (z : nat) : List.rev (repeat a z) = repeat a z.
Proof.
  induction z as [|z IH]; [reflexivity|]. simpl. rewrite IH.
  clear IH. induction z as [|z IH]; [reflexivity|]. simpl. now rewrite IH.
Qed.

(** The digits without their trailing zeros: what was cut is zeros, and
    a first digit other than zero stays first. *)
Lemma strip_trailing_zeros_spec (s : string) :
  all_digits s = true -> starts_with "0" s = false -> s <> "" ->
  exists z,
    s = strip_trailing_zeros s ++ zeros z /\
    all_digits (strip_trailing_zeros s) = true /\
    strip_trailing_zeros s <> "" /\
    starts_with "0" (strip_trailing_zeros s) = false.
Proof.
  intros Hd Hh Hne. unfold strip_trailing_zeros.
  destruct (strip_zeros_spec (List.rev (list_ascii_of_string s))) as (z & Hz).
  set (k := strip_zeros (List.rev (list_ascii_of_string s))) in *.
  assert (Hs : s = string_of_list_ascii (List.rev k) ++ zeros z).
  { rewrite <- (string_of_list_ascii_of_string s) at 1.
    rewrite <- (List.rev_involutive (list_ascii_of_string s)), Hz.
    now rewrite List.rev_app_distr, rev_repeat, string_of_list_app, string_of_repeat_zero. }
  exists z. split; [exact Hs|].
  set (ds := string_of_list_ascii (List.rev k)) in *.
  assert (Hds : all_digits ds = true).
  { rewrite Hs, all_digits_app in Hd. now apply andb_prop in Hd. }
  assert (Hne' : ds <> "").
  { intros E. rewrite E in Hs. simpl in Hs. rewrite Hs in Hh, Hne.
    destruct z; [now apply Hne | discriminate Hh]. }
  split; [exact Hds|]. split; [exact Hne'|].
  destruct ds as [|a ds]; [now elim Hne'|]. rewrite Hs in Hh. exact Hh.
Qed.

(** ** Pieces of a string *)

Lemma substring_split (k : nat) (s : string) :
  k <= String.length s ->
  substring 0 k s ++ substring k (String.length s - k) s = s.
Proof.
  revert k. induction s as [|a s IH]; intros [|k] Hk; simpl in *; try lia.
  - reflexivity.
  - f_equal. clear. induction s as [|b s IH]; simpl; [reflexivity | now rewrite IH].
  - f_equal. apply IH. lia.
Qed.

Lemma length_substring_0 (k : nat) (s : string) :
  k <= String.length s -> String.length (substring 0 k s) = k.
Proof.
  revert k. induction s as [|a s IH]; intros [|k] Hk; simpl in *; try lia.
  rewrite IH; lia.
Qed.

Lemma head_substring (a : ascii) (k : nat) (s : string) :
  0 < k -> starts_with a (substring 0 k s) = starts_with a s.
Proof. intros Hk. destruct s as [|b s], k as [|k]; simpl; try lia; reflexivity. Qed.

Lemma split_digits (k : nat) (s : string) :
  all_digits s = true -> k <= String.length s ->
  all_digits (substring 0 k s) = true /\
  all_digits (substring k (String.length s - k) s) = true.
Proof.
  intros Hd Hk. rewrite <- (substring_split k s Hk), all_digits_app in Hd.
  now apply andb_prop in Hd.
Qed.

(** ** Reading a numeral *)

Lemma digit_not_minus (a : ascii) : is_digit a = true -> Ascii.eqb a "-" = false.
Proof.
  intros H. destruct (Ascii.eqb_spec a "-") as [->|]; [discriminate H | reflexivity].
Qed.

Lemma match_unsigned_digits (i rest : string) :
  all_digits i = true -> i <> "" ->
  (starts_with "0" i = true -> i = "0") ->
  no_digit_next rest ->
  match_unsigned (i ++ rest) = Some (i, rest).
Proof.
  intros Hd Hne Hz Hr. destruct i as [|a i]; [now elim Hne|].
  cbn [append match_unsigned].
  simpl in Hd. apply andb_prop in Hd. destruct Hd as (Ha & Hd).
  destruct (Ascii.eqb_spec a "0") as [->|Hna].
  - assert (E : String "0" i = "0") by (apply Hz; reflexivity).
    injection E as ->. reflexivity.
  - rewrite Ha, (span_digits_stop i rest Hd Hr). reflexivity.
Qed.

Lemma match_integer_digits (s : bool) (i rest : string) :
  all_digits i = true -> i <> "" ->
  (starts_with "0" i = true -> i = "0") ->
  no_digit_next rest ->
  match_integer ((if s then "-" else "") ++ i ++ rest) =
  Some ((if s then "-" else "") ++ i, rest).
Proof.
  intros Hd Hne Hz Hr. destruct s.
  - cbn [append match_integer]. rewrite Ascii.eqb_refl.
    now rewrite (match_unsigned_digits i rest Hd Hne Hz Hr).
  - cbn [append]. destruct i as [|a i]; [now elim Hne|].
    pose proof (match_unsigned_digits (String a i) rest Hd Hne Hz Hr) as H.
    cbn [append] in *. unfold match_integer.
    simpl in Hd. apply andb_prop in Hd. destruct Hd as (Ha & _).
    now rewrite (digit_not_minus a Ha).
Qed.

Lemma match_frac_digits (fd rest : string) :
  all_digits fd = true -> fd <> "" -> no_digit_next rest ->
  match_frac (String "." (fd ++ rest)) = (String "." fd, rest).
Proof.
  intros Hd Hne Hr. destruct fd as [|b fd]; [now elim Hne|].
  simpl in Hd. apply andb_prop in Hd. destruct Hd as (Hb & Hd).
  cbn [append match_frac]. rewrite Ascii.eqb_refl, Hb. cbn [andb].
  now rewrite (span_digits_stop fd rest Hd Hr).
Qed.

Lemma match_frac_none (rest : string) :
  starts_with "." rest = false -> match_frac rest = ("", rest).
Proof.
  intros H. destruct rest as [|a [|b rest]]; try reflexivity.
  simpl in H. unfold match_frac.
  destruct (Ascii.eqb_spec a ".") as [->|]; [discriminate H | reflexivity].
Qed.

Lemma exponent_text_shape (e10 : Z) :
  exists (g : ascii) (ed : string),
    exponent_text e10 = String g ed /\
    (g = "-"%char /\ (e10 < 0)%Z \/ g = "+"%char /\ (0 <= e10)%Z) /\
    all_digits ed = true /\ ed <> "" /\ dval ed = Z.to_N (Z.abs e10).
Proof.
  unfold exponent_text.
  destruct (digits_string_nonneg (Z.abs e10) (Z.abs_nonneg e10)) as (H1 & H2 & H3).
  set (a := digits_string (Z.abs e10)) in *.
  exists (if (e10 <? 0)%Z then "-"%char else "+"%char),
         (if (Z.abs e10 <? 10)%Z then "0" ++ a else a).
  split; [now destruct (e10 <? 0)%Z|]. split.
  - destruct (Z.ltb_spec e10 0); [left | right]; now split.
  - destruct (Z.abs e10 <? 10)%Z.
    + split; [exact H1|]. split; [discriminate|].
      change ("0" ++ a) with (zeros 1 ++ a). now rewrite dval_lead_zeros.
    + now repeat split.
Qed.

Lemma match_exp_text (e10 : Z) :
  match_exp (String "e" (exponent_text e10)) = (String "e" (exponent_text e10), "").
Proof.
  destruct (exponent_text_shape e10) as (g & ed & -> & Hg & Hd & Hne & _).
  destruct ed as [|b ed]; [now elim Hne|].
  simpl in Hd. apply andb_prop in Hd. destruct Hd as (Hb & Hd).
  assert (Hsign : Ascii.eqb g "-" || Ascii.eqb g "+" = true).
  { destruct Hg as [(-> & _)|(-> & _)]; reflexivity. }
  unfold match_exp. cbn [Ascii.eqb orb]. 
  change (Ascii.eqb "e" "e") with true. cbv iota beta. cbn [orb].
  rewrite Hsign. unfold match_exp_digits. rewrite Hb.
  rewrite <- (append_nil_r ed) at 1.
  now rewrite (span_digits_stop ed "" Hd I).
Qed.

Lemma parse_int_digits (t : string) :
  all_digits t = true -> t <> "" ->
  parse_int t = Some (Z.of_N (dval t)) /\
  parse_int (String "-" t) = Some (- Z.of_N (dval t))%Z.
Proof.
  intros Hd Hne. destruct (uint_of_digits t Hd) as (d & Hu & Hv).
  destruct t as [|a t]; [now elim Hne|].
  assert (Ha : Ascii.eqb a "-" = false).
  { simpl in Hd. apply andb_prop in Hd. now apply digit_not_minus. }
  unfold parse_int, NilZero.int_of_string, NilZero.uint_of_string.
  rewrite Ascii.eqb_refl, Ha, Hu. cbn [option_map Z.of_int]. unfold Z.of_uint.
  change (Pos.of_uint d) with (N.of_uint d). now rewrite Hv.
Qed.

Lemma parse_exponent (e10 : Z) :
  let etext := exponent_text e10 in
  parse_int (if starts_with "+" etext then drop_first etext else etext) = Some e10.
Proof.
  cbv zeta.
  destruct (exponent_text_shape e10) as (g & ed & -> & Hg & Hd & Hne & Hv).
  destruct (parse_int_digits ed Hd Hne) as (Hp & Hm).
  destruct Hg as [(-> & Hlt)|(-> & Hge)]; cbn [starts_with drop_first].
  - change (Ascii.eqb "+" "-") with false. cbv iota. rewrite Hm, Hv. f_equal. lia.
  - change (Ascii.eqb "+" "+") with true. cbv iota. rewrite Hp, Hv. f_equal. lia.
Qed.

Lemma starts_with_sign (s : bool) (i : string) :
  all_digits i = true -> i <> "" ->
  starts_with "-" ((if s then "-" else "") ++ i) = s /\
  (if s then drop_first ((if s then "-" else "") ++ i)
   else (if s then "-" else "") ++ i) = i.
Proof.
  intros Hd Hne. destruct s; [now split|].
  destruct i as [|a i]; [now elim Hne|]. simpl in Hd.
  apply andb_prop in Hd. destruct Hd as (Ha & _).
  cbn [append starts_with]. split; [|reflexivity].
  rewrite Ascii.eqb_sym. now apply digit_not_minus.
Qed.

(** The text of a float: sign, integer digits, fraction digits and
    exponent, as the encoder lays them out, read by [scan_number]. *)
Lemma scan_float_text (s : bool) (i fd : string) (e10 : Z) (with_exp : bool) :
  all_digits i = true -> i <> "" ->
  (starts_with "0" i = true -> i = "0") ->
  all_digits fd = true ->
  (fd <> "" \/ with_exp = true) ->
  (with_exp = false -> e10 = 0%Z) ->
  scan_number ((if s then "-" else "") ++ i ++
               (match fd with "" => "" | _ => String "." fd end) ++
               (if with_exp then String "e" (exponent_text e10) else "")) =
  Some (JFloat (of_scientific s (dval (i ++ fd))
                              (e10 - Z.of_nat (String.length fd))), "").
Proof.
  intros Hi Hne Hz Hfd Hsome Hexp.
  set (frac := match fd with "" => "" | _ => String "." fd end).
  set (exp := if with_exp then String "e" (exponent_text e10) else "").
  assert (Hnext : no_digit_next (frac ++ exp)).
  { unfold frac, exp. destruct fd; [|reflexivity].
    destruct with_exp; reflexivity. }
  assert (Hnext' : no_digit_next exp).
  { unfold exp. destruct with_exp; reflexivity. }
  assert (Hfrac : match_frac (frac ++ exp) = (frac, exp)).
  { unfold frac. destruct fd as [|b fd'].
    - apply match_frac_none. unfold exp. now destruct with_exp.
    - apply (match_frac_digits (String b fd') exp);
        [exact Hfd | discriminate | exact Hnext']. }
  assert (Hex : match_exp exp = (exp, "")).
  { unfold exp. destruct with_exp; [apply match_exp_text | reflexivity]. }
  assert (Hmatch : match_number ((if s then "-" else "") ++ i ++ frac ++ exp) =
                   Some ((if s then "-" else "") ++ i, frac, exp, "")).
  { unfold match_number.
    now rewrite (match_integer_digits s i (frac ++ exp) Hi Hne Hz Hnext), Hfrac, Hex. }
  unfold scan_number. rewrite Hmatch.
  assert (Hnot : String.eqb frac "" && String.eqb exp "" = false).
  { unfold frac, exp. destruct fd; [|reflexivity].
    destruct Hsome as [H | ->]; [now elim H | reflexivity]. }
  rewrite Hnot. unfold parse_float.
  destruct (starts_with_sign s i Hi Hne) as (Hs1 & Hs2).
  rewrite Hs1, Hs2.
  assert (Hdrop : drop_first frac = fd) by (unfold frac; now destruct fd).
  rewrite Hdrop.
  assert (Hall : all_digits (i ++ fd) = true) by now rewrite all_digits_app, Hi, Hfd.
  destruct (uint_of_digits (i ++ fd) Hall) as (d & Hu & Hv).
  rewrite Hu.
  assert (He : (if String.eqb exp "" then Some 0%Z
                else parse_int (if starts_with "+" (drop_first exp)
                                then drop_first (drop_first exp)
                                else drop_first exp)) = Some e10).
  { unfold exp. destruct with_exp.
    - cbn [String.eqb drop_first]. apply parse_exponent.
    - rewrite (Hexp eq_refl). reflexivity. }
  rewrite He, Hv. reflexivity.
Qed.

(** ** Decimals of the same value *)

Lemma of_scientific_value (s : bool) (M1 M2 : N) (E1 E2 : Z) :
  M1 <> 0%N ->
  (inject_Z (Z.of_N M1) * 10 ^ E1 == inject_Z (Z.of_N M2) * 10 ^ E2)%Q ->
  of_scientific s M1 E1 = of_scientific s M2 E2.
Proof.
  intros Hne He. destruct M1 as [|p1]; [now elim Hne|].
  pose proof (pow10_pos E1) as H1. pose proof (pow10_pos E2) as H2.
  assert (Hp : (0 < inject_Z (Z.of_N (N.pos p1)) * 10 ^ E1)%Q).
  { apply Qmult_lt_0_compat; [reflexivity | exact H1]. }
  destruct M2 as [|p2].
  - exfalso. rewrite He in Hp. simpl in Hp.
    setoid_replace (inject_Z 0 * 10 ^ E2)%Q with 0%Q in Hp by ring.
    discriminate Hp.
  - cbn [of_scientific]. now apply nearest_comp.
Qed.

Lemma decimal_shift (D : N) (z : nat) (E : Z) :
  (inject_Z (Z.of_N (D * 10 ^ N.of_nat z)) * 10 ^ E ==
   inject_Z (Z.of_N D) * 10 ^ (E + Z.of_nat z))%Q.
Proof.
  rewrite N2Z.inj_mul, N2Z.inj_pow, nat_N_Z, inject_Z_mult.
  rewrite Zpower_Qpower by lia.
  rewrite pow10_plus. change (inject_Z (Z.of_N 10)) with 10%Q. ring.
Qed.

Lemma length_positive (s : string) : s <> "" -> 0 < String.length s.
Proof. destruct s; [congruence | simpl; lia]. Qed.

Lemma length_zero (s : string) : String.length s = 0 -> s = "".
Proof. destruct s; [reflexivity | discriminate]. Qed.

Lemma frac_text (fd : string) :
  fd <> "" -> match fd with "" => "" | _ => String "." fd end = String "." fd.
Proof. destruct fd; [congruence | reflexivity]. Qed.

Lemma starts_with_app (a : ascii) (s t : string) :
  s <> "" -> starts_with a (s ++ t) = starts_with a s.
Proof. destruct s; [congruence | reflexivity]. Qed.

Lemma false_not_true (b : bool) (P : Prop) : b = false -> b = true -> P.
Proof. congruence. Qed.

(** The layout of [float_repr] is read back as a decimal of the value
    the digits and the position of the point give. *)
Lemma format_reads (s : bool) (ds : string) (dp : Z) :
  all_digits ds = true -> ds <> "" -> starts_with "0" ds = false ->
  exists (M : N) (E : Z),
    scan_number ((if s then "-" else "") ++ format_repr ds dp) =
    Some (JFloat (of_scientific s M E), "") /\
    (inject_Z (Z.of_N M) * 10 ^ E ==
     inject_Z (Z.of_N (dval ds)) * 10 ^ (dp - Z.of_nat (String.length ds)))%Q.
Proof.
  intros Hd Hne Hh. unfold format_repr.
  pose proof (length_positive ds Hne) as Hlen.
  set (n := String.length ds) in *.
  destruct ((-4 <? dp)%Z && (dp <=? 16)%Z) eqn:Epos.
  - destruct (Z.leb_spec dp 0) as [Hle|Hgt].
    + (* 0.000ddd *)
      set (k := Z.to_nat (- dp)).
      pose proof (scan_float_text s "0" (zeros k ++ ds) 0 false) as H.
      rewrite frac_text in H by (destruct k; [exact Hne | discriminate]).
      cbn [append] in H. rewrite append_nil_r in H.
      eexists _, _. split.
      * cbn [append]. apply H;
          [reflexivity | discriminate | reflexivity
          | now rewrite all_digits_app, all_digits_zeros
          | left; destruct k; [exact Hne | discriminate]
          | reflexivity].
      * change (String "0" (zeros k ++ ds)) with (zeros (S k) ++ ds).
        rewrite dval_lead_zeros, length_append, length_zeros.
        fold n. replace (0 - Z.of_nat (k + n))%Z with (dp - Z.of_nat n)%Z by lia.
        reflexivity.
    + destruct (Z.ltb_spec dp (Z.of_nat n)) as [Hin|Hout].
      * (* ddd.ddd *)
        set (d := Z.to_nat dp).
        assert (Hdn : d <= n) by lia.
        destruct (split_digits d ds Hd Hdn) as (Hi & Hf).
        pose proof (substring_split d ds Hdn) as Hsplit.
        pose proof (length_substring_0 d ds Hdn) as Hli.
        fold n in Hsplit, Hf.
        replace (Z.to_nat (Z.of_nat n - dp)) with (n - d) by lia.
        set (i := substring 0 d ds) in *. set (fd := substring d (n - d) ds) in *.
        assert (Hlf : String.length fd = n - d).
        { assert (H : String.length (i ++ fd) = n) by now rewrite Hsplit.
          rewrite length_append in H. lia. }
        assert (Hfne : fd <> "").
        { intros E. rewrite E in Hlf. simpl in Hlf. lia. }
        assert (Hine : i <> "").
        { intros E. rewrite E in Hli. simpl in Hli. lia. }
        pose proof (scan_float_text s i fd 0 false) as H.
        rewrite (frac_text fd Hfne) in H. cbn [append] in H.
        rewrite append_nil_r in H.
        eexists _, _. split.
        -- apply H;
             [exact Hi | exact Hine
             | unfold i; rewrite head_substring by lia; now apply false_not_true
             | exact Hf | now left | reflexivity].
        -- rewrite Hsplit, Hlf.
           replace (0 - Z.of_nat (n - d))%Z with (dp - Z.of_nat n)%Z by lia.
           reflexivity.
      * (* ddd000.0 *)
        set (k := Z.to_nat (dp - Z.of_nat n)).
        pose proof (scan_float_text s (ds ++ zeros k) "0" 0 false) as H.
        cbn [append] in H. rewrite append_assoc in H.
        eexists _, _. split.
        -- apply H;
             [now rewrite all_digits_app, Hd, all_digits_zeros
             | destruct ds; [congruence | discriminate]
             | rewrite starts_with_app by exact Hne; now apply false_not_true
             | reflexivity | left; discriminate | reflexivity].
        -- rewrite (dval_app (ds ++ zeros k) "0"), (dval_app ds (zeros k)).
           rewrite dval_zeros, length_zeros. change (dval "0") with 0%N.
           change (String.length "0") with 1.
           replace (((dval ds * 10 ^ N.of_nat k + 0) * 10 ^ N.of_nat 1 + 0))%N
             with (dval ds * 10 ^ N.of_nat (S k))%N
             by (rewrite Nat2N.inj_succ, N.pow_succ_r'; change (N.of_nat 1) with 1%N; lia).
           rewrite decimal_shift. fold n.
           replace (0 - Z.of_nat 1 + Z.of_nat (S k))%Z with (dp - Z.of_nat n)%Z by lia.
           reflexivity.
  - (* d.ddde+XX *)
    assert (H1n : 1 <= n) by lia.
    destruct (split_digits 1 ds Hd H1n) as (Hi & Hf).
    pose proof (substring_split 1 ds H1n) as Hsplit.
    pose proof (length_substring_0 1 ds H1n) as Hli.
    fold n in Hsplit, Hf.
    replace (Z.to_nat (Z.of_nat n - 1)) with (n - 1) by lia.
    set (i := substring 0 1 ds) in *. set (fd := substring 1 (n - 1) ds) in *.
    assert (Hlf : String.length fd = n - 1).
    { assert (H : String.length (i ++ fd) = n) by now rewrite Hsplit.
      rewrite length_append in H. lia. }
    assert (Hine : i <> "").
    { intros E. rewrite E in Hli. simpl in Hli. lia. }
    pose proof (scan_float_text s i fd (dp - 1) true) as H.
    assert (Hshape : (if (1 <? Z.of_nat n)%Z then "." ++ fd else "") =
                     match fd with "" => "" | _ => String "." fd end).
    { destruct (Z.ltb_spec 1 (Z.of_nat n)) as [Hlt|Hge].
      - rewrite frac_text; [reflexivity|].
        intros E. rewrite E in Hlf. simpl in Hlf. lia.
      - rewrite (length_zero fd) by lia. reflexivity. }
    rewrite Hshape.
    eexists _, _. split.
    + apply H;
        [exact Hi | exact Hine
        | unfold i; rewrite head_substring by lia; now apply false_not_true
        | exact Hf | now right | discriminate].
    + rewrite Hsplit, Hlf.
      replace (dp - 1 - Z.of_nat (n - 1))%Z with (dp - Z.of_nat n)%Z by lia.
      reflexivity.
Qed.

(** [float()] reads back every finite binary64 value from its [repr]. *)
Lemma repr_round_trip (s : bool) (m : positive) (e : Z) :
  bounded prec emax m e = true ->
  scan_number (float_repr (S754_finite s m e)) = Some (JFloat (S754_finite s m e), "").
Proof.
  intros Hb. unfold float_repr.
  destruct (repr_digits s m e Hb) as (c & p & Hsh & Hback & Hp).
  cbv zeta in Hsh. rewrite Hsh.
  assert (Hc : (0 < c)%Z).
  { destruct c as [|pc|pc]; [discriminate Hback | lia | discriminate Hback]. }
  destruct (digits_string_pos c Hc) as (Hd & Hv & Hne & Hh).
  destruct (strip_trailing_zeros_spec (digits_string c) Hd Hh Hne)
    as (z & Hall & Hds & Hdsne & Hdsh).
  set (all := digits_string c) in *. set (ds := strip_trailing_zeros all) in *.
  set (decpt := find_decpt 8 (floor_log2 (F2Q m e) * 30103 / 100000 - 1) (F2Q m e)) in *.
  destruct (format_reads s ds (decpt + (Z.of_nat (String.length all) - p)) Hds Hdsne Hdsh)
    as (M & E & Hscan & Hval).
  rewrite Hscan.
  enough (Heq : of_scientific s M E = S754_finite s m e) by now rewrite Heq.
  rewrite <- Hback.
  assert (Hcval : Z.to_N c = (dval ds * 10 ^ N.of_nat z)%N).
  { rewrite <- Hv, Hall, dval_app, dval_zeros, length_zeros. lia. }
  assert (HM : M <> 0%N).
  { intros ->. 
    assert (Hds0 : dval ds <> 0%N).
    { intros E0. rewrite E0 in Hcval. simpl in Hcval. lia. }
    pose proof (pow10_pos E) as H1.
    pose proof (pow10_pos (decpt + (Z.of_nat (String.length all) - p) -
                           Z.of_nat (String.length ds))) as H2.
    assert (H3 : (0 < inject_Z (Z.of_N (dval ds)))%Q).
    { change 0%Q with (inject_Z 0). rewrite <- Zlt_Qlt. lia. }
    change (inject_Z (Z.of_N 0)) with 0%Q in Hval.
    nra. }
  apply of_scientific_value; [exact HM|].
  rewrite Hval, Hcval, decimal_shift.
  assert (Hlen : String.length all = String.length ds + z).
  { rewrite Hall at 1. now rewrite length_append, length_zeros. }
  replace (decpt + (Z.of_nat (String.length all) - p) - Z.of_nat (String.length ds))%Z
    with (decpt - p + Z.of_nat z)%Z by lia.
  reflexivity.
Qed.

End NumeralFacts.

(** ** Retention *)

Section Retention.
Context {A : Type}.
Variable max : nat.
Hypothesis max_positive : 0 < max.

Lemma retain_skipn (l : list A) :
  retain max l = skipn (List.length l - max) l.
Proof.
  unfold retain, last_n.
  destruct (Nat.ltb_spec max (List.length l)) as [Hlt|Hge].
  - destruct max eqn:E; [lia | reflexivity].
  - replace (List.length l - max) with 0 by lia. reflexivity.
Qed.

Lemma append_snapshot_skipn (h : list A) (s : A) :
  append_snapshot max h s = skipn (S (List.length h) - max) (h ++ [s]).
Proof.
  unfold append_snapshot. rewrite retain_skipn, length_app.
  change (List.length [s]) with 1.
  now replace (List.length h + 1) with (S (List.length h)) by lia.
Qed.

Lemma append_snapshot_length (h : list A) (s : A) :
  List.length (append_snapshot max h s) <= max.
Proof.
  rewrite append_snapshot_skipn, length_skipn, length_app.
  change (List.length [s]) with 1. lia.
Qed.

Lemma append_to_window (l : list A) (x : A) :
  append_snapshot max (skipn (List.length l - max) l) x =
  skipn (List.length (l ++ [x]) - max) (l ++ [x]).
Proof.
  rewrite append_snapshot_skipn, length_skipn, length_app.
  change (List.length [x]) with 1.
  destruct (Nat.lt_ge_cases (List.length l) max) as [Hlt|Hge].
  - replace (List.length l - max) with 0 by lia.
    replace (S (List.length l - 0) - max) with 0 by lia.
    now replace (List.length l + 1 - max) with 0 by lia.
  - replace (S (List.length l - (List.length l - max)) - max) with 1 by lia.
    replace (List.length l + 1 - max) with (1 + (List.length l - max)) by lia.
    rewrite <- skipn_skipn. f_equal.
    rewrite skipn_app.
    now replace (List.length l - max - List.length l) with 0 by lia.
Qed.

Lemma fold_append_snapshot (l : list A) :
  fold_left (append_snapshot max) l [] = skipn (List.length l - max) l.
Proof.
  induction l as [|x l IH] using rev_ind; [reflexivity|].
  rewrite fold_left_app. simpl. rewrite IH. apply append_to_window.
Qed.

End Retention.

(** ** The numbers of a snapshot the program builds *)

Lemma float_ok_round (x : float) (n : nat) :
  float_ok (py_round x n) = negb (is_nan (py_round x n)).
Proof. unfold float_ok. now rewrite py_round_valid, andb_true_r. Qed.

Lemma forallb_ext_in {A : Type} (p q : A -> bool) (l : list A) :
  (forall x, In x l -> p x = q x) -> forallb p l = forallb q l.
Proof.
  induction l as [|x l IH]; intros H; simpl; [reflexivity|].
  rewrite (H x (or_introl eq_refl)), IH; [reflexivity|].
  intros y Hy. apply H. now right.
Qed.

Lemma aggregate_ok (now : Z) (results : list fetch_result) :
  snapshot_ok (aggregate now results) = snapshot_numeric (aggregate now results).
Proof.
  unfold snapshot_ok, snapshot_numeric.
  assert (Hg : pynum_ok (gR (aggregate now results)) =
               pynum_numeric (gR (aggregate now results))).
  { change (gR (aggregate now results)) with (global_ratio (run_traders results)).
    unfold global_ratio. destruct (fltb fzero _); [|reflexivity].
    apply float_ok_round. }
  assert (Hc : forallb coin_ok (coins (aggregate now results)) =
               forallb coin_numeric (coins (aggregate now results))).
  { apply forallb_ext_in. intros s Hs.
    destruct (in_coins_entry now results s Hs) as (a & _ & Hsum).
    unfold summarize in Hsum. destruct (feqb _ _); [discriminate|].
    injection Hsum as <-. unfold coin_ok, coin_numeric. cbn [r t lN sN].
    now rewrite !float_ok_round. }
  rewrite Hg, Hc.
  change (tL (aggregate now results)) with (py_round (total_long (run_traders results)) 2).
  change (tS (aggregate now results)) with (py_round (total_short (run_traders results)) 2).
  now rewrite !float_ok_round.
Qed.

(** ** Strings *)

Section JsonFacts.
Local Open Scope string_scope.

Lemma strip_prefix_app (p rest : string) : strip_prefix p (p ++ rest) = Some rest.
Proof.
  induction p as [|x p IH]; simpl; [reflexivity|].
  now rewrite Ascii.eqb_refl.
Qed.

Lemma strip_prefix_sound (p s rest : string) :
  strip_prefix p s = Some rest -> s = p ++ rest.
Proof.
  revert s. induction p as [|x p IH]; simpl; intros s H.
  - now injection H as ->.
  - destruct s as [|y s]; [discriminate|].
    destruct (Ascii.eqb_spec x y) as [->|]; [|discriminate].
    now rewrite (IH s H).
Qed.

(** *** Strings survive *)

Lemma scanstring_escape_char (a : ascii) (s : string) :
  scanstring (escape_char a ++ s) = push a (scanstring s).
Proof.
  destruct a as [[] [] [] [] [] [] [] []]; reflexivity.
Qed.

Lemma scanstring_escape (s rest : string) :
  scanstring (escape s ++ String dquote rest) = Some (s, rest).
Proof.
  induction s as [|a s IH]; [reflexivity|].
  simpl escape. rewrite append_assoc, scanstring_escape_char, IH.
  reflexivity.
Qed.

(** *** White space *)

Lemma skip_ws_id (a : ascii) (s : string) :
  is_ws a = false -> skip_ws (String a s) = String a s.
Proof. intros H. simpl. now rewrite H. Qed.

(** *** Number tokens followed by more text *)

Lemma span_digits_ext (a rest : string) :
  delimited rest ->
  span_digits (a ++ rest) =
  (fst (span_digits a), snd (span_digits a) ++ rest).
Proof.
  intros Hd. induction a as [|x a IH]; simpl.
  - destruct rest as [|y rest]; [reflexivity|]. simpl.
    destruct Hd as (Hy & _). now rewrite Hy.
  - destruct (is_digit x); [|reflexivity].
    rewrite IH. now destruct (span_digits a).
Qed.

Lemma match_unsigned_ext (a rest i r : string) :
  delimited rest ->
  match_unsigned a = Some (i, r) ->
  match_unsigned (a ++ rest) = Some (i, r ++ rest).
Proof.
  intros Hd. destruct a as [|x a]; [discriminate|]. simpl.
  destruct (Ascii.eqb x "0").
  - intros H. now injection H as <- <-.
  - destruct (is_digit x); [|discriminate].
    rewrite (span_digits_ext a rest Hd).
    destruct (span_digits a) as [ds r']. simpl.
    intros H. now injection H as <- <-.
Qed.

Lemma match_integer_ext (a rest i r : string) :
  delimited rest ->
  match_integer a = Some (i, r) ->
  match_integer (a ++ rest) = Some (i, r ++ rest).
Proof.
  intros Hd. destruct a as [|x a]; [discriminate|].
  change (String x a ++ rest) with (String x (a ++ rest)).
  unfold match_integer. destruct (Ascii.eqb x "-").
  - destruct (match_unsigned a) as [[ds r']|] eqn:E; [|discriminate].
    rewrite (match_unsigned_ext a rest _ _ Hd E).
    intros H. now injection H as <- <-.
  - apply (match_unsigned_ext (String x a) rest _ _ Hd).
Qed.

Lemma match_frac_ext (a rest : string) :
  delimited rest ->
  match_frac (a ++ rest) = (fst (match_frac a), snd (match_frac a) ++ rest).
Proof.
  intros Hd. destruct a as [|x [|y a]].
  - destruct rest as [|u [|w rest]]; try reflexivity.
    simpl. destruct Hd as (_ & Hdot & _). now rewrite Hdot.
  - destruct rest as [|u rest]; [reflexivity|].
    simpl. destruct Hd as (Hu & _). rewrite Hu.
    now rewrite andb_false_r.
  - simpl. destruct (Ascii.eqb x "." && is_digit y); [|reflexivity].
    rewrite (span_digits_ext a rest Hd). now destruct (span_digits a).
Qed.

Lemma match_exp_digits_ext (e : ascii) (sg a s0 rest : string) :
  delimited rest ->
  match_exp_digits e sg (a ++ rest) (s0 ++ rest) =
  (fst (match_exp_digits e sg a s0), snd (match_exp_digits e sg a s0) ++ rest).
Proof.
  intros Hd. destruct a as [|x a].
  - destruct rest as [|u rest]; [reflexivity|].
    simpl. destruct Hd as (Hu & _). now rewrite Hu.
  - simpl. destruct (is_digit x); [|reflexivity].
    rewrite (span_digits_ext a rest Hd). now destruct (span_digits a).
Qed.

Lemma match_exp_ext (a rest : string) :
  delimited rest ->
  match_exp (a ++ rest) = (fst (match_exp a), snd (match_exp a) ++ rest).
Proof.
  intros Hd. destruct a as [|x a].
  - destruct rest as [|u rest]; [reflexivity|].
    simpl. destruct Hd as (_ & _ & He & HE & _). now rewrite He, HE.
  - change (String x a ++ rest) with (String x (a ++ rest)).
    unfold match_exp. destruct (Ascii.eqb x "e" || Ascii.eqb x "E"); [|reflexivity].
    destruct a as [|g a].
    + destruct rest as [|u rest]; [reflexivity|].
      simpl. destruct Hd as (Hu & _ & _ & _ & Hm & Hp). rewrite Hm, Hp. simpl.
      now rewrite Hu.
    + change (String g a ++ rest) with (String g (a ++ rest)). cbv iota.
      destruct (Ascii.eqb g "-" || Ascii.eqb g "+").
      * apply (match_exp_digits_ext x (String g "") a (String x (String g a)) rest Hd).
      * apply (match_exp_digits_ext x "" (String g a) (String x (String g a)) rest Hd).
Qed.

Lemma match_number_ext (a rest i fr ex : string) :
  delimited rest ->
  match_number a = Some (i, fr, ex, "") ->
  match_number (a ++ rest) = Some (i, fr, ex, rest).
Proof.
  intros Hd. unfold match_number.
  destruct (match_integer a) as [[i' r1]|] eqn:E1; [|discriminate].
  rewrite (match_integer_ext a rest _ _ Hd E1).
  rewrite (match_frac_ext r1 rest Hd).
  destruct (match_frac r1) as [fr' r2]. simpl.
  rewrite (match_exp_ext r2 rest Hd).
  destruct (match_exp r2) as [ex' r3]. simpl.
  intros H. injection H as <- <- <- ->. reflexivity.
Qed.


Lemma strip_prefix_exact (p s : string) : strip_prefix p s = Some "" -> s = p.
Proof.
  intros H. apply strip_prefix_sound in H. now rewrite append_nil_r in H.
Qed.

Lemma scan_number_ext (tok rest : string) (v : json) :
  delimited rest ->
  scan_number tok = Some (v, "") ->
  scan_number (tok ++ rest) = Some (v, rest).
Proof.
  intros Hd. unfold scan_number.
  destruct (match_number tok) as [[[[i fr] ex] r]|] eqn:E.
  - assert (r = "" -> match_number (tok ++ rest) = Some (i, fr, ex, rest)) as Hext.
    { intros ->. now apply match_number_ext. }
    destruct (String.eqb fr "" && String.eqb ex "") eqn:Ec.
    + destruct (parse_int i) eqn:Ep; [|discriminate].
      intros H. injection H as <- Hr. now rewrite (Hext Hr), Ec, Ep.
    + destruct (parse_float i fr ex) eqn:Ep; [|discriminate].
      intros H. injection H as <- Hr. now rewrite (Hext Hr), Ec, Ep.
  - destruct (strip_prefix "NaN" tok) as [r|] eqn:E1.
    { intros H. injection H as <- ->.
      apply strip_prefix_exact in E1. subst tok. reflexivity. }
    destruct (strip_prefix "Infinity" tok) as [r|] eqn:E2.
    { intros H. injection H as <- ->.
      apply strip_prefix_exact in E2. subst tok. reflexivity. }
    destruct (strip_prefix "-Infinity" tok) as [r|] eqn:E3; [|discriminate].
    intros H. injection H as <- ->.
    apply strip_prefix_exact in E3. subst tok. reflexivity.
Qed.

(** A text that reads as a number starts with none of the characters
    the scanner tests before it tries a number. *)
Ltac other_head c H :=
  match goal with
  | |- context [Ascii.eqb ?a c] =>
      let E := fresh "E" in
      destruct (Ascii.eqb a c) eqn:E;
      [apply Ascii.eqb_eq in E; subst c; simpl in H; discriminate H|]
  | |- context [Ascii.eqb c ?a] =>
      let E := fresh "E" in
      destruct (Ascii.eqb c a) eqn:E;
      [apply Ascii.eqb_eq in E; subst c; simpl in H; discriminate H|]
  end.

Lemma scan_atom_number (s : string) (x : json * string) :
  scan_number s = Some x -> scan_atom s = Some x.
Proof.
  intros H. destruct s as [|ch s]; [discriminate H|].
  unfold scan_atom. cbn [strip_prefix].
  repeat (other_head ch H; cbv beta iota). exact H.
Qed.

Lemma scan_body_number arr obj (s : string) (x : json * string) :
  scan_number s = Some x -> scan_body arr obj s = Some x.
Proof.
  intros H. destruct s as [|ch s]; [discriminate H|].
  unfold scan_body.
  repeat (other_head ch H; cbv beta iota). now apply scan_atom_number.
Qed.

(** A text that the scanner reads starts with no white space. *)
Lemma scan_body_no_ws arr obj (s : string) (x : json * string) :
  scan_body arr obj s = Some x -> skip_ws s = s.
Proof.
  destruct s as [|ch s]; [discriminate|]. intros H.
  apply skip_ws_id. unfold is_ws.
  repeat match goal with
  | |- context [Ascii.eqb ch ?a] =>
      let E := fresh "E" in
      destruct (Ascii.eqb ch a) eqn:E;
      [apply Ascii.eqb_eq in E; subst ch; discriminate H|]
  end.
  reflexivity.
Qed.

Lemma scan_once_no_ws fuel (s : string) (x : json * string) :
  scan_once fuel s = Some x -> skip_ws s = s.
Proof.
  destruct fuel as [|fuel]; [discriminate|]. apply scan_body_no_ws.
Qed.

(** Nor does it start with a closing bracket. *)
Lemma scan_once_head fuel (ch : ascii) (s : string) (x : json * string) :
  scan_once fuel (String ch s) = Some x -> Ascii.eqb ch "]" = false.
Proof.
  destruct fuel as [|fuel]; [discriminate|]. intros H.
  destruct (Ascii.eqb ch "]") eqn:E; [|reflexivity].
  apply Ascii.eqb_eq in E. subst ch. discriminate H.
Qed.

(** *** Integers survive *)

Lemma span_digits_uint (d : Decimal.uint) :
  span_digits (NilEmpty.string_of_uint d) = (NilEmpty.string_of_uint d, "").
Proof.
  induction d; simpl; try reflexivity; now rewrite IHd.
Qed.

Lemma match_unsigned_pos (p : positive) :
  match_unsigned (NilZero.string_of_uint (Pos.to_uint p)) =
  Some (NilZero.string_of_uint (Pos.to_uint p), "").
Proof.
  pose proof (to_uint_head p) as H.
  destruct (Pos.to_uint p) as [|u|u|u|u|u|u|u|u|u|u]; try contradiction;
    unfold NilZero.string_of_uint; cbn [NilEmpty.string_of_uint match_unsigned];
    rewrite span_digits_uint; reflexivity.
Qed.

Lemma match_number_int (z : Z) :
  match_number (int_repr z) = Some (int_repr z, "", "", "").
Proof.
  unfold match_number, int_repr.
  destruct z as [|p|p]; [reflexivity| |].
  - cbn [Z.to_int NilZero.string_of_int].
    pose proof (match_unsigned_pos p) as H.
    unfold match_integer.
    destruct (NilZero.string_of_uint (Pos.to_uint p)) as [|a s] eqn:E;
      [discriminate|].
    destruct (Ascii.eqb a "-") eqn:Ea.
    + apply Ascii.eqb_eq in Ea. subst a. discriminate H.
    + rewrite H. reflexivity.
  - cbn [Z.to_int NilZero.string_of_int match_integer].
    rewrite Ascii.eqb_refl, match_unsigned_pos. reflexivity.
Qed.

Lemma parse_int_repr (z : Z) : parse_int (int_repr z) = Some z.
Proof.
  unfold parse_int, int_repr. rewrite NilZero.isi.
  - simpl. now rewrite DecimalZ.of_to.
  - destruct z; simpl; try discriminate.
    intros H. injection H as H.
    now apply (DecimalPos.Unsigned.to_uint_nonnil p).
  - destruct z; simpl; try discriminate.
    intros H. injection H as H.
    now apply (DecimalPos.Unsigned.to_uint_nonnil p).
Qed.

Lemma scan_number_int (z : Z) : scan_number (int_repr z) = Some (JInt z, "").
Proof.
  unfold scan_number. rewrite match_number_int. simpl.
  now rewrite parse_int_repr.
Qed.

(** *** Floats survive *)

Lemma scan_number_float (x : float) :
  float_ok x = true -> scan_number (floatstr x) = Some (JFloat x, "").
Proof.
  unfold float_ok. intros H. apply andb_prop in H. destruct H as (Hnan & Hv).
  destruct x as [s|s| |s m e].
  - destruct s; reflexivity.
  - destruct s; reflexivity.
  - discriminate Hnan.
  - apply repr_round_trip. exact Hv.
Qed.

(** A number token is read back inside a longer text. *)
Lemma scan_once_token fuel (tok rest : string) (v : json) :
  scan_number tok = Some (v, "") ->
  delimited rest ->
  scan_once (S fuel) (tok ++ rest) = Some (v, rest).
Proof.
  intros H Hd. cbn [scan_once]. apply scan_body_number.
  now apply scan_number_ext.
Qed.

(** *** Induction on documents *)

Section JsonInduction.
Variable P : json -> Prop.
Hypothesis P_null : P JNull.
Hypothesis P_bool : forall b, P (JBool b).
Hypothesis P_int : forall z, P (JInt z).
Hypothesis P_float : forall x, P (JFloat x).
Hypothesis P_str : forall s, P (JStr s).
Hypothesis P_list : forall l, Forall P l -> P (JList l).
Hypothesis P_dict : forall d, Forall (fun kv => P (snd kv)) d -> P (JDict d).

Fixpoint json_ind (v : json) : P v :=
  match v with
  | JNull => P_null
  | JBool b => P_bool b
  | JInt z => P_int z
  | JFloat x => P_float x
  | JStr s => P_str s
  | JList l =>
      P_list l ((fix all (l : list json) : Forall P l :=
                   match l with
                   | [] => @Forall_nil _ P
                   | x :: l' => @Forall_cons _ P x l' (json_ind x) (all l')
                   end) l)
  | JDict d =>
      P_dict d ((fix all (d : list (string * json)) :
                   Forall (fun kv => P (snd kv)) d :=
                   match d with
                   | [] => @Forall_nil _ (fun kv => P (snd kv))
                   | kv :: d' =>
                       @Forall_cons _ (fun kv => P (snd kv)) kv d'
                                    (json_ind (snd kv)) (all d')
                   end) d)
  end.
End JsonInduction.

(** *** Dictionaries with distinct keys are rebuilt as they were *)

Lemma unique_keys_NoDup (ks : list string) : unique_keys ks = true -> NoDup ks.
Proof.
  induction ks as [|k ks IH]; simpl; intros H; [constructor|].
  apply andb_prop in H. destruct H as (Hk & Hks).
  constructor; [|now apply IH].
  intros Hin. apply negb_true_iff in Hk.
  assert (existsb (String.eqb k) ks = true) as Hex.
  { apply existsb_exists. exists k. split; [exact Hin | apply String.eqb_refl]. }
  congruence.
Qed.

Lemma dict_put_fresh (k : string) (v : json) (d : list (string * json)) :
  ~ In k (map fst d) -> dict_put k v d = (d ++ [(k, v)])%list.
Proof.
  induction d as [|[k' v'] d IH]; simpl; intros Hk; [reflexivity|].
  destruct (String.eqb_spec k k') as [->|Hne]; [tauto|].
  rewrite IH; [reflexivity | tauto].
Qed.

Lemma fold_dict_put (d : list (string * json)) : forall acc,
  NoDup (map fst (acc ++ d)%list) ->
  fold_left (fun d kv => dict_put (fst kv) (snd kv) d) d acc = (acc ++ d)%list.
Proof.
  induction d as [|[k v] d IH]; intros acc Hnd; simpl.
  - now rewrite List.app_nil_r.
  - rewrite dict_put_fresh.
    + rewrite IH; rewrite <- List.app_assoc; [reflexivity | exact Hnd].
    + rewrite map_app in Hnd. simpl in Hnd.
      apply NoDup_remove_2 in Hnd. intros Hin. apply Hnd.
      apply in_or_app. now left.
Qed.

Lemma dict_of_pairs_unique (d : list (string * json)) :
  unique_keys (map fst d) = true -> dict_of_pairs d = d.
Proof.
  intros H. unfold dict_of_pairs. rewrite fold_dict_put; [reflexivity|].
  now apply unique_keys_NoDup.
Qed.

(** *** Documents survive *)

Lemma delimited_close (a : ascii) (rest : string) :
  a = "]"%char \/ a = "}"%char \/ a = ","%char -> delimited (String a rest).
Proof. intros [->|[->| ->]]; repeat split. Qed.

Lemma array_loop_no_ws fuel (s : string) x :
  array_loop fuel s = Some x -> skip_ws s = s.
Proof.
  destruct fuel as [|fuel]; [discriminate|]. cbn [array_loop]. unfold array_body.
  destruct (scan_once fuel s) as [[v s1]|] eqn:E; [|discriminate].
  intros _. now apply (scan_once_no_ws fuel s (v, s1)).
Qed.

Lemma array_loop_head fuel (s : string) x :
  array_loop fuel s = Some x ->
  exists a s', s = String a s' /\ Ascii.eqb a "]" = false.
Proof.
  destruct fuel as [|fuel]; [discriminate|]. cbn [array_loop]. unfold array_body.
  destruct (scan_once fuel s) as [[v s1]|] eqn:E; [|discriminate].
  intros _. destruct s as [|a s'].
  - destruct fuel; discriminate E.
  - exists a, s'. split; [reflexivity|]. now apply (scan_once_head fuel a s' (v, s1)).
Qed.

(** Tests on known characters are evaluated. *)
Ltac decide_chars :=
  repeat (cbn [skip_ws];
          match goal with
          | |- context [is_ws ?a] =>
              let b := eval vm_compute in (is_ws a) in
              lazymatch b with
              | true => change (is_ws a) with true
              | false => change (is_ws a) with false
              end
          | |- context [Ascii.eqb ?a ?a'] =>
              let b := eval vm_compute in (Ascii.eqb a a') in
              lazymatch b with
              | true => change (Ascii.eqb a a') with true
              | false => change (Ascii.eqb a a') with false
              end
          end;
          cbv beta iota).

Lemma concat_cons2 (sep x y : string) (l : list string) :
  concat sep (x :: y :: l) = x ++ sep ++ concat sep (y :: l).
Proof. reflexivity. Qed.

Lemma array_loop_reads (l : list json) :
  l <> [] ->
  Forall reads_back l ->
  forall fuel rest,
    String.length (concat "," (map dumps l)) + 1 < fuel ->
    array_loop fuel (concat "," (map dumps l) ++ String "]" rest) = Some (l, rest).
Proof.
  induction l as [|x l IH]; [congruence|]. intros _ Hall fuel rest Hlen.
  inversion Hall as [|? ? Hx Hl]; subst.
  destruct fuel as [|fuel]; [lia|]. cbn [array_loop]. unfold array_body.
  destruct l as [|y l].
  - cbn [map concat] in *.
    rewrite (Hx fuel (String "]" rest)); [| lia | apply delimited_close; auto].
    reflexivity.
  - cbn [map] in *. rewrite concat_cons2 in *.
    rewrite length_append in Hlen. cbn [String.length append] in Hlen.
    rewrite !append_assoc. cbn [append].
    rewrite (Hx fuel); [| lia | apply delimited_close; auto].
    decide_chars.
    assert (Hrec : array_loop fuel
                     (concat "," (dumps y :: map dumps l) ++ String "]" rest) =
                   Some (y :: l, rest)).
    { apply IH; [discriminate | exact Hl | lia]. }
    rewrite (array_loop_no_ws _ _ _ Hrec), Hrec. reflexivity.
Qed.

Lemma encode_item_shape (k : string) (v : json) :
  encode_item dumps (k, v) =
  String dquote (escape k ++ String dquote (String ":" (dumps v))).
Proof.
  unfold encode_item, encode_basestring_ascii. cbn [fst snd append].
  now rewrite append_assoc.
Qed.

Lemma object_loop_reads (d : list (string * json)) :
  d <> [] ->
  Forall (fun kv => reads_back (snd kv)) d ->
  forall fuel rest,
    String.length (concat "," (map (encode_item dumps) d)) + 1 < fuel ->
    exists tail,
      concat "," (map (encode_item dumps) d) ++ String "}" rest = String dquote tail /\
      object_loop fuel tail = Some (d, rest).
Proof.
  induction d as [|[k v] d IH]; [congruence|]. intros _ Hall fuel rest Hlen.
  inversion Hall as [|? ? Hv Hd]; subst. cbn [snd] in Hv.
  destruct fuel as [|fuel]; [lia|].
  destruct d as [|kv d].
  - cbn [map concat] in *. rewrite encode_item_shape in *.
    cbn [String.length] in Hlen. rewrite length_append in Hlen.
    cbn [String.length] in Hlen.
    eexists. split; [cbn [append]; reflexivity|].
    rewrite append_assoc. cbn [append object_loop]. unfold object_body.
    rewrite scanstring_escape. decide_chars.
    assert (Hread : scan_once fuel (dumps v ++ String "}" rest) =
                    Some (v, String "}" rest)).
    { apply Hv; [lia | apply delimited_close; auto]. }
    rewrite (scan_once_no_ws _ _ _ Hread), Hread. decide_chars.
    reflexivity.
  - cbn [map] in *. rewrite concat_cons2 in *. rewrite encode_item_shape in *.
    rewrite length_append in Hlen. cbn [String.length append] in Hlen.
    rewrite length_append in Hlen. cbn [String.length] in Hlen.
    destruct (IH ltac:(discriminate) Hd fuel rest ltac:(lia)) as (tail & Htail & Hobj).
    eexists. split.
    + rewrite !append_assoc. cbn [append]. rewrite !append_assoc. cbn [append].
      rewrite Htail. reflexivity.
    + cbn [object_loop]. unfold object_body.
      rewrite scanstring_escape. decide_chars.
      assert (Hread : scan_once fuel (dumps v ++ String "," (String dquote tail)) =
                      Some (v, String "," (String dquote tail))).
      { apply Hv; [lia | apply delimited_close; auto]. }
      rewrite (scan_once_no_ws _ _ _ Hread), Hread. decide_chars.
      rewrite Hobj. reflexivity.
Qed.

Lemma Forall_valid (A : Type) (f : A -> json) (l : list A) :
  Forall (fun x => valid_json (f x) = true -> reads_back (f x)) l ->
  forallb (fun x => valid_json (f x)) l = true ->
  Forall (fun x => reads_back (f x)) l.
Proof.
  intros H Hv. rewrite forallb_forall in Hv. rewrite Forall_forall in *.
  intros x Hx. apply H; [exact Hx | now apply Hv].
Qed.

(** Every valid document is read back from its encoding. *)
Lemma scan_dumps (v : json) : valid_json v = true -> reads_back v.
Proof.
  induction v as [| b | z | x | s | l IH | d IH] using json_ind;
    intros Hv fuel rest Hlen Hd;
    (destruct fuel as [|fuel]; [lia|]).
  - reflexivity.
  - destruct b; reflexivity.
  - apply scan_once_token; [apply scan_number_int | exact Hd].
  - apply scan_once_token; [now apply scan_number_float | exact Hd].
  - cbn [dumps]. unfold encode_basestring_ascii. cbn [append].
    rewrite append_assoc. cbn [append scan_once]. unfold scan_body.
    rewrite Ascii.eqb_refl, scanstring_escape. reflexivity.
  - cbn [valid_json] in Hv.
    assert (Hall : Forall reads_back l).
    { apply (Forall_valid json (fun x => x)); assumption. }
    destruct l as [|x l]; [reflexivity|].
    cbn [dumps] in *. cbn [append String.length] in *.
    rewrite length_append in Hlen. cbn [String.length] in Hlen.
    rewrite append_assoc. cbn [append].
    assert (Harr : array_loop fuel
                     (concat "," (map dumps (x :: l)) ++ String "]" rest) =
                   Some (x :: l, rest)).
    { apply array_loop_reads; [discriminate | exact Hall | lia]. }
    cbn [scan_once]. unfold scan_body.
    change (Ascii.eqb "[" dquote) with false.
    change (Ascii.eqb "[" "{") with false.
    change (Ascii.eqb "[" "[") with true. cbv beta iota.
    rewrite (array_loop_no_ws _ _ _ Harr).
    destruct (array_loop_head _ _ _ Harr) as (a & s' & Heq & Ha).
    rewrite Heq in *. rewrite Ha, Harr. reflexivity.
  - cbn [valid_json] in Hv. apply andb_prop in Hv. destruct Hv as (Hkeys & Hv).
    assert (Hall : Forall (fun kv => reads_back (snd kv)) d).
    { apply (Forall_valid (string * json) snd); assumption. }
    destruct d as [|kv d]; [reflexivity|].
    cbn [dumps] in *. cbn [append String.length] in *.
    rewrite length_append in Hlen. cbn [String.length] in Hlen.
    rewrite append_assoc. cbn [append].
    destruct (object_loop_reads (kv :: d) ltac:(discriminate) Hall fuel rest
                                ltac:(lia)) as (tail & Htail & Hobj).
    rewrite Htail.
    cbn [scan_once]. unfold scan_body. decide_chars.
    rewrite Hobj. now rewrite dict_of_pairs_unique.
Qed.

(** [json.loads(json.dumps(v))] is [v]. *)
Lemma loads_dumps (v : json) : valid_json v = true -> loads (dumps v) = Some v.
Proof.
  intros Hv. unfold loads.
  assert (Hread : scan_once (S (S (String.length (dumps v)))) (dumps v) =
                  Some (v, "")).
  { rewrite <- (append_nil_r (dumps v)) at 2.
    apply scan_dumps; [exact Hv | lia | exact I]. }
  rewrite (scan_once_no_ws _ _ _ Hread), Hread. reflexivity.
Qed.

(** *** Histories *)

Lemma valid_coin_json (s : coin_summary) :
  valid_json (coin_json s) = coin_ok s.
Proof.
  unfold coin_json, coin_ok. cbn [valid_json map fst snd forallb].
  change (unique_keys ["c"; "r"; "t"; "lN"; "sN"; "lT"; "sT"]) with true.
  cbn [andb]. now rewrite !andb_true_r, !andb_assoc.
Qed.

Lemma valid_snapshot_json (s : snapshot) :
  valid_json (snapshot_json s) = snapshot_ok s.
Proof.
  unfold snapshot_json, snapshot_ok. cbn [valid_json map fst snd forallb].
  change (unique_keys ["ts"; "gR"; "tL"; "tS"; "traders"; "coins"]) with true.
  cbn [andb]. rewrite !andb_true_r, !andb_assoc.
  assert (Hg : valid_json (pynum_json (gR s)) = pynum_ok (gR s))
    by now destruct (gR s).
  rewrite Hg. repeat f_equal.
  induction (coins s) as [|x l IH]; [reflexivity|].
  cbn [map forallb]. now rewrite valid_coin_json, IH.
Qed.

Lemma valid_history_json (h : list snapshot) :
  valid_history h = true -> valid_json (history_json h) = true.
Proof.
  unfold valid_history. intros H. apply andb_prop in H. destruct H as (H & _).
  unfold history_json. cbn [valid_json].
  induction h as [|s h IH]; [reflexivity|].
  cbn [map forallb] in *. apply andb_prop in H. destruct H as (Hs & H).
  now rewrite valid_snapshot_json, Hs, IH.
Qed.

Lemma load_save (snaps : json) (f : file_state) :
  valid_json snaps = true ->
  load_snapshots (save_snapshots snaps f) = Returned snaps.
Proof.
  intros Hv. unfold load_snapshots, save_snapshots, read_json. cbn [file_exists read_text].
  now rewrite loads_dumps.
Qed.

Lemma write_text_returned (data : string) (w : write_fate) (f : file_state) :
  fst (write_text data w f) = Returned tt ->
  snd (write_text data w f) = Content data.
Proof.
  unfold write_text. destruct (writable f); [|discriminate].
  destruct w; [reflexivity | discriminate | discriminate].
Qed.

Lemma substring_all (s : string) : substring 0 (String.length s) s = s.
Proof. induction s as [|a s IH]; simpl; [reflexivity | now rewrite IH]. Qed.

Lemma substring_prefix (n : nat) (s : string) :
  exists suffix, s = substring 0 n s ++ suffix.
Proof.
  revert n. induction s as [|a s IH]; intros [|n]; simpl.
  - now exists "".
  - now exists "".
  - now exists (String a s).
  - destruct (IH n) as (suffix & H). exists suffix. now rewrite <- H.
Qed.

Lemma forallb_skipn (A : Type) (p : A -> bool) (n : nat) (l : list A) :
  forallb p l = true -> forallb p (skipn n l) = true.
Proof.
  intros H. rewrite forallb_forall in *. intros x Hx. apply H.
  rewrite <- (firstn_skipn n l). apply in_or_app. now right.
Qed.

Lemma valid_append_snapshot (l : list json) (a : json) :
  valid_json (JList l) = true -> valid_json a = true ->
  valid_json (JList (append_snapshot MAX_SNAPS l a)) = true.
Proof.
  cbn [valid_json]. intros Hl Ha.
  rewrite append_snapshot_skipn by (unfold MAX_SNAPS; lia).
  apply forallb_skipn. rewrite forallb_app, Hl. cbn [forallb]. now rewrite Ha.
Qed.

(** *** What [take_snapshot] leaves in the file *)

Lemma take_snapshot_stores (now : Z) (results : list fetch_result)
      (f : file_state) (snaps : list json) :
  load_snapshots f = Returned (JList snaps) ->
  writable f = true ->
  take_snapshot (Returned results) now Completes f =
  (Returned (aggregate now results),
   Content (dumps (JList (append_snapshot MAX_SNAPS snaps
                            (snapshot_json (aggregate now results)))))).
Proof.
  intros H Hw. unfold take_snapshot, store_snapshot, write_text.
  now rewrite H, Hw.
Qed.

Lemma take_snapshot_no_leaderboard (now : Z) (w : write_fate) (f : file_state) :
  take_snapshot Raised now w f = (Raised, f).
Proof. reflexivity. Qed.

End JsonFacts.
(** * Properties of the aggregation *)

(** The concrete scenario: A holds 1000 of BTC long and B 500 short. *)
Example concrete_scenario :
  aggregate 7 batch_AB =
  mkSnap 7 (PyFloat (of_scientific false 6667 (-4)))
         (of_Z 1000) (of_Z 500) 2
         [mkCoin "BTC" (of_scientific false 6667 (-4))
                 (of_Z 1500) (of_Z 1000) (of_Z 500) 1 1].
Proof. reflexivity. Qed.

(** ** Global ratio *)

(** C1. With [T_long] and [T_short] the sums of the notional values of
    the long and of the short records the batch contributes, the
    snapshot's [gR] is [round(T_long / (T_long + T_short), 4)] when
    [T_long + T_short > 0] and the integer [0] when [T_long + T_short]
    is zero; an empty trader list gives no coins, ratio [0] and no trader
    loaded. *)
Theorem global_ratio_spec (now : Z) (results : list fetch_result) :
  let l := contributions results in
  let T_long := side_total is_long l in
  let T_short := side_total is_short l in
  (fltb fzero (fadd T_long T_short) = true ->
   gR (aggregate now results) =
   PyFloat (py_round (fdiv T_long (fadd T_long T_short)) 4)) /\
  (feqb (fadd T_long T_short) fzero = true ->
   gR (aggregate now results) = PyInt 0) /\
  coins (aggregate now []) = [] /\
  gR (aggregate now []) = PyInt 0 /\
  traders (aggregate now []) = 0.
Proof.
  intros l T_long T_short.
  assert (Hl : total_long (run_traders results) = T_long).
  { pose proof (run_traders_sums results) as Hs. unfold sums in Hs.
    injection Hs as _ Htl _. rewrite Htl. apply total_long_apply_all. }
  assert (Hs : total_short (run_traders results) = T_short).
  { pose proof (run_traders_sums results) as Hs. unfold sums in Hs.
    injection Hs as _ _ Hts. rewrite Hts. apply total_short_apply_all. }
  assert (Hg : gR (aggregate now results) =
               if fltb fzero (fadd T_long T_short)
               then PyFloat (py_round (fdiv T_long (fadd T_long T_short)) 4)
               else PyInt 0).
  { change (gR (aggregate now results)) with (global_ratio (run_traders results)).
    unfold global_ratio. now rewrite Hl, Hs. }
  split; [|split; [|repeat split]].
  - intros Hpos. now rewrite Hg, Hpos.
  - intros Hz. now rewrite Hg, (feqb_zero_not_pos _ Hz).
Qed.

Lemma global_ratio_spec_witness :
  gR (aggregate 0 batch_AB) = PyFloat (of_scientific false 6667 (-4)) /\
  gR (aggregate 0 [FetchRaises]) = PyInt 0.
Proof.
  split.
  - apply (proj1 (global_ratio_spec 0 batch_AB)). reflexivity.
  - apply (proj1 (proj2 (global_ratio_spec 0 [FetchRaises]))). reflexivity.
Defined.

(** ** Per-asset figures *)

(** C2, as the code has it.  For every asset [s] of a snapshot, with [L]
    and [S] the sums of the long and short notional values contributed to
    it: [L + S] is not zero, the ratio is [round(L / (L + S), 4)], the
    three notional fields are [L + S], [L] and [S] rounded to 2 places,
    and each trader count is the number of contributed records on that
    side; it is the number of distinct traders when no trader contributes
    two records to the same side of the asset. *)
Theorem asset_summary_spec (now : Z) (results : list fetch_result) (s : coin_summary) :
  In s (coins (aggregate now results)) ->
  let l := contributions results in
  let L := asset_total is_long (c s) l in
  let S := asset_total is_short (c s) l in
  feqb (fadd L S) fzero = false /\
  r s = py_round (fdiv L (fadd L S)) 4 /\
  t s = py_round (fadd L S) 2 /\
  lN s = py_round L 2 /\
  sN s = py_round S 2 /\
  lT s = record_count is_long (c s) l /\
  sT s = record_count is_short (c s) l /\
  (single_sided is_long (c s) l -> lT s = distinct_traders is_long (c s) l) /\
  (single_sided is_short (c s) l -> sT s = distinct_traders is_short (c s) l).
Proof.
  intros Hin l L S.
  destruct (in_coins_entry now results s Hin) as (a & Ha & Hsum).
  destruct (coin_data_entry results (c s) a Ha) as (H1 & H2 & H3 & H4).
  fold l in H1, H2, H3, H4. fold L in H1. fold S in H2.
  unfold summarize in Hsum. rewrite H1, H2 in Hsum.
  destruct (feqb (fadd L S) fzero) eqn:E; [discriminate|].
  injection Hsum as Hs. rewrite <- Hs. cbn [c r t lN sN lT sT].
  rewrite H3, H4.
  repeat split.
  - intros Hnd. unfold distinct_traders, record_count.
    rewrite (nodup_fixed_point Nat.eq_dec Hnd). now rewrite length_map.
  - intros Hnd. unfold distinct_traders, record_count.
    rewrite (nodup_fixed_point Nat.eq_dec Hnd). now rewrite length_map.
Qed.

Lemma asset_summary_spec_witness :
  exists s, In s (coins (aggregate 0 batch_AB)) /\
            c s = "BTC"%string /\
            r s = of_scientific false 6667 (-4) /\
            lT s = 1 /\ sT s = 1 /\
            lT s = distinct_traders is_long (c s) (contributions batch_AB).
Proof.
  assert (Hin : In (hd (mkCoin "" fzero fzero fzero fzero 0 0)
                       (coins (aggregate 0 batch_AB)))
                   (coins (aggregate 0 batch_AB))) by (left; reflexivity).
  eexists. split; [exact Hin|].
  pose proof (asset_summary_spec 0 batch_AB _ Hin) as H.
  cbv zeta in H.
  destruct H as (_ & Hr & _ & _ & _ & Hl & Hs & Hd & _).
  split; [reflexivity|].
  split; [rewrite Hr; reflexivity|].
  split; [rewrite Hl; reflexivity|].
  split; [rewrite Hs; reflexivity|].
  apply Hd. repeat constructor. simpl. tauto.
Defined.

(** The count is per record: a trader with two long BTC records is
    counted twice, so [lT] is not the number of distinct traders. *)
Lemma trader_count_counterexample :
  exists s, In s (coins (aggregate 0 batch_twice)) /\
            lT s = 2 /\
            distinct_traders is_long (c s) (contributions batch_twice) = 1 /\
            lT s <> distinct_traders is_long (c s) (contributions batch_twice).
Proof.
  eexists. split; [left; reflexivity|].
  split; [reflexivity|]. split; [reflexivity|]. discriminate.
Qed.

(** ** A failed fetch *)

(** C5, as the code has it.  A trader whose fetch raises, or whose answer
    is empty or has no [assetPositions], leaves no trace in the snapshot:
    with or without that trader in the batch the snapshot is the same,
    coin list, totals, ratio and number of traders loaded included.  The
    number of traders loaded counts the traders whose positions were gone
    through without an exception, so a failed fetch is not in it.  The
    error counter, which no snapshot field shows, goes up by one for a
    fetch that raises and stays as it is for an answer that is empty or
    has no [assetPositions].  The loop goes on to the traders that
    follow. *)
Theorem failed_fetch_is_skipped (now : Z) (xs ys : list fetch_result) :
  aggregate now (xs ++ FetchRaises :: ys) = aggregate now (xs ++ ys) /\
  aggregate now (xs ++ NoAssetPositions :: ys) = aggregate now (xs ++ ys) /\
  traders (aggregate now (xs ++ FetchRaises :: ys)) =
  List.length (filter answers (xs ++ ys)) /\
  traders (aggregate now (xs ++ NoAssetPositions :: ys)) =
  List.length (filter answers (xs ++ ys)) /\
  errors (run_traders (xs ++ FetchRaises :: ys)) = S (errors (run_traders (xs ++ ys))) /\
  errors (run_traders (xs ++ NoAssetPositions :: ys)) = errors (run_traders (xs ++ ys)).
Proof.
  assert (H : aggregate now (xs ++ FetchRaises :: ys) = aggregate now (xs ++ ys)).
  { unfold aggregate. now rewrite run_traders_skip_raise. }
  assert (H' : aggregate now (xs ++ NoAssetPositions :: ys) = aggregate now (xs ++ ys)).
  { unfold aggregate. now rewrite run_traders_skip_empty. }
  split; [exact H|]. split; [exact H'|].
  split; [rewrite H; apply traders_loaded|].
  split; [rewrite H'; apply traders_loaded|].
  split; [now rewrite run_traders_skip_raise | now rewrite run_traders_skip_empty].
Qed.

(** With trader B failing between A and C, both runs load two traders:
    the numbers of traders loaded do not differ by one. *)
Lemma traders_loaded_counterexample :
  aggregate 0 [A_ok; FetchRaises; C_ok] = aggregate 0 [A_ok; C_ok] /\
  traders (aggregate 0 [A_ok; FetchRaises; C_ok]) = 2 /\
  traders (aggregate 0 [A_ok; C_ok]) = 2 /\
  ~ (traders (aggregate 0 [A_ok; FetchRaises; C_ok]) =
     S (traders (aggregate 0 [A_ok; C_ok])) \/
     S (traders (aggregate 0 [A_ok; FetchRaises; C_ok])) =
     traders (aggregate 0 [A_ok; C_ok])).
Proof.
  split; [reflexivity|]. split; [reflexivity|]. split; [reflexivity|].
  intros [H|H]; discriminate H.
Qed.

(** ** Order and length of the coin list *)








(** ** Records of size zero *)

Lemma so_far_accumulate_other (k k' : string) (sz val : float) (st : agg) :
  k' <> k -> so_far k' (accumulate k sz val st) = so_far k' st.
Proof.
  intros Hne. apply String.eqb_neq in Hne.
  unfold so_far, accumulate.
  destruct (fltb fzero sz); cbn [coin_data];
    now rewrite dict_get_modify_other, dict_get_setdefault_other.
Qed.

Lemma accumulate_short k sz val st :
  fltb fzero sz = false -> counted_short k val st (accumulate k sz val st).
Proof.
  intros H. unfold counted_short.
  assert (Hget : dict_get k (coin_data (accumulate k sz val st)) =
                 Some (add_short val (match dict_get k (coin_data st) with
                                      | Some a => a
                                      | None => fresh_acc
                                      end))).
  { unfold accumulate. rewrite H. cbn [coin_data].
    now rewrite dict_get_modify_same, dict_get_setdefault. }
  assert (Hrest : total_short (accumulate k sz val st) = fadd (total_short st) val /\
                  total_long (accumulate k sz val st) = total_long st /\
                  loaded (accumulate k sz val st) = loaded st /\
                  errors (accumulate k sz val st) = errors st).
  { unfold accumulate. rewrite H. repeat split. }
  destruct Hrest as (H1 & H2 & H3 & H4).
  unfold so_far at 1.
  destruct (dict_get k (coin_data st)) as [a|];
    (split; [exact H1|]; split; [exact H2|];
     split; [unfold dict_mem; now rewrite Hget|];
     split; [unfold so_far; rewrite Hget; reflexivity|];
     split; [intros k' Hk; now apply so_far_accumulate_other|];
     split; [exact H3 | exact H4]).
Qed.

Lemma accumulate_long k sz val st :
  fltb fzero sz = true -> counted_long k val st (accumulate k sz val st).
Proof.
  intros H. unfold counted_long.
  assert (Hget : dict_get k (coin_data (accumulate k sz val st)) =
                 Some (add_long val (match dict_get k (coin_data st) with
                                     | Some a => a
                                     | None => fresh_acc
                                     end))).
  { unfold accumulate. rewrite H. cbn [coin_data].
    now rewrite dict_get_modify_same, dict_get_setdefault. }
  assert (Hrest : total_long (accumulate k sz val st) = fadd (total_long st) val /\
                  total_short (accumulate k sz val st) = total_short st /\
                  loaded (accumulate k sz val st) = loaded st /\
                  errors (accumulate k sz val st) = errors st).
  { unfold accumulate. rewrite H. repeat split. }
  destruct Hrest as (H1 & H2 & H3 & H4).
  unfold so_far at 1.
  destruct (dict_get k (coin_data st)) as [a|];
    (split; [exact H1|]; split; [exact H2|];
     split; [unfold dict_mem; now rewrite Hget|];
     split; [unfold so_far; rewrite Hget; reflexivity|];
     split; [intros k' Hk; now apply so_far_accumulate_other|];
     split; [exact H3 | exact H4]).
Qed.

Lemma long_xor_short k val st st' :
  counted_long k val st st' -> counted_short k val st st' -> False.
Proof.
  unfold counted_long, counted_short.
  destruct (so_far k st) as [[[L S0] nL] nS].
  intros (_ & _ & _ & Hl & _) (_ & _ & _ & Hs & _). rewrite Hl in Hs.
  injection Hs as _ _ Hc _. lia.
Qed.

(** C10. A record with a non-zero notional value is accumulated; when its
    size is exactly zero it goes to the short side, the global short
    total and the short notional of its asset growing by its value and
    the short count of the asset by one, and it goes to the long side
    only when its size is strictly positive. *)
Theorem zero_size_is_short (k : string) (sz val : float) (st : agg) :
  feqb val fzero = false ->
  step_position (Some (mkPosition (Some sz) (Some val) (Some k))) st =
  Some (accumulate k sz val st) /\
  (feqb sz fzero = true -> counted_short k val st (accumulate k sz val st)) /\
  (counted_long k val st (accumulate k sz val st) <-> fltb fzero sz = true) /\
  (counted_short k val st (accumulate k sz val st) <-> fltb fzero sz = false).
Proof.
  intros Hval. split; [simpl; now rewrite Hval|].
  split; [intros Hz; apply accumulate_short; now apply feqb_zero_not_pos|].
  split; split.
  - intros Hl. destruct (fltb fzero sz) eqn:E; [reflexivity|].
    exfalso. apply (long_xor_short _ _ _ _ Hl). now apply accumulate_short.
  - apply accumulate_long.
  - intros Hs. destruct (fltb fzero sz) eqn:E; [|reflexivity].
    exfalso. apply (fun H => long_xor_short _ _ _ _ H Hs). now apply accumulate_long.
  - apply accumulate_short.
Qed.

Lemma zero_size_is_short_witness :
  counted_short "SOL" (of_Z 2000) agg_init
                (accumulate "SOL" (of_Z 0) (of_Z 2000) agg_init) /\
  so_far "SOL" (accumulate "SOL" (of_Z 0) (of_Z 2000) agg_init) =
  (fzero, of_Z 2000, 0, 1).
Proof.
  split; [|reflexivity].
  apply (proj1 (proj2 (zero_size_is_short "SOL" (of_Z 0) (of_Z 2000) agg_init
                                          eq_refl))).
  reflexivity.
Defined.

(** * Properties of the retention store *)

(** ** Bounded history *)

(** C3. Appending a snapshot at the end of a history and dropping from
    the front while more than [max] entries are left gives at most [max]
    entries, the end of the history with the new snapshot last, and
    nothing is dropped while there is room; appending [max + 5] snapshots
    one by one to the empty history leaves exactly the last [max] of
    them, in order. *)
Theorem retention_keeps_newest {A : Type} (max : nat) (h : list A) (s : A) :
  0 < max ->
  List.length (append_snapshot max h s) <= max /\
  (exists dropped, h ++ [s] = dropped ++ append_snapshot max h s) /\
  (List.length h < max -> append_snapshot max h s = h ++ [s]) /\
  (forall l : list A,
      List.length l = max + 5 ->
      fold_left (append_snapshot max) l [] = skipn 5 l /\
      List.length (fold_left (append_snapshot max) l []) = max).
Proof.
  intros Hmax. split; [now apply append_snapshot_length|].
  split.
  - exists (firstn (S (List.length h) - max) (h ++ [s])).
    rewrite append_snapshot_skipn by assumption.
    symmetry. apply firstn_skipn.
  - split.
    + intros Hlt. rewrite append_snapshot_skipn by assumption.
      now replace (S (List.length h) - max) with 0 by lia.
    + intros l Hl. rewrite fold_append_snapshot by assumption.
      replace (List.length l - max) with 5 by lia.
      split; [reflexivity|]. rewrite length_skipn. lia.
Qed.

Lemma retention_keeps_newest_witness :
  List.length (append_snapshot MAX_SNAPS (seq 1 60) 61) <= MAX_SNAPS /\
  fold_left (append_snapshot MAX_SNAPS) (seq 1 (MAX_SNAPS + 5)) [] = seq 6 MAX_SNAPS.
Proof.
  assert (Hpos : 0 < MAX_SNAPS) by (unfold MAX_SNAPS; lia).
  split.
  - exact (proj1 (retention_keeps_newest MAX_SNAPS (seq 1 60) 61 Hpos)).
  - exact (proj1 (proj2 (proj2 (proj2 (retention_keeps_newest MAX_SNAPS [] 0 Hpos)))
                        (seq 1 (MAX_SNAPS + 5)) eq_refl)).
Defined.

(** ** Persisting and loading *)

(** C4. Saving a valid history, one whose floats are binary64 values
    other than NaN and whose integers have at most 4300 digits, and
    loading it gives the same history back,
    snapshots in the same order; so it is for the empty history, and so
    it is after every write of the history that returns, whatever the
    file was before.  The floats of a snapshot the program builds are
    binary64 values, so that such a snapshot is valid as soon as none of
    its numbers is NaN. *)
Theorem load_after_save (h : list snapshot) (f : file_state) :
  valid_history h = true ->
  load_snapshots (save_snapshots (history_json h) f) = Returned (history_json h) /\
  load_snapshots (save_snapshots (history_json []) f) = Returned (history_json []) /\
  (forall w,
      fst (write_text (dumps (history_json h)) w f) = Returned tt ->
      load_snapshots (snd (write_text (dumps (history_json h)) w f)) =
      Returned (history_json h)) /\
  (forall now results,
      snapshot_ok (aggregate now results) = snapshot_numeric (aggregate now results)).
Proof.
  intros Hv. split; [|split; [|split]].
  - apply load_save. now apply valid_history_json.
  - apply load_save. reflexivity.
  - intros w Hw. rewrite (write_text_returned _ _ _ Hw).
    apply (load_save _ f). now apply valid_history_json.
  - apply aggregate_ok.
Qed.

Lemma load_after_save_witness :
  load_snapshots (save_snapshots (history_json history_2) Missing) =
  Returned (history_json history_2) /\
  load_snapshots (save_snapshots (history_json []) Unreadable) =
  Returned (history_json []).
Proof.
  split.
  - apply (proj1 (load_after_save history_2 Missing eq_refl)).
  - apply (proj1 (proj2 (load_after_save [] Unreadable eq_refl))).
Defined.

(** C8, as the code has it.  When the presence of the file can be
    tested, loading does not raise: it returns the empty history when
    the file is missing, when it cannot be read and when its text does
    not parse, and otherwise the parsed document as it is, a list or
    not.  When the test of presence itself raises, which stands before
    the [try], the exception leaves the function. *)
Theorem load_never_raises (f : file_state) :
  (file_exists f <> Raised -> exists v, load_snapshots f = Returned v) /\
  (file_exists f = Raised -> load_snapshots f = Raised) /\
  (f = Missing -> load_snapshots f = Returned (JList [])) /\
  (file_exists f = Returned true -> read_text f = Raised ->
   load_snapshots f = Returned (JList [])) /\
  (forall text, f = Content text -> narrow_escapes text = true ->
                loads text = None ->
                load_snapshots f = Returned (JList [])) /\
  (forall text v, f = Content text -> loads text = Some v ->
                  small_document v = true ->
                  load_snapshots f = Returned v).
Proof.
  unfold load_snapshots, read_json.
  destruct f as [| | | |text]; cbn [file_exists read_text].
  - repeat split; eauto; try discriminate; congruence.
  - repeat split; eauto; try discriminate; congruence.
  - repeat split; eauto; try discriminate; congruence.
  - repeat split; eauto; try discriminate; congruence.
  - destruct (loads text) as [v|] eqn:E.
    + split; [eauto|]. split; [discriminate|]. split; [discriminate|].
      split; [discriminate|]. split.
      * intros text' H. injection H as <-. congruence.
      * intros text' v' H. injection H as <-. congruence.
    + split; [eauto|]. split; [discriminate|]. split; [discriminate|].
      split; [discriminate|]. split.
      * reflexivity.
      * intros text' v' H. injection H as <-. congruence.
Qed.

Lemma load_never_raises_witness :
  load_snapshots Missing = Returned (JList []) /\
  load_snapshots Unreadable = Returned (JList []) /\
  load_snapshots Directory = Returned (JList []) /\
  load_snapshots (Content "[{") = Returned (JList []) /\
  load_snapshots (Content " [1, 2] ") = Returned (JList [JInt 1; JInt 2]) /\
  load_snapshots Forbidden = Raised.
Proof.
  split; [exact (proj1 (proj2 (proj2 (load_never_raises Missing))) eq_refl)|].
  split; [exact (proj1 (proj2 (proj2 (proj2 (load_never_raises Unreadable))))
                       eq_refl eq_refl)|].
  split; [exact (proj1 (proj2 (proj2 (proj2 (load_never_raises Directory))))
                       eq_refl eq_refl)|].
  split.
  - exact (proj1 (proj2 (proj2 (proj2 (proj2 (load_never_raises (Content "[{"))))))
                 "[{"%string eq_refl eq_refl eq_refl).
  - split.
    + exact (proj2 (proj2 (proj2 (proj2 (proj2 (load_never_raises (Content " [1, 2] "))))))
                   " [1, 2] "%string _ eq_refl eq_refl eq_refl).
    + exact (proj1 (proj2 (load_never_raises Forbidden)) eq_refl).
Defined.

(** Loading fails the caller when the presence of the file cannot be
    tested, and what it returns need not be a history: a stored
    dictionary or [null] comes back as it is. *)
Lemma load_counterexample :
  load_snapshots Forbidden = Raised /\
  load_snapshots (Content "{}") = Returned (JDict []) /\
  is_list (JDict []) = false /\
  load_snapshots (Content "null") = Returned JNull /\
  is_list JNull = false.
Proof. repeat split. Qed.

(** ** Writing in place *)

(** C7, as the code has it.  [save_snapshots] writes the text of the
    whole history into the file itself: once the write is complete the
    file holds the complete text, which for a valid history loads back as
    that history; while the write is under way the file holds a front
    part of the new text, whatever the file held before. *)
Theorem save_writes_in_place (snaps : json) (f : file_state) (n : nat) :
  during_write (dumps snaps) (String.length (dumps snaps)) f = save_snapshots snaps f /\
  (valid_json snaps = true ->
   load_snapshots (save_snapshots snaps f) = Returned snaps) /\
  (exists front back,
      during_write (dumps snaps) n f = Content front /\
      dumps snaps = (front ++ back)%string).
Proof.
  split; [unfold during_write, save_snapshots; now rewrite substring_all|].
  split; [apply load_save|].
  destruct (substring_prefix n (dumps snaps)) as (back & H).
  exists (substring 0 n (dumps snaps)), back. split; [reflexivity | exact H].
Qed.

Lemma save_writes_in_place_witness :
  load_snapshots (save_snapshots (history_json history_2) Missing) =
  Returned (history_json history_2).
Proof.
  apply (proj1 (proj2 (save_writes_in_place (history_json history_2) Missing 0))).
  reflexivity.
Defined.

(** A write of a two-snapshot history over a one-snapshot file, stopped
    after the file was emptied or after 40 characters: the file holds
    neither the prior text nor the new one, and loading gives the empty
    history. *)
Lemma save_not_atomic_counterexample :
  let old := save_snapshots (history_json (firstn 1 history_2)) Missing in
  let data := dumps (history_json history_2) in
  ~ atomic_replace_states data old (during_write data 0 old) /\
  ~ atomic_replace_states data old (during_write data 40 old) /\
  load_snapshots (during_write data 0 old) = Returned (JList []) /\
  load_snapshots (during_write data 40 old) = Returned (JList []) /\
  load_snapshots old = Returned (history_json (firstn 1 history_2)).
Proof.
  cbv zeta. split; [|split].
  - intros [H|H]; vm_compute in H; discriminate H.
  - intros [H|H]; vm_compute in H; discriminate H.
  - split; [vm_compute; reflexivity|]. split; vm_compute; reflexivity.
Qed.

(** ** Two callers, no lock *)

Lemma load_content_list (l : list json) :
  valid_json (JList l) = true ->
  load_snapshots (Content (dumps (JList l))) = Returned (JList l).
Proof. intros H. exact (load_save (JList l) Missing H). Qed.

(** C9, as the code has it.  [take_snapshot] takes no lock: a triggered
    run starts whatever the other thread is doing and leaves that thread
    alone; two runs that do not overlap are both stored, the earlier one
    first. *)
Theorem runs_are_not_serialized (s : system) (a b : json) (l : list json) :
  (cron s = Pending a ->
   in_progress (cron (step s Cron)) = true /\
   handler (step s Cron) = handler s) /\
  (handler s = Pending b ->
   in_progress (handler (step s Handler)) = true /\
   cron (step s Handler) = cron s) /\
  (cron s = Pending a -> handler s = Pending b ->
   data_file s = Content (dumps (JList l)) ->
   valid_json (JList l) = true -> valid_json a = true ->
   let s' := run [Cron; Cron; Cron; Handler; Handler; Handler] s in
   cron s' = Finished /\ handler s' = Finished /\
   data_file s' =
   Content (dumps (JList (append_snapshot MAX_SNAPS
                            (append_snapshot MAX_SNAPS l a) b)))).
Proof.
  destruct s as [f sc sh]. cbn [cron handler data_file].
  split; [|split].
  - intros ->. split; reflexivity.
  - intros ->. split; reflexivity.
  - intros -> -> -> Hl Ha. cbv zeta.
    unfold run. cbn [fold_left step advance cron handler data_file].
    rewrite (load_content_list l Hl).
    cbn [step advance cron handler data_file]. unfold save_snapshots.
    rewrite (load_content_list _ (valid_append_snapshot l a Hl Ha)).
    cbn [step advance cron handler data_file].
    repeat split.
Qed.

Lemma runs_are_not_serialized_witness :
  data_file (run [Cron; Cron; Cron; Handler; Handler; Handler] both_triggered) =
  Content (dumps (JList [snap_a; snap_b])).
Proof.
  exact (proj2 (proj2 (proj2 (proj2 (runs_are_not_serialized
                                        both_triggered snap_a snap_b []))
                                  eq_refl eq_refl eq_refl eq_refl eq_refl))).
Defined.

(** With both runs triggered, the schedule cron, handler has the two
    runs under way at once; and when each thread loads before the other
    saves, the file ends with the handler's snapshot only: the cron run's
    snapshot is lost. *)
Lemma overlap_counterexample :
  let s1 := run [Cron; Handler] both_triggered in
  let s2 := run [Cron; Handler; Cron; Handler; Cron; Handler] both_triggered in
  in_progress (cron s1) = true /\ in_progress (handler s1) = true /\
  cron s2 = Finished /\ handler s2 = Finished /\
  data_file s2 = Content (dumps (JList [snap_b])).
Proof.
  cbv zeta. repeat split; vm_compute; reflexivity.
Qed.

(** * Further properties of the aggregation *)

(** ** Counters *)

Lemma errors_accumulate k sz val st : errors (accumulate k sz val st) = errors st.
Proof. unfold accumulate. now destruct (fltb fzero sz). Qed.

Lemma errors_run_positions aps : forall st,
  errors (fst (run_positions aps st)) = errors st.
Proof.
  induction aps as [|ap rest IH]; intros st; simpl; [reflexivity|].
  destruct (step_position ap st) as [st1|] eqn:E; [|reflexivity].
  rewrite IH.
  destruct ap as [[[sz|] [val|] [k|]]|]; simpl in E; try discriminate;
    destruct (feqb val fzero); try discriminate;
    injection E as <-; try reflexivity.
  apply errors_accumulate.
Qed.

Lemma errors_step_trader st res :
  errors (step_trader st res) = errors st + (if fails res then 1 else 0).
Proof.
  destruct res as [| |aps]; simpl; try lia.
  pose proof (errors_run_positions aps st) as He.
  pose proof (run_positions_raised aps st agg_init) as Hr.
  destruct (run_positions aps st) as [st1 raised]. simpl in He, Hr.
  rewrite <- Hr. destruct raised; simpl; lia.
Qed.

Lemma errors_fold results : forall st,
  errors (fold_left step_trader results st) =
  errors st + List.length (filter fails results).
Proof.
  induction results as [|res rest IH]; intros st; simpl; [lia|].
  rewrite IH, errors_step_trader. destruct (fails res); simpl; lia.
Qed.

Lemma one_of_three results :
  List.length (filter answers results) + List.length (filter fails results) +
  List.length (filter is_skipped results) = List.length results.
Proof.
  induction results as [|res rest IH]; simpl; [reflexivity|].
  destruct res as [| |aps]; simpl; try lia.
  destruct (snd (run_positions aps agg_init)); simpl; lia.
Qed.

(** X1. Every trader of the batch ends in exactly one of three ways:
    counted as loaded, counted as an error, or passed over because the
    answer was empty or had no [assetPositions]. *)
Theorem every_trader_accounted (results : list fetch_result) :
  loaded (run_traders results) + errors (run_traders results) +
  List.length (filter is_skipped results) = List.length results /\
  loaded (run_traders results) = List.length (filter answers results) /\
  errors (run_traders results) = List.length (filter fails results).
Proof.
  unfold run_traders. rewrite loaded_fold, errors_fold. simpl.
  split; [apply one_of_three | split; reflexivity].
Qed.

(** ** Records that leave no trace, records that cannot be read *)

Lemma run_positions_app a : forall b st,
  run_positions (a ++ b) st =
  if snd (run_positions a st) then (fst (run_positions a st), true)
  else run_positions b (fst (run_positions a st)).
Proof.
  induction a as [|ap a IH]; intros b st; simpl; [reflexivity|].
  destruct (step_position ap st) as [st1|]; [apply IH | reflexivity].
Qed.

Lemma step_trader_count_loaded st res :
  step_trader (count_loaded st) res = count_loaded (step_trader st res).
Proof.
  destruct res as [| |aps]; simpl; try reflexivity.
  assert (H : forall aps st,
             run_positions aps (count_loaded st) =
             (count_loaded (fst (run_positions aps st)), snd (run_positions aps st))).
  { clear. induction aps as [|ap rest IH]; intros st; simpl; [reflexivity|].
    assert (Hs : step_position ap (count_loaded st) =
                 option_map count_loaded (step_position ap st)).
    { destruct ap as [[[sz|] [val|] [k|]]|]; simpl; try reflexivity;
        destruct (feqb val fzero); try reflexivity.
      unfold accumulate. simpl. now destruct (fltb fzero sz). }
    rewrite Hs. destruct (step_position ap st) as [st'|]; simpl;
      [apply IH | reflexivity]. }
  rewrite H. destruct (run_positions aps st) as [st' raised]. simpl.
  now destruct raised.
Qed.

Lemma fold_step_trader_count_loaded l : forall st,
  fold_left step_trader l (count_loaded st) = count_loaded (fold_left step_trader l st).
Proof.
  induction l as [|res l IH]; intros st; simpl; [reflexivity|].
  now rewrite step_trader_count_loaded, IH.
Qed.

(** X2. A record whose size and notional value both read as numbers,
    the notional value being zero, leaves no trace, wherever it stands
    in a trader's answer and even when it has no [coin]: the snapshot is
    the one of the batch without that record. *)
Theorem zero_notional_ignored (now : Z) (xs ys : list fetch_result)
        (before after : list asset_position) (sz val : float) (oc : option string) :
  feqb val fzero = true ->
  aggregate now
    (xs ++ AssetPositions (before ++ Some (mkPosition (Some sz) (Some val) oc) :: after)
        :: ys) =
  aggregate now (xs ++ AssetPositions (before ++ after) :: ys).
Proof.
  intros Hz. unfold aggregate, run_traders. rewrite !fold_left_app.
  cbn [fold_left]. f_equal. f_equal.
  unfold step_trader. rewrite !run_positions_app.
  cbn [run_positions step_position szi positionValue]. now rewrite Hz.
Qed.

Lemma zero_notional_ignored_witness :
  aggregate 0 [AssetPositions [position_of "BTC" 1 1000;
                               Some (mkPosition (Some (of_Z 3)) (Some (of_Z 0)) None);
                               position_of "ETH" 1 7]] =
  aggregate 0 [AssetPositions [position_of "BTC" 1 1000; position_of "ETH" 1 7]].
Proof.
  exact (zero_notional_ignored 0 [] [] [position_of "BTC" 1 1000]
                               [position_of "ETH" 1 7] (of_Z 3) (of_Z 0) None eq_refl).
Defined.

(** X3. When a record of a trader cannot be read, the records before
    it stay in the sums, the records after it are not looked at, and the
    trader is counted as an error instead of as loaded: the snapshot is
    the one of the batch in which the trader's answer ends before that
    record, with one trader less loaded. *)
Theorem unreadable_record_cuts_answer (now : Z) (xs ys : list fetch_result)
        (good rest : list asset_position) (bad : asset_position) :
  snd (run_positions good agg_init) = false ->
  step_position bad agg_init = None ->
  let cut := aggregate now (xs ++ AssetPositions (good ++ bad :: rest) :: ys) in
  let whole := aggregate now (xs ++ AssetPositions good :: ys) in
  coins cut = coins whole /\ gR cut = gR whole /\
  tL cut = tL whole /\ tS cut = tS whole /\
  S (traders cut) = traders whole.
Proof.
  intros Hgood Hbad. cbv zeta. unfold aggregate, run_traders.
  rewrite !fold_left_app. cbn [fold_left].
  set (st := fold_left step_trader xs agg_init).
  assert (Hcut : step_trader st (AssetPositions (good ++ bad :: rest)) =
                 count_error (fst (run_positions good st))).
  { unfold step_trader. rewrite run_positions_app.
    rewrite (run_positions_raised good st agg_init), Hgood.
    cbn [run_positions].
    now rewrite (step_position_raises bad agg_init _ Hbad). }
  assert (Hwhole : step_trader st (AssetPositions good) =
                   count_loaded (fst (run_positions good st))).
  { unfold step_trader.
    pose proof (run_positions_raised good st agg_init) as Hr.
    destruct (run_positions good st) as [st1 raised]. simpl in *.
    rewrite Hr, Hgood. reflexivity. }
  rewrite Hcut, Hwhole.
  rewrite fold_step_trader_count_error, fold_step_trader_count_loaded.
  repeat split.
Qed.

Lemma unreadable_record_cuts_answer_witness :
  coins (aggregate 0 [AssetPositions [position_of "BTC" 1 1000; None;
                                      position_of "ETH" 1 7]]) =
  coins (aggregate 0 [AssetPositions [position_of "BTC" 1 1000]]) /\
  S (traders (aggregate 0 [AssetPositions [position_of "BTC" 1 1000; None;
                                           position_of "ETH" 1 7]])) =
  traders (aggregate 0 [AssetPositions [position_of "BTC" 1 1000]]).
Proof.
  pose proof (unreadable_record_cuts_answer 0 [] [] [position_of "BTC" 1 1000]
                [position_of "ETH" 1 7] None eq_refl eq_refl) as H.
  cbv zeta in H. destruct H as (Hc & _ & _ & _ & Ht).
  split; [exact Hc | exact Ht].
Defined.

(** X4. A trader without open positions, an answer whose
    [assetPositions] is empty, is counted as loaded and changes nothing
    else. *)
Theorem no_positions_is_loaded (now : Z) (xs ys : list fetch_result) :
  let with_idle := aggregate now (xs ++ AssetPositions [] :: ys) in
  let without := aggregate now (xs ++ ys) in
  coins with_idle = coins without /\ gR with_idle = gR without /\
  tL with_idle = tL without /\ tS with_idle = tS without /\
  traders with_idle = S (traders without).
Proof.
  cbv zeta. unfold aggregate, run_traders.
  rewrite !fold_left_app. cbn [fold_left step_trader run_positions].
  rewrite fold_step_trader_count_loaded. repeat split.
Qed.

(** ** The coin list *)

Lemma nodup_firstn {A : Type} (n : nat) (l : list A) : NoDup l -> NoDup (firstn n l).
Proof.
  intros H. rewrite <- (firstn_skipn n l) in H. now apply NoDup_app_remove_r in H.
Qed.

(** X5. No asset is listed twice in a snapshot. *)
Theorem asset_names_distinct (now : Z) (results : list fetch_result) :
  NoDup (map c (coins (aggregate now results))).
Proof.
  change (coins (aggregate now results))
    with (firstn COIN_CAP (sorted_coins (run_traders results))).
  rewrite <- firstn_map. apply nodup_firstn.
  apply (Permutation_NoDup
           (Permutation_map c
              (Permutation_sym
                 (py_sort_desc_perm t (build_coins (coin_data (run_traders results))))))).
  rewrite names_in_discovery_order, <- keys_run_traders.
  apply NoDup_filter, nodup_keys_run_traders.
Qed.

Lemma count_both_sides (l : list contribution) :
  List.length (filter is_long l) + List.length (filter is_short l) = List.length l.
Proof.
  induction l as [|x l IH]; simpl; [reflexivity|].
  unfold is_short at 1. destruct (is_long x); simpl; lia.
Qed.

(** X6. An asset of a snapshot has at least one record behind it, its
    two counts add up to the number of records the batch contributes to
    it, and a side without records shows a notional value of zero. *)
Theorem listed_asset_has_records (now : Z) (results : list fetch_result)
        (s : coin_summary) :
  In s (coins (aggregate now results)) ->
  1 <= lT s + sT s /\
  lT s + sT s = List.length (filter (on_asset (c s)) (contributions results)) /\
  (lT s = 0 -> lN s = fzero) /\
  (sT s = 0 -> sN s = fzero).
Proof.
  intros Hin.
  destruct (in_coins_entry now results s Hin) as (a & Ha & Hsum).
  destruct (coin_data_entry results (c s) a Ha) as (H1 & H2 & H3 & H4).
  unfold summarize in Hsum.
  destruct (feqb (fadd (a_lN a) (a_sN a)) fzero) eqn:E; [discriminate|].
  injection Hsum as Hs. rewrite <- Hs. cbn [c lT sT lN sN].
  rewrite H3, H4. unfold record_count.
  rewrite count_both_sides.
  assert (Hnone : forall side,
            List.length (filter side (filter (on_asset (c s)) (contributions results))) = 0 ->
            asset_total side (c s) (contributions results) = fzero).
  { intros side H0. unfold asset_total, side_total.
    apply length_zero_iff_nil in H0. now rewrite H0. }
  split; [|split; [reflexivity|split]].
  - destruct (filter (on_asset (c s)) (contributions results)) as [|x lk] eqn:El;
      [|simpl; lia].
    exfalso. rewrite H1, H2 in E. unfold asset_total in E. rewrite El in E.
    discriminate E.
  - intros H0. rewrite H1, (Hnone _ H0). reflexivity.
  - intros H0. rewrite H2, (Hnone _ H0). reflexivity.
Qed.

Lemma listed_asset_has_records_witness :
  exists s, In s (coins (aggregate 0 [A_ok])) /\
            lT s + sT s = 1 /\ sN s = fzero.
Proof.
  assert (Hin : In (hd (mkCoin "" fzero fzero fzero fzero 0 0)
                       (coins (aggregate 0 [A_ok])))
                   (coins (aggregate 0 [A_ok]))) by (left; reflexivity).
  eexists. split; [exact Hin|].
  destruct (listed_asset_has_records 0 [A_ok] _ Hin) as (_ & Hn & _ & Hs).
  split; [rewrite Hn; reflexivity | apply Hs; reflexivity].
Defined.

(** X7. The coin list holds as many assets as were finalized, up to 60;
    when no rounded total is NaN, no asset that the cut leaves out has a
    larger total than one that is listed. *)
Theorem coin_cap_keeps_largest (now : Z) (results : list fetch_result) :
  let found := build_coins (coin_data (run_traders results)) in
  let ranked := sorted_coins (run_traders results) in
  List.length (coins (aggregate now results)) = Nat.min 60 (List.length found) /\
  (numeric_keys t found ->
   forall a b, In a (coins (aggregate now results)) -> In b (skipn 60 ranked) ->
               not_below t a b).
Proof.
  intros found ranked.
  change (coins (aggregate now results)) with (firstn COIN_CAP ranked).
  split.
  - rewrite length_firstn. unfold COIN_CAP. f_equal.
    apply Permutation_length, py_sort_desc_perm.
  - intros Hnum. apply sorted_app_order.
    unfold COIN_CAP. rewrite firstn_skipn. now apply py_sort_desc_sorted.
Qed.

Lemma coin_cap_keeps_largest_witness :
  List.length (coins (aggregate 0 batch_tie)) = 3 /\
  forall a b, In a (coins (aggregate 0 batch_tie)) ->
              In b (skipn 60 (sorted_coins (run_traders batch_tie))) ->
              not_below t a b.
Proof.
  split.
  - exact (proj1 (coin_cap_keeps_largest 0 batch_tie)).
  - apply (proj2 (coin_cap_keeps_largest 0 batch_tie)). repeat constructor.
Defined.

(** ** Totals *)

(** X8. The snapshot's [tL] and [tS] are the sums of the long and of the
    short notional values of the records the batch contributes, added in
    the order the records are met and rounded to 2 places; [ts] is the
    clock reading. *)
Theorem totals_are_rounded_sums (now : Z) (results : list fetch_result) :
  tL (aggregate now results) = py_round (side_total is_long (contributions results)) 2 /\
  tS (aggregate now results) = py_round (side_total is_short (contributions results)) 2 /\
  ts (aggregate now results) = now.
Proof.
  pose proof (run_traders_sums results) as Hs. unfold sums in Hs.
  injection Hs as _ Htl Hts.
  unfold aggregate, make_snapshot. cbn [tL tS ts].
  rewrite Htl, Hts, total_long_apply_all, total_short_apply_all.
  repeat split.
Qed.

(** X9. When no trader of the batch yields a record, every fetch raising
    or coming back without [assetPositions], the snapshot is still built:
    no coins, integer ratio [0], both totals [0.0] and no trader
    loaded. *)
Theorem all_fetches_fail (now : Z) (results : list fetch_result) :
  Forall (fun res => res = FetchRaises \/ res = NoAssetPositions) results ->
  aggregate now results = mkSnap now (PyInt 0) fzero fzero 0 [].
Proof.
  intros Hall. unfold aggregate.
  assert (Hrun : run_traders results =
                 mkAgg [] fzero fzero 0 (List.length (filter fails results))).
  { unfold run_traders.
    assert (Hgen : forall st,
              fold_left step_trader results st =
              mkAgg (coin_data st) (total_long st) (total_short st) (loaded st)
                    (errors st + List.length (filter fails results))).
    { induction Hall as [|res rest Hres Hall IH]; intros st; simpl.
      - destruct st; simpl. f_equal. lia.
      - rewrite IH. destruct Hres as [->| ->]; simpl; f_equal; lia. }
    rewrite Hgen. reflexivity. }
  rewrite Hrun. reflexivity.
Qed.

Lemma all_fetches_fail_witness :
  aggregate 5 [FetchRaises; NoAssetPositions; FetchRaises] =
  mkSnap 5 (PyInt 0) fzero fzero 0 [].
Proof.
  apply (all_fetches_fail 5 [FetchRaises; NoAssetPositions; FetchRaises]).
  constructor; [now left|]. constructor; [now right|].
  constructor; [now left|]. constructor.
Defined.

(** * Further properties of the store and of the timer loop *)

Section StoreFacts.
Local Open Scope string_scope.

Lemma last_skipn {A : Type} (n : nat) (l : list A) (d : A) :
  n < List.length l -> last (skipn n l) d = last l d.
Proof.
  revert l. induction n as [|n IH]; intros l Hn; [reflexivity|].
  destruct l as [|x l]; [simpl in Hn; lia|].
  simpl in Hn. cbn [skipn]. rewrite IH by lia.
  destruct l as [|y l]; [simpl in Hn; lia | reflexivity].
Qed.

Lemma append_snapshot_last (snaps : list json) (snap : json) :
  last (append_snapshot MAX_SNAPS snaps snap) JNull = snap.
Proof.
  rewrite append_snapshot_skipn by (unfold MAX_SNAPS; lia).
  rewrite last_skipn.
  - apply last_last.
  - rewrite length_app. change (List.length [snap]) with 1. unfold MAX_SNAPS. lia.
Qed.

Lemma load_raises (f : file_state) :
  load_snapshots f = Raised -> file_exists f = Raised.
Proof.
  unfold load_snapshots. destruct (file_exists f) as [[|]|]; [|discriminate|reflexivity].
  destruct (read_json f); discriminate.
Qed.

(** X10. The outcomes of a run of [take_snapshot] over a data file
    whose text [json.loads] and the decoder here treat alike.  It raises
    and leaves the file as it was when the leaderboard cannot be fetched,
    when the presence of the file cannot be tested, when the stored
    document is not a list, when the file cannot be opened for writing
    or the write is refused; it raises and leaves a part of the new text
    in the file when the write breaks off; otherwise it returns the
    snapshot it built and leaves in the file a list of at most 48
    entries that ends with that snapshot and continues the stored
    list. *)
Theorem take_snapshot_outcomes (leaderboard : outcome (list fetch_result))
        (now : Z) (w : write_fate) (f : file_state) :
  within_reach f = true ->
  (take_snapshot leaderboard now w f = (Raised, f) /\
   (leaderboard = Raised \/ file_exists f = Raised \/
    (exists v, load_snapshots f = Returned v /\ is_list v = false) \/
    writable f = false \/ w = Refused)) \/
  (exists results snaps n,
      leaderboard = Returned results /\
      load_snapshots f = Returned (JList snaps) /\
      writable f = true /\ w = Cut n /\
      take_snapshot leaderboard now w f =
      (Raised,
       during_write
         (dumps (JList (append_snapshot MAX_SNAPS snaps
                                        (snapshot_json (aggregate now results)))))
         n f)) \/
  (exists results snaps stored,
      leaderboard = Returned results /\
      load_snapshots f = Returned (JList snaps) /\
      writable f = true /\ w = Completes /\
      take_snapshot leaderboard now w f =
      (Returned (aggregate now results), Content (dumps (JList stored))) /\
      List.length stored <= MAX_SNAPS /\
      last stored JNull = snapshot_json (aggregate now results) /\
      exists dropped,
        (snaps ++ [snapshot_json (aggregate now results)])%list =
        (dropped ++ stored)%list).
Proof.
  intros _.
  destruct leaderboard as [results|]; [|left; split; [reflexivity | now left]].
  destruct (load_snapshots f) as [v|] eqn:El.
  - destruct v as [| b | z | x | s | snaps | d];
      try (left; split;
           [unfold take_snapshot, store_snapshot; rewrite El; reflexivity
           | right; right; left; eexists; split; [reflexivity | reflexivity]]).
    destruct (writable f) eqn:Ew.
    + destruct w as [| |n].
      * right. right. exists results, snaps,
          (append_snapshot MAX_SNAPS snaps (snapshot_json (aggregate now results))).
        split; [reflexivity|]. split; [reflexivity|].
        split; [reflexivity|]. split; [reflexivity|].
        split; [now apply take_snapshot_stores|].
        split; [apply append_snapshot_length; unfold MAX_SNAPS; lia|].
        split; [apply append_snapshot_last|].
        exists (firstn (S (List.length snaps) - MAX_SNAPS)
                       (snaps ++ [snapshot_json (aggregate now results)])).
        rewrite append_snapshot_skipn by (unfold MAX_SNAPS; lia).
        symmetry. apply firstn_skipn.
      * left. split; [|now repeat right].
        unfold take_snapshot, store_snapshot, write_text. now rewrite El, Ew.
      * right. left. exists results, snaps, n.
        split; [reflexivity|]. split; [reflexivity|].
        split; [reflexivity|]. split; [reflexivity|].
        unfold take_snapshot, store_snapshot, write_text. now rewrite El, Ew.
    + left. split; [|now right; right; right; left].
      unfold take_snapshot, store_snapshot, write_text. now rewrite El, Ew.
  - left. split.
    + unfold take_snapshot, store_snapshot. now rewrite El.
    + right. left. now apply load_raises.
Qed.

Lemma take_snapshot_outcomes_witness :
  take_snapshot (Returned [A_ok]) 1 (Cut 5) (Content "[]") =
  (Raised, during_write (dumps (JList [snap_a])) 5 (Content "[]")).
Proof.
  destruct (take_snapshot_outcomes (Returned [A_ok]) 1 (Cut 5) (Content "[]") eq_refl)
    as [(_ & [H|[H|[(v & Hv & Hl)|[H|H]]]])
       |[(res & snaps & n & Hr & Hl & _ & Hw & Ht)
        |(res & snaps & st & _ & _ & _ & Hw & _)]];
    try discriminate.
  - vm_compute in Hv. injection Hv as <-. discriminate Hl.
  - injection Hr as <-. vm_compute in Hl. injection Hl as <-.
    injection Hw as <-. exact Ht.
Defined.

(** X11. After a run whose write completes, over a file that can be
    written and holds a valid list (its floats binary64 values other
    than NaN, each key once in a dictionary) in a text that [json.loads]
    and the decoder here treat alike, with a snapshot none of whose
    numbers is NaN, loading gives the stored list with the new snapshot
    appended and cut to the last 48. *)
Theorem load_after_take_snapshot (results : list fetch_result) (now : Z)
        (f : file_state) (snaps : list json) :
  within_reach f = true ->
  load_snapshots f = Returned (JList snaps) ->
  writable f = true ->
  valid_json (JList snaps) = true ->
  snapshot_numeric (aggregate now results) = true ->
  load_snapshots (snd (take_snapshot (Returned results) now Completes f)) =
  Returned (JList (append_snapshot MAX_SNAPS snaps
                                   (snapshot_json (aggregate now results)))).
Proof.
  intros _ Hl Hw Hv Hs. rewrite (take_snapshot_stores now results f snaps Hl Hw).
  cbn [snd]. apply (load_save _ Missing).
  apply valid_append_snapshot; [exact Hv|].
  now rewrite valid_snapshot_json, aggregate_ok.
Qed.

Lemma load_after_take_snapshot_witness :
  load_snapshots (snd (take_snapshot (Returned batch_tie) 9 Completes
                                     (Content (dumps (history_json history_2))))) =
  Returned (JList (map snapshot_json history_2 ++
                   [snapshot_json (aggregate 9 batch_tie)])).
Proof.
  exact (load_after_take_snapshot batch_tie 9
           (Content (dumps (history_json history_2)))
           (map snapshot_json history_2) eq_refl eq_refl eq_refl eq_refl eq_refl).
Defined.

(** X12. A history file that is missing, that is a regular file which
    cannot be read, or whose text does not parse (no escape of it naming
    a code point from 256 on) is replaced when the write completes:
    after the run the file holds the new snapshot alone.  A directory in
    the place of the file is not replaced: the run raises and leaves
    it. *)
Theorem unreadable_history_is_replaced (results : list fetch_result) (now : Z)
        (w : write_fate) (f : file_state) :
  (f = Missing \/ f = Unreadable \/
   (exists text, f = Content text /\ narrow_escapes text = true /\
                 loads text = None) ->
   take_snapshot (Returned results) now Completes f =
   (Returned (aggregate now results),
    Content (dumps (JList [snapshot_json (aggregate now results)])))) /\
  take_snapshot (Returned results) now w Directory = (Raised, Directory).
Proof.
  split; [|reflexivity].
  intros Hf. apply (take_snapshot_stores now results f []).
  - unfold load_snapshots, read_json.
    destruct Hf as [->|[->|(text & -> & _ & Hp)]]; [reflexivity | reflexivity |].
    cbn [file_exists read_text]. now rewrite Hp.
  - destruct Hf as [->|[->|(text & -> & _)]]; reflexivity.
Qed.

Lemma unreadable_history_is_replaced_witness :
  take_snapshot (Returned [A_ok]) 1 Completes (Content "[{") =
  (Returned (aggregate 1 [A_ok]), Content (dumps (JList [snap_a]))).
Proof.
  apply (proj1 (unreadable_history_is_replaced [A_ok] 1 Completes (Content "[{"))).
  right. right. exists "[{". repeat split.
Defined.

Lemma take_snapshot_blocked (f : file_state) (v : json)
      (leaderboard : outcome (list fetch_result)) (now : Z) (w : write_fate) :
  load_snapshots f = Returned v -> is_list v = false ->
  take_snapshot leaderboard now w f = (Raised, f).
Proof.
  intros Hl Hv. destruct leaderboard as [results|]; [|reflexivity].
  unfold take_snapshot, store_snapshot. rewrite Hl. now destruct v.
Qed.

(** X13. A stored document that parses but is not a list is never
    repaired: every run raises at [append] and, whatever the turns of
    the timer loop, the file stays as it is. *)
Theorem non_list_history_blocks (f : file_state) (v : json) (turns : list turn) :
  load_snapshots f = Returned v -> is_list v = false ->
  cron_loop turns f = f /\
  forall leaderboard now w, take_snapshot leaderboard now w f = (Raised, f).
Proof.
  intros Hl Hv. split.
  - unfold cron_loop. induction turns as [|t turns IH]; [reflexivity|].
    cbn [fold_left]. unfold cron_turn at 2.
    now rewrite (take_snapshot_blocked f v _ _ _ Hl Hv).
  - intros leaderboard now w. now apply (take_snapshot_blocked f v).
Qed.

Lemma non_list_history_blocks_witness :
  cron_loop [mkTurn (Returned batch_AB) 1 Completes;
             mkTurn (Returned batch_tie) 2 (Cut 3)] (Content "{}") =
  Content "{}".
Proof.
  exact (proj1 (non_list_history_blocks (Content "{}") (JDict [])
                  [mkTurn (Returned batch_AB) 1 Completes;
                   mkTurn (Returned batch_tie) 2 (Cut 3)]
                  eq_refl eq_refl)).
Defined.

Lemma snapshots_of_valid (turns : list turn) :
  forallb turn_numeric turns = true ->
  forallb valid_json (snapshots_of turns) = true.
Proof.
  induction turns as [|t turns IH]; intros H; [reflexivity|].
  cbn [forallb] in H. apply andb_prop in H. destruct H as (Ht & H).
  cbn [snapshots_of]. unfold turn_numeric in Ht.
  destruct (board t) as [results|]; [|now apply IH].
  destruct (fate t); try now apply IH.
  cbn [forallb]. rewrite IH by exact H.
  now rewrite valid_snapshot_json, aggregate_ok, Ht.
Qed.

Lemma cron_loop_loads (turns : list turn) :
  forall (f : file_state) (old : list json),
    load_snapshots f = Returned (JList old) ->
    writable f = true ->
    valid_json (JList old) = true ->
    forallb (fun t => negb (is_cut t)) turns = true ->
    forallb valid_json (snapshots_of turns) = true ->
    load_snapshots (cron_loop turns f) =
    Returned (JList (fold_left (append_snapshot MAX_SNAPS) (snapshots_of turns) old)).
Proof.
  unfold cron_loop.
  induction turns as [|[[results|] now w] turns IH]; intros f old Hl Hw Hv Hc Hs.
  - exact Hl.
  - cbn [forallb] in Hc. apply andb_prop in Hc. destruct Hc as (Hc1 & Hc2).
    cbn [fold_left]. unfold cron_turn at 2. cbn [board clock fate].
    destruct w as [| |n]; [| |discriminate Hc1].
    + cbn [snapshots_of board clock fate forallb] in Hs |- *.
      apply andb_prop in Hs. destruct Hs as (Hs1 & Hs2).
      rewrite (take_snapshot_stores now results f old Hl Hw). cbn [snd fold_left].
      apply IH; [|reflexivity|now apply valid_append_snapshot|exact Hc2|exact Hs2].
      apply (load_save _ Missing). now apply valid_append_snapshot.
    + cbn [snapshots_of board clock fate] in Hs |- *.
      unfold take_snapshot, store_snapshot, write_text. rewrite Hl, Hw. cbn [snd].
      now apply IH.
  - cbn [forallb] in Hc. apply andb_prop in Hc. destruct Hc as (Hc1 & Hc2).
    cbn [fold_left snapshots_of board]. unfold cron_turn at 2.
    cbn [board clock fate snd take_snapshot].
    now apply IH.
Qed.

(** X14. The timer loop keeps a sliding window, as long as the file
    can be written, no write breaks off and no snapshot built holds a
    NaN.  Started on a text that [json.loads] and the decoder here treat
    alike and that holds a valid list (its floats binary64 values
    other than NaN, each key once in a dictionary), after any number of
    turns the file loads as that list with the snapshots of the turns
    that went through appended one by one under the cap of 48, the turns
    that raised leaving no trace; started without a history, it loads as
    the last 48 of those snapshots, in order. *)
Theorem cron_loop_keeps_window (turns : list turn)
        (f : file_state) (old : list json) :
  within_reach f = true ->
  load_snapshots f = Returned (JList old) ->
  writable f = true ->
  valid_json (JList old) = true ->
  forallb (fun t => negb (is_cut t)) turns = true ->
  forallb turn_numeric turns = true ->
  load_snapshots (cron_loop turns f) =
  Returned (JList (fold_left (append_snapshot MAX_SNAPS) (snapshots_of turns) old)) /\
  (old = [] ->
   load_snapshots (cron_loop turns f) =
   Returned (JList (skipn (List.length (snapshots_of turns) - MAX_SNAPS)
                          (snapshots_of turns)))).
Proof.
  intros _ Hl Hw Hv Hc Hs. apply snapshots_of_valid in Hs.
  split; [now apply cron_loop_loads|].
  intros ->. rewrite (cron_loop_loads turns f [] Hl Hw Hv Hc Hs).
  now rewrite fold_append_snapshot by (unfold MAX_SNAPS; lia).
Qed.

Lemma cron_loop_keeps_window_witness :
  load_snapshots
    (cron_loop [mkTurn (Returned batch_AB) 1 Completes;
                mkTurn Raised 2 Completes;
                mkTurn (Returned batch_tie) 3 Refused;
                mkTurn (Returned batch_tie) 4 Completes]
               Missing) =
  Returned (JList [snapshot_json (aggregate 1 batch_AB);
                   snapshot_json (aggregate 4 batch_tie)]).
Proof.
  exact (proj2 (cron_loop_keeps_window
                  [mkTurn (Returned batch_AB) 1 Completes;
                   mkTurn Raised 2 Completes;
                   mkTurn (Returned batch_tie) 3 Refused;
                   mkTurn (Returned batch_tie) 4 Completes]
                  Missing [] eq_refl eq_refl eq_refl eq_refl eq_refl eq_refl) eq_refl).
Defined.

End StoreFacts.

(** * Properties of the leaderboard *)

Lemma sort_keys_rows (rows : list row) (keyed : list (float * row)) :
  sort_keys rows = Some keyed ->
  map snd keyed = rows /\
  Forall (fun kv => accountValue (snd kv) = Some (fst kv)) keyed.
Proof.
  revert keyed. induction rows as [|x rows IH]; intros keyed H; simpl in H.
  - injection H as <-. split; constructor.
  - destruct (accountValue x) as [v|] eqn:Ev; [|discriminate].
    destruct (sort_keys rows) as [keyed'|]; [|discriminate].
    injection H as <-. destruct (IH keyed' eq_refl) as (Hm & Hall).
    split; [simpl; now rewrite Hm | constructor; [exact Ev | exact Hall]].
Qed.

Lemma sort_keys_none (rows : list row) :
  sort_keys rows = None <-> Exists (fun x => accountValue x = None) rows.
Proof.
  induction rows as [|x rows IH]; simpl.
  - split; [discriminate | intros H; inversion H].
  - destruct (accountValue x) as [v|] eqn:Ev.
    + destruct (sort_keys rows) as [keyed|].
      * split; [discriminate|]. intros H. inversion H as [? ? H0|? ? H0]; subst.
        -- congruence.
        -- apply IH in H0. discriminate.
      * split; [|reflexivity]. intros _. right. now apply IH.
    + split; [|reflexivity]. intros _. now left.
Qed.

Lemma sorted_map_snd (keyed : list (float * row)) :
  Forall (fun kv => accountValue (snd kv) = Some (fst kv)) keyed ->
  StronglySorted (not_below fst) keyed ->
  StronglySorted (not_below account_key) (map snd keyed).
Proof.
  intros Hk Hs. induction Hs as [|kv l Hs IH Hall]; simpl; [constructor|].
  inversion Hk as [|? ? Hkv Hl]; subst.
  constructor; [now apply IH|].
  rewrite Forall_forall in *. intros y Hy.
  apply in_map_iff in Hy. destruct Hy as (kv' & <- & Hin).
  unfold not_below, account_key. rewrite Hkv, (Hl kv' Hin).
  now apply Hall.
Qed.

Lemma filter_map_snd (k : float) (keyed : list (float * row)) :
  Forall (fun kv => accountValue (snd kv) = Some (fst kv)) keyed ->
  filter (tied account_key k) (map snd keyed) = map snd (filter (tied fst k) keyed).
Proof.
  intros Hk. induction Hk as [|kv l Hkv Hl IH]; [reflexivity|].
  cbn [map filter].
  assert (Ht : tied account_key k (snd kv) = tied fst k kv).
  { unfold tied, account_key. now rewrite Hkv. }
  rewrite Ht. destruct (tied fst k kv); cbn [map]; now rewrite IH.
Qed.

Lemma numeric_keyed (rows : list row) (keyed : list (float * row)) :
  sort_keys rows = Some keyed -> ranked_rows rows = true ->
  numeric_keys fst keyed.
Proof.
  revert keyed. induction rows as [|x rows IH]; intros keyed H Hr; simpl in H.
  - injection H as <-. constructor.
  - destruct (accountValue x) as [v|] eqn:Ev; [|discriminate].
    destruct (sort_keys rows) as [keyed'|]; [|discriminate].
    injection H as <-. unfold ranked_rows in Hr. cbn [forallb] in Hr.
    rewrite Ev in Hr. apply andb_prop in Hr. destruct Hr as (Hv & Hr).
    constructor; [now apply negb_true_iff in Hv | now apply IH].
Qed.

Lemma fetch_leaderboard_returned (answer : outcome (option (list row))) (rows : list row) :
  fetch_leaderboard answer = Returned rows ->
  exists all keyed,
    answer = Returned (Some all) /\ sort_keys all = Some keyed /\
    rows = firstn TOP_N (map snd (py_sort_desc fst keyed)).
Proof.
  unfold fetch_leaderboard. destruct answer as [[all|]|]; try discriminate.
  destruct (sort_keys all) as [keyed|] eqn:Ek; [|discriminate].
  intros H. exists all, keyed. split; [reflexivity|]. split; [exact Ek|].
  congruence.
Qed.

Lemma fetch_leaderboard_length (answer : outcome (option (list row))) (rows : list row) :
  fetch_leaderboard answer = Returned rows -> List.length rows <= TOP_N.
Proof.
  intros H. destruct (fetch_leaderboard_returned answer rows H) as (all & keyed & _ & _ & ->).
  apply firstn_le_length.
Qed.

(** X15. What [fetch_leaderboard] returns is the front, at most 100
    rows, of a rearrangement of the rows of the answer.  When every
    account value is a number other than NaN the rearrangement is in
    descending order of account value, and rows of equal account value
    keep the order they had in the answer. *)
Theorem leaderboard_top_rows (answer : outcome (option (list row))) (rows : list row) :
  fetch_leaderboard answer = Returned rows ->
  exists all ranked,
    answer = Returned (Some all) /\
    rows = firstn TOP_N ranked /\
    Permutation ranked all /\
    List.length rows = Nat.min TOP_N (List.length all) /\
    (ranked_rows all = true ->
     StronglySorted (not_below account_key) ranked /\
     forall k, filter (tied account_key k) ranked = filter (tied account_key k) all).
Proof.
  intros H.
  destruct (fetch_leaderboard_returned answer rows H) as (all & keyed & -> & Ek & ->).
  destruct (sort_keys_rows all keyed Ek) as (Hm & Hk).
  assert (Hperm : Permutation (map snd (py_sort_desc fst keyed)) all).
  { rewrite <- Hm. apply Permutation_map, py_sort_desc_perm. }
  exists all, (map snd (py_sort_desc fst keyed)).
  split; [reflexivity|]. split; [reflexivity|]. split; [exact Hperm|].
  split; [rewrite length_firstn; f_equal; now apply Permutation_length|].
  intros Hr.
  assert (Hk' : Forall (fun kv => accountValue (snd kv) = Some (fst kv))
                       (py_sort_desc fst keyed)).
  { apply (Forall_perm _ keyed); [|exact Hk].
    apply Permutation_sym, py_sort_desc_perm. }
  split.
  - apply sorted_map_snd; [exact Hk'|].
    apply py_sort_desc_sorted. now apply (numeric_keyed all).
  - intros k. rewrite filter_map_snd by exact Hk'.
    rewrite filter_py_sort_desc, <- filter_map_snd by exact Hk.
    now rewrite Hm.
Qed.

Lemma leaderboard_top_rows_witness :
  exists all ranked,
    Returned (Some [mkRow (Some (of_Z 5)) A_ok; mkRow (Some (of_Z 9)) C_ok]) =
    Returned (Some all) /\
    [mkRow (Some (of_Z 9)) C_ok; mkRow (Some (of_Z 5)) A_ok] = firstn TOP_N ranked /\
    Permutation ranked all.
Proof.
  destruct (leaderboard_top_rows
              (Returned (Some [mkRow (Some (of_Z 5)) A_ok; mkRow (Some (of_Z 9)) C_ok]))
              [mkRow (Some (of_Z 9)) C_ok; mkRow (Some (of_Z 5)) A_ok] eq_refl)
    as (all & ranked & H1 & H2 & H3 & _).
  exists all, ranked. repeat split; assumption.
Defined.

(** X16. [fetch_leaderboard] raises exactly when the leaderboard cannot
    be fetched, the answer has no [leaderboardRows], or some row of the
    answer, wherever it stands, has no account value that reads as a
    number. *)
Theorem leaderboard_raises (answer : outcome (option (list row))) :
  fetch_leaderboard answer = Raised <->
  answer = Raised \/ answer = Returned None \/
  exists rows, answer = Returned (Some rows) /\
               Exists (fun x => accountValue x = None) rows.
Proof.
  unfold fetch_leaderboard. destruct answer as [[rows|]|].
  - destruct (sort_keys rows) as [keyed|] eqn:Ek.
    + split; [discriminate|]. intros [H|[H|(rows' & H & Hex)]]; try discriminate.
      injection H as <-. apply sort_keys_none in Hex. congruence.
    + split; [|reflexivity]. intros _. right. right. exists rows.
      split; [reflexivity | now apply sort_keys_none].
  - split; [|reflexivity]. intros _. right. now left.
  - split; [|reflexivity]. intros _. now left.
Qed.

(** X17. On top of [fetch_leaderboard], a run goes through at most 100
    traders and so reports at most 100 traders loaded; when the
    leaderboard raises, the run raises and the file stays as it is. *)
Theorem run_over_leaderboard (answer : outcome (option (list row))) (now : Z)
        (w : write_fate) (f : file_state) :
  (forall results, leaderboard_results answer = Returned results ->
                   List.length results <= TOP_N /\
                   traders (aggregate now results) <= TOP_N) /\
  (fetch_leaderboard answer = Raised ->
   take_snapshot (leaderboard_results answer) now w f = (Raised, f)).
Proof.
  unfold leaderboard_results. split.
  - intros results H.
    destruct (fetch_leaderboard answer) as [rows|] eqn:E; [|discriminate].
    injection H as <-.
    assert (Hl : List.length (map fetched rows) <= TOP_N).
    { rewrite length_map. now apply (fetch_leaderboard_length answer). }
    split; [exact Hl|]. rewrite traders_loaded.
    eapply Nat.le_trans; [apply filter_length_le | exact Hl].
  - intros ->. reflexivity.
Qed.

Lemma run_over_leaderboard_witness :
  traders (aggregate 0 [C_ok; A_ok]) <= TOP_N /\
  take_snapshot (leaderboard_results (Returned (Some [mkRow None A_ok]))) 0
                Completes Missing =
  (Raised, Missing).
Proof.
  split.
  - exact (proj2 (proj1 (run_over_leaderboard
                           (Returned (Some [mkRow (Some (of_Z 5)) A_ok;
                                            mkRow (Some (of_Z 9)) C_ok])) 0
                           Completes Missing)
                        [C_ok; A_ok] eq_refl)).
  - exact (proj2 (run_over_leaderboard (Returned (Some [mkRow None A_ok])) 0
                                       Completes Missing)
                 eq_refl).
Defined.

(** * Properties of the HTTP handler *)

Section HandlerFacts.
Local Open Scope string_scope.

(** ** The default separators *)

(** Tests on the characters of the separators are evaluated. *)
Ltac known_chars :=
  repeat (cbn [skip_ws];
          match goal with
          | |- context [is_ws ?a] =>
              let b := eval vm_compute in (is_ws a) in
              lazymatch b with
              | true => change (is_ws a) with true
              | false => change (is_ws a) with false
              end
          | |- context [Ascii.eqb ?a ?a'] =>
              let b := eval vm_compute in (Ascii.eqb a a') in
              lazymatch b with
              | true => change (Ascii.eqb a a') with true
              | false => change (Ascii.eqb a a') with false
              end
          end;
          cbv beta iota).

Lemma array_loop_reads_default (l : list json) :
  l <> [] ->
  Forall default_reads_back l ->
  forall fuel rest,
    String.length (concat ", " (map dumps_default l)) + 1 < fuel ->
    array_loop fuel (concat ", " (map dumps_default l) ++ String "]" rest) =
    Some (l, rest).
Proof.
  induction l as [|x l IH]; [congruence|]. intros _ Hall fuel rest Hlen.
  inversion Hall as [|? ? Hx Hl]; subst.
  destruct fuel as [|fuel]; [lia|]. cbn [array_loop]. unfold array_body.
  destruct l as [|y l].
  - cbn [map concat] in *.
    rewrite (Hx fuel (String "]" rest)); [| lia | apply delimited_close; auto].
    reflexivity.
  - cbn [map] in *. rewrite concat_cons2 in *.
    rewrite length_append in Hlen. cbn [String.length append] in Hlen.
    rewrite !append_assoc. cbn [append].
    rewrite (Hx fuel); [| lia | apply delimited_close; auto].
    known_chars.
    assert (Hrec : array_loop fuel
                     (concat ", " (dumps_default y :: map dumps_default l) ++
                      String "]" rest) =
                   Some (y :: l, rest)).
    { apply IH; [discriminate | exact Hl | lia]. }
    rewrite (array_loop_no_ws _ _ _ Hrec), Hrec. reflexivity.
Qed.

Lemma default_item_shape (k : string) (v : json) :
  default_item (k, v) =
  String dquote (escape k ++ String dquote (String ":" (String " " (dumps_default v)))).
Proof.
  unfold default_item, encode_basestring_ascii. cbn [fst snd append].
  now rewrite append_assoc.
Qed.

Lemma object_loop_reads_default (d : list (string * json)) :
  d <> [] ->
  Forall (fun kv => default_reads_back (snd kv)) d ->
  forall fuel rest,
    String.length (concat ", " (map default_item d)) + 1 < fuel ->
    exists tail,
      concat ", " (map default_item d) ++ String "}" rest = String dquote tail /\
      object_loop fuel tail = Some (d, rest).
Proof.
  induction d as [|[k v] d IH]; [congruence|]. intros _ Hall fuel rest Hlen.
  inversion Hall as [|? ? Hv Hd]; subst. cbn [snd] in Hv.
  destruct fuel as [|fuel]; [lia|].
  destruct d as [|kv d].
  - cbn [map concat] in *. rewrite default_item_shape in *.
    cbn [String.length] in Hlen. rewrite length_append in Hlen.
    cbn [String.length] in Hlen.
    eexists. split; [cbn [append]; reflexivity|].
    rewrite append_assoc. cbn [append object_loop]. unfold object_body.
    rewrite scanstring_escape. known_chars.
    assert (Hread : scan_once fuel (dumps_default v ++ String "}" rest) =
                    Some (v, String "}" rest)).
    { apply Hv; [lia | apply delimited_close; auto]. }
    rewrite (scan_once_no_ws _ _ _ Hread), Hread. known_chars.
    reflexivity.
  - cbn [map] in *. rewrite concat_cons2 in *. rewrite default_item_shape in *.
    rewrite length_append in Hlen. cbn [String.length append] in Hlen.
    rewrite length_append in Hlen. cbn [String.length] in Hlen.
    destruct (IH ltac:(discriminate) Hd fuel rest ltac:(lia)) as (tail & Htail & Hobj).
    eexists. split.
    + rewrite !append_assoc. cbn [append]. rewrite !append_assoc. cbn [append].
      rewrite Htail. reflexivity.
    + cbn [object_loop]. unfold object_body.
      rewrite scanstring_escape. known_chars.
      assert (Hread : scan_once fuel
                        (dumps_default v ++ String "," (String " " (String dquote tail))) =
                      Some (v, String "," (String " " (String dquote tail)))).
      { apply Hv; [lia | apply delimited_close; auto]. }
      rewrite (scan_once_no_ws _ _ _ Hread), Hread. known_chars.
      rewrite Hobj. reflexivity.
Qed.

Lemma Forall_valid_default (A : Type) (f : A -> json) (l : list A) :
  Forall (fun x => valid_json (f x) = true -> default_reads_back (f x)) l ->
  forallb (fun x => valid_json (f x)) l = true ->
  Forall (fun x => default_reads_back (f x)) l.
Proof.
  intros H Hv. rewrite forallb_forall in Hv. rewrite Forall_forall in *.
  intros x Hx. apply H; [exact Hx | now apply Hv].
Qed.

Lemma dumps_default_list (l : list json) :
  dumps_default (JList l) = "[" ++ concat ", " (map dumps_default l) ++ "]".
Proof. reflexivity. Qed.

Lemma dumps_default_dict (d : list (string * json)) :
  dumps_default (JDict d) = "{" ++ concat ", " (map default_item d) ++ "}".
Proof. reflexivity. Qed.

Lemma scan_dumps_default (v : json) : valid_json v = true -> default_reads_back v.
Proof.
  induction v as [| b | z | x | s | l IH | d IH] using json_ind;
    intros Hv fuel rest Hlen Hd;
    (destruct fuel as [|fuel]; [lia|]).
  - reflexivity.
  - destruct b; reflexivity.
  - apply scan_once_token; [apply scan_number_int | exact Hd].
  - apply scan_once_token; [now apply scan_number_float | exact Hd].
  - unfold dumps_default. cbn [dumps_sep]. unfold encode_basestring_ascii. cbn [append].
    rewrite append_assoc. cbn [append scan_once]. unfold scan_body.
    rewrite Ascii.eqb_refl, scanstring_escape. reflexivity.
  - cbn [valid_json] in Hv.
    assert (Hall : Forall default_reads_back l).
    { apply (Forall_valid_default json (fun x => x)); assumption. }
    destruct l as [|x l]; [reflexivity|].
    rewrite dumps_default_list in *. cbn [append String.length] in *.
    rewrite length_append in Hlen. cbn [String.length] in Hlen.
    rewrite append_assoc. cbn [append].
    assert (Harr : array_loop fuel
                     (concat ", " (map dumps_default (x :: l)) ++ String "]" rest) =
                   Some (x :: l, rest)).
    { apply array_loop_reads_default; [discriminate | exact Hall | lia]. }
    cbn [scan_once]. unfold scan_body.
    change (Ascii.eqb "[" dquote) with false.
    change (Ascii.eqb "[" "{") with false.
    change (Ascii.eqb "[" "[") with true. cbv beta iota.
    rewrite (array_loop_no_ws _ _ _ Harr).
    destruct (array_loop_head _ _ _ Harr) as (a & s' & Heq & Ha).
    rewrite Heq in *. rewrite Ha, Harr. reflexivity.
  - cbn [valid_json] in Hv. apply andb_prop in Hv. destruct Hv as (Hkeys & Hv).
    assert (Hall : Forall (fun kv => default_reads_back (snd kv)) d).
    { apply (Forall_valid_default (string * json) snd); assumption. }
    destruct d as [|kv d]; [reflexivity|].
    rewrite dumps_default_dict in *. cbn [append String.length] in *.
    rewrite length_append in Hlen. cbn [String.length] in Hlen.
    rewrite append_assoc. cbn [append].
    destruct (object_loop_reads_default (kv :: d) ltac:(discriminate) Hall fuel rest
                                        ltac:(lia)) as (tail & Htail & Hobj).
    rewrite Htail.
    cbn [scan_once]. unfold scan_body. known_chars.
    rewrite Hobj. now rewrite dict_of_pairs_unique.
Qed.

Lemma loads_dumps_default (v : json) :
  valid_json v = true -> loads (dumps_default v) = Some v.
Proof.
  intros Hv. unfold loads.
  assert (Hread : scan_once (S (S (String.length (dumps_default v)))) (dumps_default v) =
                  Some (v, "")).
  { rewrite <- (append_nil_r (dumps_default v)) at 2.
    apply scan_dumps_default; [exact Hv | lia | exact I]. }
  rewrite (scan_once_no_ws _ _ _ Hread), Hread. reflexivity.
Qed.

(** X18. [json.dumps] with its default separators, as the handler
    calls it, writes a text that [json.loads] reads back as the same
    document, for every document whose floats are fine and whose
    dictionaries hold each key once; the compact text of the store and
    the spaced text of the handler so decode alike. *)
Theorem default_separators_round_trip (v : json) :
  valid_json v = true ->
  loads (dumps_default v) = Some v /\ loads (dumps_default v) = loads (dumps v).
Proof.
  intros Hv. rewrite loads_dumps_default, loads_dumps by exact Hv. now split.
Qed.

Lemma default_separators_round_trip_witness :
  loads (dumps_default (history_json history_2)) = Some (history_json history_2).
Proof.
  exact (proj1 (default_separators_round_trip (history_json history_2) eq_refl)).
Defined.

(** ** The routes *)

Lemma load_snapshots_returns (f : file_state) :
  file_exists f <> Raised -> exists v, load_snapshots f = Returned v.
Proof.
  unfold load_snapshots. destruct (file_exists f) as [[|]|]; [| |congruence].
  - intros _. destruct (read_json f); now eexists.
  - intros _. now eexists.
Qed.

Lemma take_snapshot_returned (leaderboard : outcome (list fetch_result)) (now : Z)
      (w : write_fate) (f f' : file_state) (snap : snapshot) :
  take_snapshot leaderboard now w f = (Returned snap, f') ->
  w = Completes /\
  exists results, leaderboard = Returned results /\ snap = aggregate now results.
Proof.
  unfold take_snapshot, store_snapshot, write_text.
  destruct leaderboard as [results|]; [|discriminate].
  destruct (load_snapshots f) as [[| | | | |snaps|]|]; try discriminate.
  destruct (writable f); [|discriminate].
  destruct w; try discriminate.
  intros H. injection H as <- _. split; [reflexivity|]. now exists results.
Qed.

Lemma take_snapshot_raised (leaderboard : outcome (list fetch_result)) (now : Z)
      (w : write_fate) (f f' : file_state) :
  take_snapshot leaderboard now w f = (Raised, f') ->
  f' = f \/
  exists n data, w = Cut n /\ writable f = true /\ f' = during_write data n f.
Proof.
  unfold take_snapshot, store_snapshot, write_text.
  destruct leaderboard as [results|]; [|left; congruence].
  destruct (load_snapshots f) as [[| | | | |snaps|]|]; try (left; congruence).
  destruct (writable f); [|left; congruence].
  destruct w as [| |n]; [discriminate | left; congruence |].
  intros H. injection H as <-. right. eexists. eexists.
  split; [reflexivity|]. split; reflexivity.
Qed.

(** X19. [GET /api/snapshots] never touches the file.  When the
    presence of the file can be tested, and its text is one [json.loads]
    and the decoder here treat alike, the answer is 200, its headers
    are those of the server and the date followed by [Content-Type],
    [Access-Control-Allow-Origin] and a [Content-Length] that is the
    length of the body, and the body is the stored document written
    with the default separators, the empty list when the file is
    missing, cannot be read or holds a text that does not parse.  When
    the test of presence raises, the exception leaves the handler and
    nothing is sent. *)
Theorem snapshots_route_answers (leaderboard : outcome (list fetch_result))
        (now : Z) (w : write_fate) (message html server date : string)
        (f : file_state) :
  (file_exists f <> Raised -> within_reach f = true ->
   exists resp snaps,
     do_GET "/api/snapshots" leaderboard now w message html server date f =
     (Returned resp, f) /\
     load_snapshots f = Returned snaps /\
     status resp = 200 /\
     body resp = dumps_default snaps /\
     headers resp =
     [("Server", server); ("Date", date);
      ("Content-Type", "application/json");
      ("Access-Control-Allow-Origin", "*");
      ("Content-Length", int_repr (Z.of_nat (String.length (body resp))))] /\
     (f = Missing \/ (file_exists f = Returned true /\ read_text f = Raised) \/
      (exists text, f = Content text /\ loads text = None) ->
      body resp = "[]")) /\
  (file_exists f = Raised ->
   do_GET "/api/snapshots" leaderboard now w message html server date f =
   (Raised, f)).
Proof.
  unfold do_GET. change ("/api/snapshots" =? "/api/snapshots") with true.
  cbv beta iota. split.
  - intros Hex _. destruct (load_snapshots_returns f Hex) as (snaps & Hl).
    rewrite Hl.
    eexists. exists snaps. split; [reflexivity|]. split; [reflexivity|].
    split; [reflexivity|]. split; [reflexivity|].
    split; [reflexivity|].
    cbn [body]. intros Hf.
    assert (Hempty : load_snapshots f = Returned (JList [])).
    { unfold load_snapshots, read_json.
      destruct Hf as [->|[(He & Hr)|(text & -> & Hp)]]; [reflexivity | |].
      - now rewrite He, Hr.
      - cbn [file_exists read_text]. now rewrite Hp. }
    rewrite Hl in Hempty. injection Hempty as ->. reflexivity.
  - intros Hex. unfold load_snapshots. now rewrite Hex.
Qed.

Lemma snapshots_route_answers_witness :
  (exists resp,
      do_GET "/api/snapshots" Raised 0 Completes "m" "h" "s" "d" Directory =
      (Returned resp, Directory) /\
      status resp = 200 /\ body resp = "[]") /\
  do_GET "/api/snapshots" Raised 0 Completes "m" "h" "s" "d" Forbidden =
  (Raised, Forbidden).
Proof.
  split.
  - destruct (proj1 (snapshots_route_answers Raised 0 Completes "m" "h" "s" "d"
                                             Directory) ltac:(discriminate) eq_refl)
      as (resp & snaps & Hd & _ & Hs & _ & _ & Hb).
    exists resp. split; [exact Hd|]. split; [exact Hs|].
    apply Hb. right. left. split; reflexivity.
  - exact (proj2 (snapshots_route_answers Raised 0 Completes "m" "h" "s" "d"
                                          Forbidden) eq_refl).
Defined.

(** X20. For every valid stored document, the body that
    [GET /api/snapshots] sends reads back as that document; so a valid
    history that was saved is served as it was saved. *)
Theorem snapshots_route_serves_history (leaderboard : outcome (list fetch_result))
        (now : Z) (w : write_fate) (message html server date : string)
        (f : file_state) (v : json) :
  load_snapshots f = Returned v ->
  valid_json v = true ->
  exists resp,
    fst (do_GET "/api/snapshots" leaderboard now w message html server date f) =
    Returned resp /\
    loads (body resp) = Some v.
Proof.
  intros Hl Hv.
  unfold do_GET. change ("/api/snapshots" =? "/api/snapshots") with true.
  cbv beta iota. rewrite Hl.
  eexists. split; [reflexivity|]. cbn [body]. now apply loads_dumps_default.
Qed.

Lemma snapshots_route_serves_history_witness :
  exists resp,
    fst (do_GET "/api/snapshots" Raised 0 Completes "m" "h" "s" "d"
                (save_snapshots (history_json history_2) Missing)) = Returned resp /\
    loads (body resp) = Some (history_json history_2).
Proof.
  exact (snapshots_route_serves_history Raised 0 Completes "m" "h" "s" "d"
           (save_snapshots (history_json history_2) Missing)
           (history_json history_2)
           (load_save (history_json history_2) Missing eq_refl) eq_refl).
Defined.

(** X21. [GET /api/snapshot/now], over a data file whose text
    [json.loads] and the decoder here treat alike, lets no exception
    out.  When the run goes through, its write having completed, the
    answer is 200 with the snapshot of the run, which reads back as that
    snapshot when none of its numbers is NaN.  When the run raises the answer is 500, its body
    reads back as the dictionary holding the message under [error], and
    the file is as it was, unless the write broke off, which leaves in
    it a part of the new text. *)
Theorem snapshot_now_route_answers (leaderboard : outcome (list fetch_result))
        (now : Z) (w : write_fate) (message html server date : string)
        (f : file_state) :
  within_reach f = true ->
  exists resp f',
    do_GET "/api/snapshot/now" leaderboard now w message html server date f =
    (Returned resp, f') /\
    ((exists snap,
         take_snapshot leaderboard now w f = (Returned snap, f') /\
         w = Completes /\
         status resp = 200 /\
         headers resp = [("Server", server); ("Date", date);
                         ("Content-Type", "application/json");
                         ("Access-Control-Allow-Origin", "*")] /\
         body resp = dumps_default (snapshot_json snap) /\
         (snapshot_numeric snap = true ->
          loads (body resp) = Some (snapshot_json snap))) \/
     (take_snapshot leaderboard now w f = (Raised, f') /\
      (f' = f \/
       exists n data, w = Cut n /\ writable f = true /\
                      f' = during_write data n f) /\
      status resp = 500 /\
      headers resp = [("Server", server); ("Date", date);
                      ("Content-Type", "application/json")] /\
      loads (body resp) = Some (JDict [("error", JStr message)]))).
Proof.
  intros _.
  unfold do_GET. change ("/api/snapshot/now" =? "/api/snapshots") with false.
  change ("/api/snapshot/now" =? "/api/snapshot/now") with true. cbv beta iota.
  destruct (take_snapshot leaderboard now w f) as [[snap|] f'] eqn:Et.
  - destruct (take_snapshot_returned _ _ _ _ _ _ Et) as (Hw & results & _ & Hs).
    eexists. exists f'. split; [reflexivity|]. left. exists snap.
    split; [reflexivity|]. split; [exact Hw|]. split; [reflexivity|].
    split; [reflexivity|]. split; [reflexivity|].
    intros Hn. cbn [body]. apply loads_dumps_default.
    rewrite valid_snapshot_json. subst snap. now rewrite aggregate_ok.
  - eexists. exists f'. split; [reflexivity|]. right.
    split; [reflexivity|].
    split; [now apply (take_snapshot_raised leaderboard now w)|].
    split; [reflexivity|]. split; [reflexivity|].
    cbn [body]. now apply loads_dumps_default.
Qed.

Lemma snapshot_now_route_answers_witness :
  exists resp,
    do_GET "/api/snapshot/now" Raised 0 Completes "m" "h" "s" "d" Missing =
    (Returned resp, Missing) /\
    status resp = 500.
Proof.
  destruct (snapshot_now_route_answers Raised 0 Completes "m" "h" "s" "d" Missing
                                       eq_refl)
    as (resp & f' & Hd & [(snap & Ht & _)|(Ht & _ & Hs & _)]).
  - discriminate Ht.
  - injection Ht as <-. exists resp. split; [exact Hd | exact Hs].
Defined.

(** X22. Every path other than [/api/snapshot/now] leaves the file as
    it is, and every path other than the four the handler knows is
    answered 404 with the headers of the server and the date alone and
    an empty body. *)
Theorem other_routes_read_only (path : string)
        (leaderboard : outcome (list fetch_result))
        (now : Z) (w : write_fate) (message html server date : string)
        (f : file_state) :
  path <> "/api/snapshot/now" ->
  snd (do_GET path leaderboard now w message html server date f) = f /\
  (path <> "/api/snapshots" -> path <> "/" -> path <> "/index.html" ->
   do_GET path leaderboard now w message html server date f =
   (Returned (mkResponse 404 [("Server", server); ("Date", date)] EmptyString), f)).
Proof.
  intros Hnow. unfold do_GET.
  destruct (String.eqb_spec path "/api/snapshots") as [He|Hs].
  - split; [|intros H; contradiction].
    destruct (load_snapshots f); reflexivity.
  - destruct (String.eqb_spec path "/api/snapshot/now") as [He|_]; [contradiction|].
    destruct (String.eqb_spec path "/") as [He|Hr];
      [split; [reflexivity | intros _ H; contradiction]|].
    destruct (String.eqb_spec path "/index.html") as [He|Hi];
      [split; [reflexivity | intros _ _ H; contradiction]|].
    split; reflexivity.
Qed.

Lemma other_routes_read_only_witness :
  do_GET "/favicon.ico" (Returned batch_AB) 0 Completes "m" "h" "s" "d" Missing =
  (Returned (mkResponse 404 [("Server", "s"); ("Date", "d")] EmptyString), Missing).
Proof.
  apply (proj2 (other_routes_read_only "/favicon.ico" (Returned batch_AB) 0
                                       Completes "m" "h" "s" "d"
                                       Missing ltac:(discriminate)));
    discriminate.
Defined.

End HandlerFacts.
